(** * Ant-Colony-Optimisation: a shallow embedding of [main.py]

    The development follows the Python source function by function:
    [read_data], [generate_path], [get_fitness], [update_pheromones],
    [main], [experiments] and the script's command line.  Python
    exceptions are values of an error monad,
    the two random generators are read from tapes through cursors that
    are threaded as state, and numpy's floating-point scalars are
    modelled as exact rationals extended with the two infinities and
    NaN (no rounding, no overflow): where a statement needs the
    floating-point values to stay in range, it carries a bound as a
    hypothesis.

    The data matrices are numpy arrays of [int64]: the products and
    sums of [get_fitness] and the running total of [main] wrap around
    modulo [2^64], as numpy's integer scalars do.

    Library behaviour is taken from numpy 1.24 or later ([np.delete]
    raises on an index out of bounds, [np.array] on rows of unequal
    length) and Python 3.9 or later ([random.choices] rejects a total
    weight that is not positive). *)

From Stdlib Require Import ZArith List Bool Lia Permutation Sorted.
From Stdlib Require Import QArith Qcanon Lqa.
From Stdlib Require Ascii String.
Import ListNotations.
Import String.StringSyntax.

Local Open Scope Z_scope.
Local Delimit Scope string_scope with str.

(** ** Exceptions and the error monad *)

Inductive exn : Type :=
| IndexError
| ValueError
| ZeroDivisionError.

Inductive result (A : Type) : Type :=
| Ok (a : A)
| Err (e : exn).

Arguments Ok {A} a.
Arguments Err {A} e.

Definition bind {A B : Type} (c : result A) (k : A -> result B) : result B :=
  match c with
  | Ok a => k a
  | Err e => Err e
  end.

Notation "x <- c ;; k" := (bind c (fun x => k))
  (at level 61, c at next level, right associativity).
Notation "' p <- c ;; k" := (bind c (fun p => k))
  (at level 61, p pattern, c at next level, right associativity).

Definition is_ok {A : Type} (c : result A) : bool :=
  match c with Ok _ => true | Err _ => false end.

(** [for x in xs: st = body x st], stopping at the first exception. *)
Fixpoint for_each {X S : Type} (xs : list X) (body : X -> S -> result S)
  (st : S) : result S :=
  match xs with
  | [] => Ok st
  | x :: xs' => st' <- body x st ;; for_each xs' body st'
  end.

(** [range(lo, hi)] and [np.arange(lo, hi)]. *)
Definition range (lo hi : Z) : list Z :=
  map (fun k => lo + Z.of_nat k) (seq 0 (Z.to_nat (hi - lo))).

Definition arange (lo hi : Z) : list Z := range lo hi.

Definition len {A : Type} (l : list A) : Z := Z.of_nat (length l).

(** ** Floating-point scalars

    [Fin q] is a finite value; arithmetic on finite values is exact.
    The special values follow IEEE 754: they are produced by a division
    by zero and propagate through [+] and [*]. *)

Inductive fl : Type :=
| Fin (q : Qc)
| PInf
| NInf
| NaN.

Definition fl_zero : fl := Fin (Q2Qc 0).
Definition fl_one : fl := Fin (Q2Qc 1).
Definition fl_of_Z (z : Z) : fl := Fin (Q2Qc (inject_Z z)).

Definition Qc_sign (q : Qc) : comparison := Qccompare q (Q2Qc 0).

Definition fl_add (x y : fl) : fl :=
  match x, y with
  | NaN, _ | _, NaN => NaN
  | PInf, NInf | NInf, PInf => NaN
  | PInf, _ | _, PInf => PInf
  | NInf, _ | _, NInf => NInf
  | Fin a, Fin b => Fin (a + b)%Qc
  end.

Definition fl_inf_of_sign (c : comparison) : fl :=
  match c with
  | Gt => PInf
  | Lt => NInf
  | Eq => NaN
  end.

Definition fl_sign (x : fl) : comparison :=
  match x with
  | Fin q => Qc_sign q
  | PInf => Gt
  | NInf => Lt
  | NaN => Eq
  end.

Definition fl_mul (x y : fl) : fl :=
  match x, y with
  | NaN, _ | _, NaN => NaN
  | Fin a, Fin b => Fin (a * b)%Qc
  | PInf, _ | _, PInf => fl_inf_of_sign (fl_sign (match x with PInf => y | _ => x end))
  | NInf, _ | _, NInf =>
      fl_inf_of_sign (CompOpp (fl_sign (match x with NInf => y | _ => x end)))
  end.

(** [np.longdouble(1) / np.longdouble(fitness)] for an integer
    [fitness]: numpy warns on a zero divisor and returns [inf]; it does
    not raise. *)
Definition reciprocal (fitness : Z) : fl :=
  if fitness =? 0 then PInf
  else Fin (Q2Qc (/ inject_Z fitness)).

(** [total / m] of two integers, [m] non-zero at the only call. *)
Definition true_div (a b : Z) : fl :=
  Fin (Q2Qc (inject_Z a / inject_Z b)).

Definition fl_ltb (x y : fl) : bool :=
  match x, y with
  | NaN, _ | _, NaN => false
  | Fin a, Fin b => match Qccompare a b with Lt => true | _ => false end
  | NInf, NInf => false
  | NInf, _ => true
  | _, PInf => match x with PInf => false | _ => true end
  | _, _ => false
  end.

Definition fl_leb (x y : fl) : bool :=
  match x, y with
  | NaN, _ | _, NaN => false
  | Fin a, Fin b => match Qccompare a b with Gt => false | _ => true end
  | NInf, _ => true
  | _, PInf => true
  | _, _ => false
  end.

Definition fl_isfinite (x : fl) : bool :=
  match x with Fin _ => true | _ => false end.

(** ** Sequences with Python and numpy indexing *)

Definition valid_index (N k : Z) : bool := (Z.opp N <=? k) && (k <? N).
Definition norm_index (N k : Z) : Z := if k <? 0 then k + N else k.

(** [l[k]]: negative indices count from the end, anything outside
    [-len, len) raises [IndexError]. *)
Definition index {A : Type} (l : list A) (k : Z) : result A :=
  if valid_index (len l) k then
    match nth_error l (Z.to_nat (norm_index (len l) k)) with
    | Some a => Ok a
    | None => Err IndexError
    end
  else Err IndexError.

Definition mem (k : Z) (l : list Z) : bool := existsb (Z.eqb k) l.

(** The elements of [arr], numbered from [pos], whose number is not in
    [dead]: numpy's [arr[keep]] for the mask [keep[obj] = False]. *)
Fixpoint keep_from {A : Type} (pos : Z) (arr : list A) (dead : list Z) : list A :=
  match arr with
  | [] => []
  | a :: arr' =>
      if mem pos dead then keep_from (pos + 1) arr' dead
      else a :: keep_from (pos + 1) arr' dead
  end.

(** [np.delete(arr, obj)] for a one-dimensional [arr] and an integer
    array [obj]: an index outside [-N, N) raises [IndexError], negative
    indices wrap, repeated indices delete once. *)
Definition np_delete {A : Type} (arr : list A) (obj : list Z) : result (list A) :=
  let N := len arr in
  if forallb (valid_index N) obj
  then Ok (keep_from 0 arr (map (norm_index N) obj))
  else Err IndexError.

(** ** [random.choices(population, weights=w, k=1)] *)

(** [itertools.accumulate(weights)]. *)
Fixpoint accumulate_from (acc : fl) (ws : list fl) : list fl :=
  match ws with
  | [] => []
  | w :: ws' => let acc' := fl_add acc w in acc' :: accumulate_from acc' ws'
  end.

Definition accumulate (ws : list fl) : list fl :=
  match ws with
  | [] => []
  | w :: ws' => w :: accumulate_from w ws'
  end.

(** [bisect.bisect_right(a, x, lo, hi)]: the [while lo < hi] loop, run
    for at most [fuel] rounds. *)
Fixpoint bisect_loop (fuel : nat) (a : list fl) (x : fl) (lo hi : nat) : nat :=
  match fuel with
  | O => lo
  | S fuel' =>
      if (lo <? hi)%nat then
        let mid := ((lo + hi) / 2)%nat in
        if fl_ltb x (nth mid a NaN) then bisect_loop fuel' a x lo mid
        else bisect_loop fuel' a x (S mid) hi
      else lo
  end.

Definition bisect (a : list fl) (x : fl) (lo hi : nat) : nat :=
  bisect_loop (S (hi - lo)) a x lo hi.

(** The single draw [r] is the value of [random()] used by the call. *)
Definition random_choices (population : list Z) (weights : list fl) (r : fl)
  : result Z :=
  let n := length population in
  let cum_weights := accumulate weights in
  if negb (length cum_weights =? n)%nat then Err ValueError
  else
    last_cum <- index cum_weights (-1) ;;
    let total := fl_add last_cum fl_zero in
    if fl_leb total fl_zero then Err ValueError
    else if negb (fl_isfinite total) then Err ValueError
    else
      let hi := (n - 1)%nat in
      index population (Z.of_nat (bisect cum_weights (fl_mul r total) 0 hi)).

(** ** Random sources

    [py_random k] is the [k]-th value returned by [random.random()],
    [np_uniform k] the [k]-th uniform sample of numpy's generator and
    [np_integer k] its [k]-th raw integer.  A cursor into each tape is
    the generator's state. *)

Record tapes : Type := {
  py_random : nat -> Qc;
  np_uniform : nat -> Qc;
  np_integer : nat -> Z
}.

Record rng : Type := {
  py_cursor : nat;
  np_cursor : nat;
  np_int_cursor : nat
}.

Definition rng0 : rng := {| py_cursor := 0; np_cursor := 0; np_int_cursor := 0 |}.

Definition matrix : Type := list (list fl).

(** ** [generate_path] *)

Section GeneratePath.

Variable T : tapes.

Definition next_random (g : rng) : fl * rng :=
  (Fin (py_random T (py_cursor g)),
   {| py_cursor := S (py_cursor g);
      np_cursor := np_cursor g;
      np_int_cursor := np_int_cursor g |}).

(** One round of [for i in range(1, n)]. *)
Definition generate_path_step (n : Z) (pheromones : matrix) (all_nodes : list Z)
  (i : Z) (st : list Z * rng) : result (list Z * rng) :=
  let '(path, g) := st in
  next_nodes <- np_delete all_nodes path ;;
  if i =? n - 1 then
    choice <- index next_nodes 0 ;;
    Ok (path ++ [choice], g)
  else
    last_node <- index path (-1) ;;
    row <- index pheromones last_node ;;
    next_pheromones <- np_delete row path ;;
    let '(r, g') := next_random g in
    choice <- random_choices next_nodes next_pheromones r ;;
    Ok (path ++ [choice], g').

Definition generate_path (n start : Z) (pheromones : matrix) (g : rng)
  : result (list Z * rng) :=
  let path := [start] in
  let all_nodes := arange 0 n in
  for_each (range 1 n) (generate_path_step n pheromones all_nodes) (path, g).

End GeneratePath.

(** ** [get_fitness] *)

Definition imatrix : Type := list (list Z).

(** An [int64] result: the integer reduced modulo [2^64] into
    [[-2^63, 2^63)].  numpy warns on overflow and wraps. *)
Definition wrap64 (z : Z) : Z := (z + 2 ^ 63) mod 2 ^ 64 - 2 ^ 63.

(** [np.array(rows)] for a list of lists of integers: rows of unequal
    length raise [ValueError]. *)
Definition np_array (rows : imatrix) : result imatrix :=
  match rows with
  | [] => Ok []
  | first :: rest =>
    if forallb (fun row => len row =? len first) rest then Ok rows
    else Err ValueError
  end.

(** [d] and [f] are the arrays that [main] passes: the entries are
    [int64], and so are the products and the sums. *)
Definition get_fitness (path : list Z) (d f : imatrix) : result Z :=
  for_each (range 0 (len path)) (fun i fitness =>
    for_each (range 0 (len path)) (fun j fitness =>
      d_i <- index d i ;;
      d_ij <- index d_i j ;;
      path_i <- index path i ;;
      f_pi <- index f path_i ;;
      path_j <- index path j ;;
      f_pipj <- index f_pi path_j ;;
      Ok (wrap64 (fitness + wrap64 (d_ij * f_pipj)))) fitness) 0.

(** ** [update_pheromones] *)

(** [np.zeros((n, n))]: a negative dimension raises [ValueError]. *)
Definition np_zeros (n : Z) : result matrix :=
  if n <? 0 then Err ValueError
  else Ok (repeat (repeat fl_zero (Z.to_nat n)) (Z.to_nat n)).

Fixpoint update_nth {A : Type} (k : nat) (g : A -> A) (l : list A) : list A :=
  match l, k with
  | [], _ => []
  | a :: l', O => g a :: l'
  | a :: l', S k' => a :: update_nth k' g l'
  end.

(** [p[a][b] += v] on a two-dimensional array. *)
Definition add_at (p : matrix) (a b : Z) (v : fl) : result matrix :=
  row <- index p a ;;
  _ <- index row b ;;
  Ok (update_nth (Z.to_nat (norm_index (len p) a))
        (update_nth (Z.to_nat (norm_index (len row) b)) (fun c => fl_add c v)) p).

Definition update_pheromones (oneover : fl) (path : list Z) (n : Z) : result matrix :=
  p <- np_zeros n ;;
  for_each (range 0 (len path - 1)) (fun x p =>
    path_x <- index path x ;;
    path_x1 <- index path (x + 1) ;;
    add_at p path_x path_x1 oneover) p.

(** ** [main] and [experiments] *)

Fixpoint zip_with {A : Type} (g : A -> A -> A) (l1 l2 : list A) : list A :=
  match l1, l2 with
  | a :: l1', b :: l2' => g a b :: zip_with g l1' l2'
  | _, _ => []
  end.

(** [np.add] and [*=] on arrays of one shape; every call in [main] is on
    two [n]-by-[n] arrays. *)
Definition np_add (p q : matrix) : matrix := zip_with (zip_with fl_add) p q.
Definition np_scale (p : matrix) (e : fl) : matrix :=
  map (map (fun c => fl_mul c e)) p.

(** [best_fitness] is [float('inf')] until the first ant, an integer
    fitness afterwards. *)
Inductive best : Type :=
| Infinity
| Fitness (v : Z).

(** [fitness < best_fitness]. *)
Definition lt_best (fitness : Z) (b : best) : bool :=
  match b with
  | Infinity => true
  | Fitness v => fitness <? v
  end.

(** The result of [read_data]: [n], [d] and [f]. *)
Record data : Type := {
  data_n : Z;
  data_d : imatrix;
  data_f : imatrix
}.

(** The variables of [main].  [history] is a ghost variable: it records,
    for every ant evaluated so far, its fitness and the value of
    [best_fitness] after the comparison. *)
Record run_state : Type := {
  pheromones : matrix;
  best_fitness : best;
  total_fitness : Z;
  pheromone_update : matrix;
  average_fitness_list : list fl;
  gen : rng;
  history : list (Z * best)
}.

Section Main.

Variable T : tapes.

(** [np.random.rand(n, n)]. *)
Definition np_random_rand (n : Z) (g : rng) : result (matrix * rng) :=
  if n <? 0 then Err ValueError
  else
    let k := Z.to_nat n in
    let c := np_cursor g in
    Ok (map (fun r => map (fun j => Fin (np_uniform T (c + r * k + j)%nat)) (seq 0 k))
            (seq 0 k),
        {| py_cursor := py_cursor g;
           np_cursor := (c + k * k)%nat;
           np_int_cursor := np_int_cursor g |}).

(** [np.random.randint(low, high)]: an empty interval raises
    [ValueError]; otherwise the raw integer is reduced into
    [low, high). *)
Definition np_random_randint (low high : Z) (g : rng) : result (Z * rng) :=
  if high <=? low then Err ValueError
  else
    Ok (low + np_integer T (np_int_cursor g) mod (high - low),
        {| py_cursor := py_cursor g;
           np_cursor := np_cursor g;
           np_int_cursor := S (np_int_cursor g) |}).

Section Run.

Variables (n : Z) (d f : imatrix) (start m : Z) (e : fl).

(** The body of [for y in range(m)]. *)
Definition ant (y : Z) (st : run_state) : result run_state :=
  ' (path, g) <- generate_path T n start (pheromones st) (gen st) ;;
  fitness <- get_fitness path d f ;;
  let best_fitness' :=
    if lt_best fitness (best_fitness st) then Fitness fitness
    else best_fitness st in
  let total_fitness' := wrap64 (total_fitness st + fitness) in
  let oneover := reciprocal fitness in
  delta <- update_pheromones oneover path n ;;
  Ok {| pheromones := pheromones st;
        best_fitness := best_fitness';
        total_fitness := total_fitness';
        pheromone_update := np_add (pheromone_update st) delta;
        average_fitness_list := average_fitness_list st;
        gen := g;
        history := history st ++ [(fitness, best_fitness')] |}.

(** Lines 123 and 124: deposit, then evaporate. *)
Definition deposit_and_evaporate (pheromones pheromone_update : matrix) : matrix :=
  np_scale (np_add pheromones pheromone_update) e.

(** The body of [for x in range(iterations)]. *)
Definition iteration (x : Z) (st : run_state) : result run_state :=
  zeros <- np_zeros n ;;
  st' <- for_each (range 0 m) ant
           {| pheromones := pheromones st;
              best_fitness := best_fitness st;
              total_fitness := 0;
              pheromone_update := zeros;
              average_fitness_list := average_fitness_list st;
              gen := gen st;
              history := history st |} ;;
  Ok {| pheromones := deposit_and_evaporate (pheromones st') (pheromone_update st');
        best_fitness := best_fitness st';
        total_fitness := total_fitness st';
        pheromone_update := pheromone_update st';
        average_fitness_list :=
          average_fitness_list st' ++ [true_div (total_fitness st') m];
        gen := gen st';
        history := history st' |}.

End Run.

(** [int(10000/m)]: the quotient truncated towards zero. *)
Definition iterations_of (m : Z) : result Z :=
  if m =? 0 then Err ZeroDivisionError else Ok (Z.quot 10000 m).

(** The variables of [main] when the outer loop starts. *)
Definition init_state (pheromones0 : matrix) (g : rng) : run_state :=
  {| pheromones := pheromones0;
     best_fitness := Infinity;
     total_fitness := 0;
     pheromone_update := [];
     average_fitness_list := [];
     gen := g;
     history := [] |}.

(** The first [k] rounds of [for x in range(iterations)]. *)
Definition run (n : Z) (d f : imatrix) (start m : Z) (e : fl) (k : Z)
  (st : run_state) : result run_state :=
  for_each (range 0 k) (iteration n d f start m e) st.

(** [main(m, e)] up to its [return]; [file] is what [read_data] found
    in the data file and [g] the state of the generators. *)
Definition main_state (file : data) (m : Z) (e : fl) (g : rng) : result run_state :=
  let n := data_n file in
  d <- np_array (data_d file) ;;
  f <- np_array (data_f file) ;;
  ' (pheromones0, g1) <- np_random_rand n g ;;
  iterations <- iterations_of m ;;
  ' (start, g2) <- np_random_randint 0 n g1 ;;
  run n d f start m e iterations (init_state pheromones0 g2).

Definition main (file : data) (m : Z) (e : fl) (g : rng)
  : result ((list fl * best) * rng) :=
  st <- main_state file m e g ;;
  Ok ((average_fitness_list st, best_fitness st), gen st).

(** What [experiments] writes and prints. *)
Record report : Type := {
  csv_header : list Z;
  csv_rows : list (list fl);
  printed_best : list best
}.

Definition experiments (file : data) (m : Z) (e : fl) (g : rng)
  : result (report * rng) :=
  ' (biglist, bestlist, g') <-
    for_each (range 0 5) (fun x '(biglist, bestlist, g) =>
      ' (res, g') <- main file m e g ;;
      Ok (biglist ++ [fst res], bestlist ++ [snd res], g'))
      ([], [], g) ;;
  first <- index biglist 0 ;;
  let numlist := arange 0 (len first) in
  Ok ({| csv_header := numlist; csv_rows := biglist; printed_best := bestlist |}, g').

End Main.

(** * Vocabulary of the specification *)

(** ** Shapes, entries and orderings *)

Definition shape {A : Type} (rows cols : Z) (M : list (list A)) : Prop :=
  len M = rows /\ Forall (fun row => len row = cols) M.

(** The entry in row [i] and column [j], for indices inside the matrix. *)
Definition entry (M : matrix) (i j : Z) : fl :=
  nth (Z.to_nat j) (nth (Z.to_nat i) M []) NaN.

Definition fl_positive (x : fl) : Prop :=
  match x with
  | Fin q => (0 < q)%Qc
  | _ => False
  end.

Definition fl_nonneg (x : fl) : Prop :=
  match x with
  | Fin q => (0 <= q)%Qc
  | _ => False
  end.

Definition unit_interval (x : fl) : Prop :=
  match x with
  | Fin q => (0 <= q /\ q < 1)%Qc
  | _ => False
  end.

Definition nonneg_matrix (p : matrix) : Prop := Forall (Forall fl_nonneg) p.
Definition positive_matrix (p : matrix) : Prop := Forall (Forall fl_positive) p.
Definition zero_matrix (p : matrix) : Prop := Forall (Forall (fun c => c = fl_zero)) p.

Ltac qc_to_q :=
  unfold Qclt, Qcle, Qcplus, Qcmult, Qcinv, Qcdiv, Qcminus, Qcopp, Q2Qc in *;
  cbn [this] in *; rewrite ?Qred_correct in *.

(** ** Paths *)

Definition is_permutation (n : Z) (path : list Z) : Prop :=
  Permutation path (arange 0 n).

(** Every weight a selection step can use: row [i] is the last node
    visited, column [j] a node not yet visited. *)
Definition positive_weights (n : Z) (M : matrix) : Prop :=
  forall i j, 0 <= i < n -> 0 <= j < n -> i <> j -> fl_positive (entry M i j).

(** A bound far inside the range of the floating-point types: a
    floating-point sum of terms up to [B], in double or in extended
    precision, never exceeds [2^65 * B] whatever the number of terms
    (beyond that a term is less than half a unit in the last place),
    so sums of weights up to [2^900] stay finite ([2^965 < 2^1024]). *)
Definition weight_bound : fl := fl_of_Z (2 ^ 900).

(** No weight that a selection step can use exceeds [weight_bound]. *)
Definition bounded_weights (n : Z) (M : matrix) : Prop :=
  forall i j, 0 <= i < n -> 0 <= j < n -> i <> j ->
    fl_leb (entry M i j) weight_bound = true.

(** The loop invariant of [generate_path] when round [i] starts. *)
Definition path_inv (n start i : Z) (st : list Z * rng) : Prop :=
  len (fst st) = i /\ NoDup (fst st) /\
  Forall (fun v => 0 <= v < n) (fst st) /\
  hd_error (fst st) = Some start.

(** ** The QAP objective *)

Definition sumZ (l : list Z) : Z := fold_right Z.add 0 l.

Definition icell (m : imatrix) (i j : Z) : Z :=
  nth (Z.to_nat j) (nth (Z.to_nat i) m []) 0.

Definition node_at (path : list Z) (i : Z) : Z := nth (Z.to_nat i) path 0.

(** The cost in the words of the specification: the sum over all
    ordered pairs [(i, j)] of [[0,N) x [0,N)] of
    [d[i][j] * f[path[i]][path[j]]], to compare with [get_fitness]. *)
Definition qap_cost (N : Z) (path : list Z) (d f : imatrix) : Z :=
  sumZ (map (fun i =>
    sumZ (map (fun j => icell d i j * icell f (node_at path i) (node_at path j))
              (range 0 N)))
    (range 0 N)).

(** All rows are of the same length: what [np.array] accepts. *)
Definition rectangular (M : imatrix) : Prop :=
  forall r1 r2, In r1 M -> In r2 M -> len r1 = len r2.

(** The values of an [int64] array. *)
Definition int64 (v : Z) : Prop := - 2 ^ 63 <= v < 2 ^ 63.

Definition int64_matrix (M : imatrix) : Prop := Forall (Forall int64) M.

(** Every path that [generate_path] can return has a positive cost. *)
Definition fitness_positive (n : Z) (d f : imatrix) : Prop :=
  forall path v, is_permutation n path -> get_fitness path d f = Ok v -> 0 < v.

(** ** Deposits *)

Definition row_sum (row : list fl) : fl := fold_right fl_add fl_zero row.

(** The sum of all the entries of a matrix. *)
Definition matrix_sum (p : matrix) : fl := fold_right fl_add fl_zero (map row_sum p).

(** The directed edges [(path[x], path[x+1])] of a path, in order. *)
Fixpoint edges (path : list Z) : list (Z * Z) :=
  match path with
  | a :: (b :: _) as rest => (a, b) :: edges rest
  | _ => []
  end.

(** How many times the directed edge [(a, b)] occurs in [path]. *)
Definition count_edge (a b : Z) (path : list Z) : nat :=
  length (filter (fun e => (fst e =? a) && (snd e =? b)) (edges path)).

(** [x + o + ... + o], with [k] summands [o]. *)
Definition add_times (k : nat) (o x : fl) : fl :=
  Nat.iter k (fun acc => fl_add acc o) x.

(** The deposit of one ant that built its path on the pheromones [M]. *)
Definition is_deposit (T : tapes) (n : Z) (d f : imatrix) (start : Z)
  (M : matrix) (delta : matrix) : Prop :=
  exists g path g' fitness,
    generate_path T n start M g = Ok (path, g') /\
    get_fitness path d f = Ok fitness /\
    update_pheromones (reciprocal fitness) path n = Ok delta.

(** ** The running best fitness *)

(** [best_fitness] after an ant of fitness [v]. *)
Definition min_best (b : best) (v : Z) : best :=
  if lt_best v b then Fitness v else b.

(** [a <= b] on best-fitness values, [Infinity] on top. *)
Definition best_le (a b : best) : Prop :=
  match a, b with
  | _, Infinity => True
  | Infinity, Fitness _ => False
  | Fitness x, Fitness y => x <= y
  end.

(** The history that the fitness values [fs] produce from [b]. *)
Fixpoint replay (b : best) (fs : list Z) : list (Z * best) :=
  match fs with
  | [] => []
  | v :: fs' => (v, min_best b v) :: replay (min_best b v) fs'
  end.

(** The only moves of [best_fitness]: kept when the ant is not
    strictly better, replaced by the ant's fitness when it is. *)
Inductive improves : best -> list (Z * best) -> Prop :=
| improves_nil b : improves b []
| improves_keep b v h :
    lt_best v b = false -> improves b h -> improves b ((v, b) :: h)
| improves_replace b v h :
    lt_best v b = true -> improves (Fitness v) h -> improves b ((v, Fitness v) :: h).

Definition history_ok (b : best) (h : list (Z * best)) : Prop :=
  h = replay Infinity (map fst h) /\ b = last (map snd h) Infinity.

(** ** Runs that cannot raise *)

Definition good (n : Z) (st : run_state) : Prop :=
  shape n n (pheromones st) /\ positive_matrix (pheromones st).

Definition good_ant (n : Z) (M : matrix) (st : run_state) : Prop :=
  pheromones st = M /\
  shape n n (pheromone_update st) /\ nonneg_matrix (pheromone_update st).

(** The data and the parameters under which no ant can fail. *)
Record well_formed (T : tapes) (file : data) (m : Z) (e : fl) : Prop := {
  wf_n : 1 <= data_n file;
  wf_d : shape (data_n file) (data_n file) (data_d file);
  wf_f : shape (data_n file) (data_n file) (data_f file);
  wf_fitness : fitness_positive (data_n file) (data_d file) (data_f file);
  wf_uniform : forall k, fl_positive (Fin (np_uniform T k));
  wf_m : 1 <= m;
  wf_e : fl_positive e
}.

(** The number of iterations in the words of the specification,
    [ceil(10000 / m)], to compare with [iterations_of]. *)
Definition ceil_iterations (m : Z) : Z := (10000 + m - 1) / m.

(** ** Sample inputs *)

Definition sample_tapes : tapes :=
  {| py_random := fun k => Q2Qc (Z.of_nat (k mod 7) # 7);
     np_uniform := fun k => Q2Qc (1 # Pos.of_nat (k + 2));
     np_integer := fun k => Z.of_nat k + 5 |}.

Definition all_ones (n : nat) : matrix := repeat (repeat fl_one n) n.
Definition all_zero (n : nat) : matrix := repeat (repeat fl_zero n) n.

(** One location: [d = f = [[1]]]. *)
Definition unit_file : data :=
  {| data_n := 1; data_d := [[1]]; data_f := [[1]] |}.

(** Two locations at distance one. *)
Definition pair_file : data :=
  {| data_n := 2; data_d := [[1; 1]; [1; 1]]; data_f := [[1; 1]; [1; 1]] |}.

(** Two locations at distance zero: every path costs [0]. *)
Definition zero_distance_file : data :=
  {| data_n := 2; data_d := [[0; 0]; [0; 0]]; data_f := [[0; 1]; [1; 0]] |}.

Definition is_pinf (x : fl) : bool :=
  match x with PInf => true | _ => false end.

Definition half : Qc := Q2Qc (1 # 2).

(** A walk that uses the edge [(0, 1)] twice. *)
Definition sample_walk : list Z := [2; 0; 1; 0; 1].

Definition or_else {A : Type} (c : result A) (dflt : A) : A :=
  match c with Ok a => a | Err _ => dflt end.

(** One iteration of three ants on [pair_file]. *)
Definition sample_state : run_state := init_state (all_ones 2) rng0.
Definition sample_iteration : result run_state :=
  iteration sample_tapes 2 (data_d pair_file) (data_f pair_file) 0 3 (Fin half) 0
    sample_state.
Definition sample_after : run_state := or_else sample_iteration sample_state.

(** [sample_state] when the first ant of an iteration starts: the
    accumulator is [np.zeros((2, 2))]. *)
Definition sample_ant_state : run_state :=
  {| pheromones := pheromones sample_state;
     best_fitness := best_fitness sample_state;
     total_fitness := 0;
     pheromone_update := all_zero 2;
     average_fitness_list := average_fitness_list sample_state;
     gen := gen sample_state;
     history := history sample_state |}.

(** The random initialisation of a run on [pair_file]. *)
Definition sample_rand : matrix * rng :=
  or_else (np_random_rand sample_tapes 2 rng0) ([], rng0).
Definition sample_randint : Z * rng :=
  or_else (np_random_randint sample_tapes 0 2 (snd sample_rand)) (0, rng0).

(** * The rest of [main.py]: reading the data, the command line *)

(** ** [read_data] *)

(** [l[lo:hi]] for constants [0 <= lo <= hi]. *)
Definition slice {A : Type} (l : list A) (lo hi : nat) : list A :=
  firstn (hi - lo) (skipn lo l).

(** [l[:n]]: a negative [n] counts from the end. *)
Definition take_upto {A : Type} (l : list A) (n : Z) : list A :=
  if n <? 0 then firstn (length l - Z.to_nat (- n)) l
  else firstn (Z.to_nat n) l.

Section ReadData.

(** [[int(x) for x in line.split() if x]] on one line of the file;
    [int] raises [ValueError] on a token that is not a number. *)
Variable parse_line : String.string -> result (list Z).

(** The loop [for line in f: data.append(...)]. *)
Definition read_rows (lines : list String.string) : result (list (list Z)) :=
  for_each lines (fun line data => row <- parse_line line ;; Ok (data ++ [row])) [].

(** [read_data(file)], [lines] being the lines of the file. *)
Definition read_data (lines : list String.string) : result data :=
  rows <- read_rows lines ;;
  first <- index rows 0 ;;
  n <- index first 0 ;;
  Ok {| data_n := n;
        data_d := take_upto (slice rows 2 52) n;
        data_f := take_upto (slice rows 53 103) n |}.

End ReadData.

(** ** The script *)

Section CommandLine.

(** [int(s)] and [float(s)] on a command-line argument. *)
Variable parse_int : String.string -> result Z.
Variable parse_float : String.string -> result fl.

(** The arguments that the [__main__] block passes to [experiments];
    [argv] is [sys.argv]. *)
Definition command_line (argv : list String.string)
  : result (String.string * Z * fl) :=
  if 1 <? len argv then
    filename <- index argv 1 ;;
    arg2 <- index argv 2 ;;
    m <- parse_int arg2 ;;
    arg3 <- index argv 3 ;;
    e <- parse_float arg3 ;;
    Ok (filename, m, e)
  else Ok ("output.csv"%str, 100, Fin (Q2Qc (1 # 2))).

End CommandLine.

(** ** Samples for the reader and the command line *)

Definition is_blank (c : Ascii.ascii) : bool :=
  let k := Ascii.nat_of_ascii c in
  ((k =? 32) || (9 <=? k) && (k <=? 13))%nat.

Definition digit_of (c : Ascii.ascii) : option Z :=
  let k := Z.of_nat (Ascii.nat_of_ascii c) in
  if (48 <=? k) && (k <=? 57) then Some (k - 48) else None.

(** [[int(x) for x in line.split() if x]] on lines of decimal digits
    and blanks; any other character is refused with [ValueError]. *)
Fixpoint sample_tokens (s : String.string) (cur : option Z) : result (list Z) :=
  match s with
  | String.EmptyString => Ok (match cur with Some v => [v] | None => [] end)
  | String.String c s' =>
    if is_blank c then
      rest <- sample_tokens s' None ;;
      Ok (match cur with Some v => v :: rest | None => rest end)
    else
      match digit_of c with
      | Some k =>
        sample_tokens s' (Some (10 * match cur with Some v => v | None => 0 end + k))
      | None => Err ValueError
      end
  end.

Definition sample_parse_line (s : String.string) : result (list Z) :=
  sample_tokens s None.

Definition sample_parse_int (s : String.string) : result Z :=
  row <- sample_parse_line s ;;
  match row with
  | [v] => Ok v
  | _ => Err ValueError
  end.

Definition sample_parse_float (s : String.string) : result fl :=
  v <- sample_parse_int s ;; Ok (fl_of_Z v).

(** A data file in the layout [read_data] expects, for two locations. *)
Definition sample_lines : list String.string :=
  "2"%str :: String.EmptyString
  :: repeat "1 1"%str 50 ++ String.EmptyString :: repeat "1 1"%str 50 ++ [].

(** ** Vocabulary for whole runs *)

(** The generators after [np.random.rand(n, n)] and one
    [np.random.randint]: what [main] draws outside its loop. *)
Definition advance_numpy (n : Z) (g : rng) : rng :=
  {| py_cursor := py_cursor g;
     np_cursor := (np_cursor g + Z.to_nat n * Z.to_nat n)%nat;
     np_int_cursor := S (np_int_cursor g) |}.

(** [b <= a] for a recorded mean [a] and a best fitness [b]. *)
Definition mean_at_least (a : fl) (b : best) : Prop :=
  match a, b with
  | Fin q, Fitness v => (Q2Qc (inject_Z v) <= q)%Qc
  | _, _ => False
  end.

(** Every mean recorded so far is at least the best fitness so far. *)
Definition means_inv (st : run_state) : Prop :=
  Forall (fun a => mean_at_least a (best_fitness st)) (average_fitness_list st).

(** [p * e * ... * e], with [k] factors [e]. *)
Definition evaporated (p e : fl) (k : nat) : fl :=
  Nat.iter k (fun x => fl_mul x e) p.

(** The cost of the only path over a single location. *)
Definition single_cost (d f : imatrix) : Z := icell d 0 0 * icell f 0 0.

(** * Properties *)


(** * Loops and ranges *)

Lemma range_nil lo hi : hi <= lo -> range lo hi = [].
Proof.
  intros H. unfold range.
  replace (Z.to_nat (hi - lo)) with O by lia. reflexivity.
Qed.

Lemma range_cons lo hi : lo < hi -> range lo hi = lo :: range (lo + 1) hi.
Proof.
  intros H. unfold range.
  replace (Z.to_nat (hi - lo)) with (S (Z.to_nat (hi - (lo + 1)))) by lia.
  cbn [seq map]. f_equal; [lia|].
  rewrite <- seq_shift, map_map.
  apply map_ext. intros k. lia.
Qed.

Lemma length_range lo hi : length (range lo hi) = Z.to_nat (hi - lo).
Proof. unfold range. now rewrite length_map, length_seq. Qed.

Lemma in_range lo hi v : In v (range lo hi) <-> lo <= v < hi.
Proof.
  unfold range. rewrite in_map_iff. split.
  - intros (k & <- & Hk). apply in_seq in Hk. lia.
  - intros H. exists (Z.to_nat (v - lo)). split; [lia|].
    apply in_seq. lia.
Qed.

Lemma NoDup_range lo hi : NoDup (range lo hi).
Proof.
  unfold range. apply Finite.Injective_map_NoDup.
  - intros a b. lia.
  - apply seq_NoDup.
Qed.

Lemma range_snoc lo hi : lo <= hi -> range lo (hi + 1) = range lo hi ++ [hi].
Proof.
  intros H. unfold range.
  replace (Z.to_nat (hi + 1 - lo)) with (Z.to_nat (hi - lo) + 1)%nat by lia.
  rewrite seq_app, map_app. cbn. do 2 f_equal. lia.
Qed.

Lemma for_each_app {X S} (xs ys : list X) (body : X -> S -> result S) st :
  for_each (xs ++ ys) body st = (st' <- for_each xs body st ;; for_each ys body st').
Proof.
  revert st. induction xs as [|x xs IH]; intros st; cbn; [reflexivity|].
  destruct (body x st); cbn; auto.
Qed.

(** Total correctness of a counted loop from an indexed invariant. *)
Lemma for_range_total {S} (P : Z -> S -> Prop) (body : Z -> S -> result S) hi :
  (forall i s, i < hi -> P i s -> exists s', body i s = Ok s' /\ P (i + 1) s') ->
  forall lo st, lo <= hi -> P lo st ->
  exists st', for_each (range lo hi) body st = Ok st' /\ P hi st'.
Proof.
  intros Hstep lo st Hle.
  remember (Z.to_nat (hi - lo)) as k eqn:Hk.
  revert lo st Hle Hk. induction k as [|k IH]; intros lo st Hle Hk HP.
  - assert (lo = hi) by lia. subst lo.
    rewrite range_nil by lia. exists st. now split.
  - rewrite range_cons by lia. cbn.
    destruct (Hstep lo st ltac:(lia) HP) as (s' & -> & HP'). cbn.
    apply IH; [lia|lia|exact HP'].
Qed.

(** Partial correctness: what holds of the state if the loop returns. *)
Lemma for_range_partial {S} (P : Z -> S -> Prop) (body : Z -> S -> result S) hi :
  (forall i s s', i < hi -> P i s -> body i s = Ok s' -> P (i + 1) s') ->
  forall lo st st', lo <= hi -> P lo st ->
  for_each (range lo hi) body st = Ok st' -> P hi st'.
Proof.
  intros Hstep lo st st' Hle.
  remember (Z.to_nat (hi - lo)) as k eqn:Hk.
  revert lo st Hle Hk. induction k as [|k IH]; intros lo st Hle Hk HP.
  - assert (lo = hi) by lia. subst lo.
    rewrite range_nil by lia. cbn. now intros [= <-].
  - rewrite range_cons by lia. cbn.
    destruct (body lo st) as [s1|] eqn:Hb; cbn; [|discriminate].
    apply IH; [lia|lia|]. eapply Hstep; eauto. lia.
Qed.

Lemma for_each_invariant {X S} (P : S -> Prop) (body : X -> S -> result S) xs :
  (forall x s s', In x xs -> P s -> body x s = Ok s' -> P s') ->
  forall st st', P st -> for_each xs body st = Ok st' -> P st'.
Proof.
  induction xs as [|x xs IH]; intros Hstep st st' HP; cbn.
  - now intros [= <-].
  - destruct (body x st) as [s1|] eqn:Hb; cbn; [|discriminate].
    apply IH.
    + intros y s s' Hy. apply Hstep. now right.
    + eapply Hstep; eauto. now left.
Qed.

(** * Indexing *)

Lemma valid_index_iff N k : valid_index N k = true <-> - N <= k < N.
Proof. unfold valid_index. lia. Qed.

Lemma valid_index_false N k : valid_index N k = false <-> k < - N \/ N <= k.
Proof. unfold valid_index. lia. Qed.

Lemma norm_index_nonneg N k : 0 <= k -> norm_index N k = k.
Proof. unfold norm_index. intros H. destruct (Z.ltb_spec k 0); lia. Qed.

Lemma norm_index_range N k : - N <= k < N -> 0 <= norm_index N k < N.
Proof. unfold norm_index. intros H. destruct (Z.ltb_spec k 0); lia. Qed.

Lemma index_nonneg {A} (l : list A) k dflt :
  0 <= k < len l -> index l k = Ok (nth (Z.to_nat k) l dflt).
Proof.
  intros H. unfold index.
  rewrite (proj2 (valid_index_iff _ _)) by lia.
  rewrite norm_index_nonneg by lia.
  unfold len in H.
  rewrite (nth_error_nth' l dflt) by lia. reflexivity.
Qed.

Lemma index_In {A} (l : list A) k a : index l k = Ok a -> In a l.
Proof.
  unfold index. destruct (valid_index _ _); [|discriminate].
  destruct (nth_error _ _) eqn:E; [|discriminate].
  intros [= <-]. eapply nth_error_In; eauto.
Qed.

Lemma index_valid {A} (l : list A) k a : index l k = Ok a -> - len l <= k < len l.
Proof.
  unfold index. destruct (valid_index _ _) eqn:E; [|discriminate].
  intros _. now apply valid_index_iff.
Qed.

Lemma index_last {A} (l : list A) a : index (l ++ [a]) (-1) = Ok a.
Proof.
  unfold index, len. rewrite length_app. cbn [length].
  rewrite (proj2 (valid_index_iff _ _)) by lia.
  unfold norm_index. cbn [Z.ltb Z.compare].
  replace (Z.to_nat (-1 + Z.of_nat (length l + 1))) with (length l) by lia.
  rewrite nth_error_app2 by lia. now rewrite Nat.sub_diag.
Qed.

Lemma index_out_of_range {A} (l : list A) k :
  k < - len l \/ len l <= k -> index l k = Err IndexError.
Proof.
  intros H. unfold index.
  now rewrite (proj2 (valid_index_false _ _)) by lia.
Qed.

Lemma index_total {A} (l : list A) k :
  - len l <= k < len l -> exists a, index l k = Ok a.
Proof.
  intros H. unfold index.
  rewrite (proj2 (valid_index_iff _ _)) by lia.
  pose proof (norm_index_range _ _ H) as Hn.
  destruct (nth_error l _) eqn:E; [eauto|].
  apply nth_error_None in E. unfold len in *. lia.
Qed.


(** * Deleting by index *)

Lemma mem_true_iff k l : mem k l = true <-> In k l.
Proof.
  unfold mem. rewrite existsb_exists. split.
  - intros (x & Hx & E). apply Z.eqb_eq in E. now subst.
  - intros H. exists k. split; [exact H|apply Z.eqb_refl].
Qed.

Lemma mem_false_iff k l : mem k l = false <-> ~ In k l.
Proof.
  rewrite <- mem_true_iff. destruct (mem k l); split; congruence.
Qed.

Lemma keep_from_length_eq {A B} (a1 : list A) (a2 : list B) dead :
  length a1 = length a2 ->
  forall pos, length (keep_from pos a1 dead) = length (keep_from pos a2 dead).
Proof.
  revert a2. induction a1 as [|x a1 IH]; intros [|y a2] Hl pos;
    cbn in *; try discriminate; [reflexivity|].
  injection Hl as Hl.
  destruct (mem pos dead); cbn; auto.
Qed.

Lemma keep_from_range_In dead v hi :
  forall pos, In v (keep_from pos (range pos hi) dead)
              <-> pos <= v < hi /\ ~ In v dead.
Proof.
  intros pos. remember (Z.to_nat (hi - pos)) as k eqn:Hk.
  revert pos Hk. induction k as [|k IH]; intros pos Hk.
  - rewrite range_nil by lia. cbn. lia.
  - rewrite range_cons by lia. cbn [keep_from].
    specialize (IH (pos + 1) ltac:(lia)).
    destruct (mem pos dead) eqn:E.
    + apply mem_true_iff in E. rewrite IH. split.
      * intros [H1 H2]. split; [lia|exact H2].
      * intros [H1 H2]. split; [|exact H2].
        destruct (Z.eq_dec v pos); [subst; contradiction|lia].
    + apply mem_false_iff in E. cbn [In]. rewrite IH. split.
      * intros [<-|[H1 H2]]; split; auto; lia.
      * intros [H1 H2].
        destruct (Z.eq_dec pos v); [now left|right; split; [lia|exact H2]].
Qed.

Lemma keep_from_Forall {A} (P : A -> Prop) dflt dead (arr : list A) :
  forall pos,
  (forall k, (k < length arr)%nat -> ~ In (pos + Z.of_nat k) dead ->
             P (nth k arr dflt)) ->
  Forall P (keep_from pos arr dead).
Proof.
  induction arr as [|a arr IH]; intros pos H; cbn; [constructor|].
  assert (Htl : Forall P (keep_from (pos + 1) arr dead)).
  { apply IH. intros k Hk Hd. apply (H (S k)); [cbn; lia|].
    replace (pos + Z.of_nat (S k)) with (pos + 1 + Z.of_nat k) by lia.
    exact Hd. }
  destruct (mem pos dead) eqn:E; [exact Htl|].
  constructor; [|exact Htl].
  apply (H O); [cbn; lia|].
  apply mem_false_iff in E. now rewrite Z.add_0_r.
Qed.

Lemma np_delete_nonneg {A} (arr : list A) (obj : list Z) :
  Forall (fun v => 0 <= v < len arr) obj ->
  np_delete arr obj = Ok (keep_from 0 arr obj).
Proof.
  intros H. unfold np_delete.
  assert (E1 : forallb (valid_index (len arr)) obj = true).
  { apply forallb_forall. intros v Hv.
    rewrite Forall_forall in H. apply valid_index_iff. specialize (H v Hv). lia. }
  rewrite E1. do 2 f_equal.
  rewrite <- (map_id obj) at 2. apply map_ext_in.
  intros v Hv. rewrite Forall_forall in H.
  apply norm_index_nonneg. specialize (H v Hv). lia.
Qed.

Lemma np_delete_invalid {A} (arr : list A) (obj : list Z) v :
  In v obj -> v < - len arr \/ len arr <= v ->
  np_delete arr obj = Err IndexError.
Proof.
  intros Hin Hv. unfold np_delete.
  destruct (forallb _ obj) eqn:E; [|reflexivity].
  rewrite forallb_forall in E. specialize (E v Hin).
  apply valid_index_iff in E. lia.
Qed.

Lemma len_arange n : 0 <= n -> len (arange 0 n) = n.
Proof. intros H. unfold len, arange. rewrite length_range. lia. Qed.

(** * Weighted choice *)

Lemma Qc_add_pos (a b : Qc) : (0 < a -> 0 < b -> 0 < a + b)%Qc.
Proof. qc_to_q. lra. Qed.

Lemma Qc_add_nonneg (a b : Qc) : (0 <= a -> 0 <= b -> 0 <= a + b)%Qc.
Proof. qc_to_q. lra. Qed.

Lemma Qc_mul_nonneg (a b : Qc) : (0 <= a -> 0 <= b -> 0 <= a * b)%Qc.
Proof. qc_to_q. intros. apply Qmult_le_0_compat; assumption. Qed.

Lemma Qc_mul_pos (a b : Qc) : (0 < a -> 0 < b -> 0 < a * b)%Qc.
Proof. qc_to_q. intros. apply Qmult_lt_0_compat; assumption. Qed.

Lemma fl_add_positive x y : fl_positive x -> fl_positive y -> fl_positive (fl_add x y).
Proof.
  destruct x, y; cbn; try contradiction. apply Qc_add_pos.
Qed.

Lemma fl_add_nonneg x y : fl_nonneg x -> fl_nonneg y -> fl_nonneg (fl_add x y).
Proof.
  destruct x, y; cbn; try contradiction. apply Qc_add_nonneg.
Qed.

Lemma fl_positive_nonneg x : fl_positive x -> fl_nonneg x.
Proof. destruct x; cbn; auto. apply Qclt_le_weak. Qed.

Lemma length_accumulate_from acc ws : length (accumulate_from acc ws) = length ws.
Proof. revert acc. induction ws; intros; cbn; auto. Qed.

Lemma length_accumulate ws : length (accumulate ws) = length ws.
Proof. destruct ws; cbn; [reflexivity|]. now rewrite length_accumulate_from. Qed.

Lemma accumulate_from_positive acc ws :
  fl_positive acc -> Forall fl_positive ws ->
  Forall fl_positive (accumulate_from acc ws).
Proof.
  revert acc. induction ws as [|w ws IH]; intros acc Ha Hw; cbn; [constructor|].
  inversion Hw; subst.
  assert (fl_positive (fl_add acc w)) by now apply fl_add_positive.
  constructor; auto.
Qed.

Lemma accumulate_positive ws :
  Forall fl_positive ws -> Forall fl_positive (accumulate ws).
Proof.
  destruct ws as [|w ws]; cbn; [constructor|].
  intros H. inversion H; subst. constructor; [assumption|].
  now apply accumulate_from_positive.
Qed.

Lemma bisect_loop_range fuel a x :
  forall lo hi, (lo <= hi)%nat ->
  (lo <= bisect_loop fuel a x lo hi <= hi)%nat.
Proof.
  induction fuel as [|fuel IH]; intros lo hi Hle; cbn [bisect_loop]; [lia|].
  destruct (Nat.ltb_spec lo hi); [|lia].
  assert (Hmid : (lo <= (lo + hi) / 2 < hi)%nat).
  { pose proof (Nat.div_mod_eq (lo + hi) 2) as Hdm.
    pose proof (Nat.mod_upper_bound (lo + hi) 2 ltac:(lia)). lia. }
  destruct (fl_ltb x _).
  - specialize (IH lo ((lo + hi) / 2)%nat). lia.
  - specialize (IH (S ((lo + hi) / 2)) hi). lia.
Qed.

Lemma random_choices_In population weights r c :
  random_choices population weights r = Ok c -> In c population.
Proof.
  unfold random_choices.
  destruct (negb _); [discriminate|].
  destruct (index (accumulate weights) (-1)); cbn; [|discriminate].
  destruct (fl_leb _ _); [discriminate|].
  destruct (negb _); [discriminate|].
  apply index_In.
Qed.

Lemma fl_positive_total x :
  fl_positive x ->
  fl_leb (fl_add x fl_zero) fl_zero = false /\ fl_isfinite (fl_add x fl_zero) = true.
Proof.
  destruct x as [q| | |]; cbn; try contradiction.
  intros Hq. split; [|reflexivity].
  assert (H : (q + Q2Qc 0 > Q2Qc 0)%Qc).
  { rewrite Qcplus_0_r. exact Hq. }
  apply Qcgt_alt in H. now rewrite H.
Qed.

Lemma random_choices_total population weights r :
  length weights = length population ->
  population <> [] ->
  Forall fl_positive weights ->
  exists c, random_choices population weights r = Ok c /\ In c population.
Proof.
  intros Hlen Hne Hpos. unfold random_choices.
  rewrite length_accumulate, Hlen, Nat.eqb_refl. cbn [negb].
  assert (Hacc := accumulate_positive _ Hpos).
  assert (Hlen' : length (accumulate weights) = length population)
    by now rewrite length_accumulate.
  destruct (index_total (accumulate weights) (-1)) as [t Ht].
  { unfold len. rewrite Hlen'. destruct population; [congruence|cbn; lia]. }
  rewrite Ht. cbn [bind].
  assert (Htpos : fl_positive t).
  { rewrite Forall_forall in Hacc. apply Hacc. eapply index_In; eauto. }
  destruct (fl_positive_total t Htpos) as [-> ->]. cbn [negb].
  set (idx := bisect _ _ _ _).
  assert (Hidx : (idx <= length population - 1)%nat).
  { unfold idx, bisect.
    pose proof (bisect_loop_range (S (length population - 1 - 0))
                  (accumulate weights) (fl_mul r (fl_add t fl_zero))
                  0 (length population - 1) ltac:(lia)). lia. }
  destruct (index_total population (Z.of_nat idx)) as [c Hc].
  { unfold len. destruct population; [congruence|cbn in *; lia]. }
  exists c. split; [exact Hc|]. eapply index_In; eauto.
Qed.


(** * Shapes and entries *)

Lemma shape_row {A} rows cols (M : list (list A)) i :
  shape rows cols M -> 0 <= i < rows ->
  index M i = Ok (nth (Z.to_nat i) M []) /\ len (nth (Z.to_nat i) M []) = cols.
Proof.
  intros [Hr Hc] Hi. split.
  - apply index_nonneg. lia.
  - rewrite Forall_forall in Hc. apply Hc. apply nth_In. unfold len in Hr. lia.
Qed.

Lemma NoDup_snoc {A} (l : list A) a : NoDup l -> ~ In a l -> NoDup (l ++ [a]).
Proof.
  intros Hl Ha. apply (Permutation_NoDup (Permutation_cons_append l a)).
  now constructor.
Qed.

Lemma NoDup_range_permutation n path :
  NoDup path -> len path = n -> Forall (fun v => 0 <= v < n) path ->
  Permutation path (arange 0 n).
Proof.
  intros Hnd Hlen Hr. apply NoDup_Permutation_bis; [exact Hnd| |].
  - unfold arange. rewrite length_range. unfold len in Hlen. lia.
  - intros v Hv. apply in_range. rewrite Forall_forall in Hr. now apply Hr.
Qed.

(** * [generate_path] builds a permutation *)

Section GeneratePathCorrect.

Variables (T : tapes) (n start : Z) (M : matrix).

Lemma candidates_exist path :
  Forall (fun v => 0 <= v < n) path -> len path < n ->
  keep_from 0 (arange 0 n) path <> [].
Proof.
  intros Hr Hlen Hnil.
  assert (Hincl : incl (range 0 n) path).
  { intros v Hv. destruct (in_dec Z.eq_dec v path) as [|Hout]; [assumption|].
    exfalso. apply in_range in Hv.
    assert (Hin : In v (keep_from 0 (arange 0 n) path))
      by (apply keep_from_range_In; split; assumption).
    rewrite Hnil in Hin. exact Hin. }
  apply (NoDup_incl_length (NoDup_range 0 n)) in Hincl.
  rewrite length_range in Hincl. unfold len in Hlen. lia.
Qed.

Lemma path_inv_snoc i path g g' c :
  path_inv n start i (path, g) -> 0 < i ->
  In c (keep_from 0 (arange 0 n) path) ->
  path_inv n start (i + 1) (path ++ [c], g').
Proof.
  intros (Hlen & Hnd & Hr & Hhd) Hi Hc. cbn [fst] in *.
  apply keep_from_range_In in Hc. destruct Hc as [Hc1 Hc2].
  repeat split; cbn [fst].
  - unfold len in *. rewrite length_app. cbn. lia.
  - now apply NoDup_snoc.
  - apply Forall_app. split; [exact Hr|]. constructor; [lia|constructor].
  - destruct path; [cbn in Hlen; unfold len in Hlen; cbn in Hlen; lia|exact Hhd].
Qed.

(** Partial correctness of one round: whatever the weights are. *)
Lemma generate_path_step_inv i st st' :
  0 < i -> path_inv n start i st ->
  generate_path_step T n M (arange 0 n) i st = Ok st' ->
  path_inv n start (i + 1) st'.
Proof.
  intros Hi Hinv. destruct st as [path g].
  pose proof Hinv as (Hlen & Hnd & Hr & Hhd). cbn [fst] in *.
  unfold generate_path_step.
  destruct (Z.le_gt_cases n 0) as [Hn|Hn].
  { (* no node at all: the first element of the path contradicts the range *)
    destruct path as [|v path]; [discriminate|].
    inversion Hr; subst. lia. }
  rewrite np_delete_nonneg by (rewrite len_arange by lia; exact Hr).
  cbn [bind].
  destruct (i =? n - 1).
  - destruct (index _ 0) as [c|] eqn:Hc; cbn [bind]; [|discriminate].
    intros [= <-]. eapply path_inv_snoc; eauto. eapply index_In; eauto.
  - destruct (index path (-1)) as [last_node|]; cbn [bind]; [|discriminate].
    destruct (index M last_node) as [row|]; cbn [bind]; [|discriminate].
    destruct (np_delete row path) as [ws|]; cbn [bind]; [|discriminate].
    unfold next_random.
    destruct (random_choices _ ws _) as [c|] eqn:Hc; cbn [bind]; [|discriminate].
    intros [= <-]. eapply path_inv_snoc; eauto. eapply random_choices_In; eauto.
Qed.

Hypothesis Hshape : shape n n M.
Hypothesis Hpos : positive_weights n M.

(** With positive weights no round raises. *)
Lemma generate_path_step_ok i st :
  0 < i < n -> path_inv n start i st ->
  exists st', generate_path_step T n M (arange 0 n) i st = Ok st'.
Proof.
  intros Hi Hinv. destruct st as [path g].
  pose proof Hinv as (Hlen & Hnd & Hr & Hhd). cbn [fst] in *.
  unfold generate_path_step.
  rewrite np_delete_nonneg by (rewrite len_arange by lia; exact Hr).
  cbn [bind].
  pose proof (candidates_exist path Hr ltac:(lia)) as Hne.
  destruct (i =? n - 1).
  - destruct (index_total (keep_from 0 (arange 0 n) path) 0) as [c Hc].
    { unfold len. destruct (keep_from 0 (arange 0 n) path); [congruence|cbn; lia]. }
    rewrite Hc. cbn. eauto.
  - destruct (index_total path (-1)) as [last_node Hl]; [lia|].
    rewrite Hl. cbn [bind].
    assert (Hlin : In last_node path) by (eapply index_In; eauto).
    assert (Hlr : 0 <= last_node < n)
      by (rewrite Forall_forall in Hr; now apply Hr).
    destruct (shape_row n n M last_node Hshape Hlr) as [-> Hrow].
    cbn [bind].
    rewrite np_delete_nonneg by (rewrite Hrow; exact Hr).
    cbn [bind next_random].
    destruct (random_choices_total (keep_from 0 (arange 0 n) path)
                (keep_from 0 (nth (Z.to_nat last_node) M []) path)
                (Fin (py_random T (py_cursor g)))) as (c & Hc & _).
    + apply keep_from_length_eq. unfold arange. rewrite length_range.
      unfold len in Hrow. lia.
    + exact Hne.
    + apply keep_from_Forall with (dflt := NaN). intros k Hk Hout.
      rewrite Z.add_0_l in Hout.
      assert (Hk' : last_node <> Z.of_nat k) by (intros ->; contradiction).
      specialize (Hpos last_node (Z.of_nat k) Hlr).
      unfold entry in Hpos. rewrite Nat2Z.id in Hpos.
      apply Hpos; [unfold len in Hrow; lia|exact Hk'].
    + rewrite Hc. cbn. eauto.
Qed.

End GeneratePathCorrect.

Lemma generate_path_inv T n start M g path g' :
  1 <= n -> 0 <= start < n ->
  generate_path T n start M g = Ok (path, g') ->
  path_inv n start n (path, g').
Proof.
  intros Hn Hs. unfold generate_path.
  apply (for_range_partial (path_inv n start)); [| lia |].
  - intros i s s' Hi Hinv. apply generate_path_step_inv; [|exact Hinv].
    destruct Hinv as (Hlen & _ & _ & Hhd). destruct (fst s); [discriminate|].
    unfold len in Hlen. cbn in Hlen. lia.
  - repeat split; cbn.
    + constructor; [intros []|constructor].
    + constructor; [lia|constructor].
Qed.

Lemma generate_path_total T n start M g :
  1 <= n -> 0 <= start < n -> shape n n M -> positive_weights n M ->
  exists path g', generate_path T n start M g = Ok (path, g') /\
                  path_inv n start n (path, g').
Proof.
  intros Hn Hs Hshape Hpos. unfold generate_path.
  destruct (for_range_total (fun i st => 0 < i /\ path_inv n start i st)
              (generate_path_step T n M (arange 0 n)) n) with (lo := 1) (st := ([start], g))
    as ([path g'] & Hrun & _ & Hinv).
  - intros i s Hlt [Hi Hinv].
    destruct (generate_path_step_ok T n start M Hshape Hpos i s ltac:(lia) Hinv)
      as [s' Hs'].
    exists s'. split; [exact Hs'|]. split; [lia|].
    eapply generate_path_step_inv; eauto.
  - lia.
  - split; [lia|]. repeat split; cbn.
    + constructor; [intros []|constructor].
    + constructor; [lia|constructor].
  - exists path, g'. split; assumption.
Qed.


Lemma range_split mid hi :
  forall lo, lo <= mid <= hi -> range lo hi = range lo mid ++ range mid hi.
Proof.
  intros lo. remember (Z.to_nat (mid - lo)) as k eqn:Hk.
  revert lo Hk. induction k as [|k IH]; intros lo Hk H.
  - assert (lo = mid) by lia. subst. now rewrite (range_nil mid mid) by lia.
  - rewrite (range_cons lo hi), (range_cons lo mid) by lia.
    cbn. f_equal. apply IH; lia.
Qed.

(** * Deleting the visited nodes: what remains *)

Lemma keep_from_In {A} (arr : list A) dead x :
  forall pos, In x (keep_from pos arr dead) -> In x arr.
Proof.
  induction arr as [|a arr IH]; intros pos; cbn; [tauto|].
  destruct (mem pos dead); cbn; intros H.
  - right. eapply IH; eauto.
  - destruct H; [now left|right; eapply IH; eauto].
Qed.

Lemma keep_from_NoDup {A} (arr : list A) dead :
  NoDup arr -> forall pos, NoDup (keep_from pos arr dead).
Proof.
  induction 1 as [|a arr Ha Hnd IH]; intros pos; cbn; [constructor|].
  destruct (mem pos dead); [apply IH|].
  constructor; [|apply IH].
  intros Hin. apply Ha. eapply keep_from_In; eauto.
Qed.

(** The candidates are the [n - len path] nodes not yet visited. *)
Lemma candidates_count n path :
  0 <= n -> NoDup path -> Forall (fun v => 0 <= v < n) path ->
  len (keep_from 0 (arange 0 n) path) = n - len path.
Proof.
  intros Hn Hnd Hr.
  assert (Hperm : Permutation (keep_from 0 (arange 0 n) path ++ path) (range 0 n)).
  { apply NoDup_Permutation.
    - apply NoDup_app.
      + apply keep_from_NoDup, NoDup_range.
      + exact Hnd.
      + intros v Hv Hp. apply keep_from_range_In in Hv. tauto.
    - apply NoDup_range.
    - intros v. rewrite in_app_iff, keep_from_range_In, in_range.
      rewrite Forall_forall in Hr. split.
      + intros [[H _]|H]; [exact H|now apply Hr].
      + intros H. destruct (in_dec Z.eq_dec v path); [now right|now left]. }
  apply Permutation_length in Hperm.
  rewrite length_app, length_range in Hperm.
  unfold len. lia.
Qed.

(** * Start nodes that are never checked *)

Lemma generate_path_small T n start M g :
  n <= 1 -> generate_path T n start M g = Ok ([start], g).
Proof.
  intros H. unfold generate_path. now rewrite range_nil by lia.
Qed.

Lemma generate_path_bad_start T n start M g :
  2 <= n -> start < - n \/ n <= start ->
  generate_path T n start M g = Err IndexError.
Proof.
  intros Hn Hs. unfold generate_path.
  rewrite range_cons by lia. cbn [for_each generate_path_step].
  rewrite (np_delete_invalid (arange 0 n) [start] start).
  - reflexivity.
  - now left.
  - rewrite len_arange by lia. exact Hs.
Qed.

(** * All candidate weights zero *)

Lemma accumulate_from_zero ws :
  Forall (fun w => w = fl_zero) ws ->
  Forall (fun w => w = fl_zero) (accumulate_from fl_zero ws).
Proof.
  induction 1 as [|w ws Hw Hws IH]; cbn; [constructor|].
  subst w. replace (fl_add fl_zero fl_zero) with fl_zero.
  - constructor; [reflexivity|exact IH].
  - unfold fl_zero. cbn. now rewrite Qcplus_0_r.
Qed.

Lemma accumulate_zero ws :
  Forall (fun w => w = fl_zero) ws ->
  Forall (fun w => w = fl_zero) (accumulate ws).
Proof.
  destruct ws as [|w ws]; cbn; [constructor|].
  intros H. inversion H; subst. constructor; [reflexivity|].
  now apply accumulate_from_zero.
Qed.

Lemma random_choices_zero population weights r :
  population <> [] ->
  Forall (fun w => w = fl_zero) weights ->
  random_choices population weights r = Err ValueError.
Proof.
  intros Hne Hz. unfold random_choices.
  destruct (negb _) eqn:Hlen; [reflexivity|].
  apply negb_false_iff, Nat.eqb_eq in Hlen.
  destruct (index_total (accumulate weights) (-1)) as [t Ht].
  { unfold len. rewrite Hlen. destruct population; [congruence|cbn; lia]. }
  rewrite Ht. cbn [bind].
  assert (t = fl_zero) as ->.
  { pose proof (accumulate_zero _ Hz) as Hacc.
    rewrite Forall_forall in Hacc. apply Hacc. eapply index_In; eauto. }
  reflexivity.
Qed.

Lemma index_minus_one {A} (l : list A) dflt :
  l <> [] -> index l (-1) = Ok (last l dflt).
Proof.
  intros H. rewrite (app_removelast_last dflt H) at 1. apply index_last.
Qed.

Lemma generate_path_prefix_inv T n start M g i path g1 :
  0 <= start < n -> 1 <= i ->
  for_each (range 1 i) (generate_path_step T n M (arange 0 n)) ([start], g)
    = Ok (path, g1) ->
  path_inv n start i (path, g1).
Proof.
  intros Hs Hi Hrun.
  apply (for_range_partial (fun k st => 0 < k /\ path_inv n start k st)
           (generate_path_step T n M (arange 0 n)) i) in Hrun; [tauto| |lia|].
  - intros k s s' _ [Hk Hinv] Hstep. split; [lia|].
    eapply generate_path_step_inv; eauto.
  - split; [lia|]. repeat split; cbn.
    + constructor; [intros []|constructor].
    + constructor; [lia|constructor].
Qed.

Lemma generate_path_step_zero T n start M i path g1 :
  shape n n M -> 1 <= i < n - 1 ->
  path_inv n start i (path, g1) ->
  (forall c, 0 <= c < n -> ~ In c path -> entry M (last path 0) c = fl_zero) ->
  generate_path_step T n M (arange 0 n) i (path, g1) = Err ValueError.
Proof.
  intros Hshape Hi (Hlen & Hnd & Hr & Hhd) Hzero. cbn [fst] in *.
  unfold generate_path_step.
  rewrite np_delete_nonneg by (rewrite len_arange by lia; exact Hr).
  cbn [bind].
  replace (i =? n - 1) with false by lia.
  assert (Hne : path <> []) by (intros ->; discriminate).
  rewrite (index_minus_one path 0 Hne). cbn [bind].
  assert (Hlr : 0 <= last path 0 < n).
  { rewrite Forall_forall in Hr. apply Hr.
    rewrite (app_removelast_last 0 Hne) at 2. apply in_or_app. right. now left. }
  destruct (shape_row n n M _ Hshape Hlr) as [-> Hrow]. cbn [bind].
  rewrite np_delete_nonneg by (rewrite Hrow; exact Hr).
  cbn [bind next_random].
  rewrite random_choices_zero; [reflexivity| |].
  - apply candidates_exist; [exact Hr|lia].
  - apply keep_from_Forall with (dflt := NaN). intros k Hk Hout.
    rewrite Z.add_0_l in Hout.
    specialize (Hzero (Z.of_nat k)). unfold entry in Hzero.
    rewrite Nat2Z.id in Hzero. apply Hzero; [unfold len in Hrow; lia|exact Hout].
Qed.


(** * The QAP objective *)

Lemma for_each_sum {X} (xs : list X) (body : X -> Z -> result Z) (term : X -> Z) :
  (forall x acc, In x xs -> body x acc = Ok (acc + term x)) ->
  forall acc, for_each xs body acc = Ok (acc + sumZ (map term xs)).
Proof.
  induction xs as [|x xs IH]; intros Hbody acc; cbn [for_each map].
  - cbn. f_equal. lia.
  - rewrite Hbody by now left. cbn [bind].
    rewrite IH by (intros; apply Hbody; now right).
    unfold sumZ. cbn [fold_right]. f_equal. lia.
Qed.

Lemma wrap64_range z : - 2 ^ 63 <= wrap64 z < 2 ^ 63.
Proof.
  unfold wrap64. pose proof (Z.mod_pos_bound (z + 2 ^ 63) (2 ^ 64) ltac:(lia)).
  change (2 ^ 64) with (2 * 2 ^ 63) in *. lia.
Qed.

Lemma wrap64_small z : - 2 ^ 63 <= z < 2 ^ 63 -> wrap64 z = z.
Proof.
  intros H. unfold wrap64. rewrite Z.mod_small; [lia|].
  change (2 ^ 64) with (2 * 2 ^ 63). lia.
Qed.

Lemma wrap64_idem z : wrap64 (wrap64 z) = wrap64 z.
Proof. apply wrap64_small, wrap64_range. Qed.

Lemma wrap64_add_l a b : wrap64 (wrap64 a + b) = wrap64 (a + b).
Proof.
  unfold wrap64. f_equal.
  replace ((a + 2 ^ 63) mod 2 ^ 64 - 2 ^ 63 + b + 2 ^ 63)
    with ((a + 2 ^ 63) mod 2 ^ 64 + b) by lia.
  rewrite Zplus_mod_idemp_l. f_equal. lia.
Qed.

Lemma wrap64_add_r a b : wrap64 (a + wrap64 b) = wrap64 (a + b).
Proof. rewrite Z.add_comm, wrap64_add_l. f_equal. lia. Qed.

(** A loop that adds [int64] terms to an [int64] accumulator. *)
Lemma for_each_wrap_sum {X} (xs : list X) (body : X -> Z -> result Z) (term : X -> Z) :
  (forall x acc, In x xs -> wrap64 acc = acc ->
     body x acc = Ok (wrap64 (acc + term x))) ->
  forall acc, wrap64 acc = acc ->
  for_each xs body acc = Ok (wrap64 (acc + sumZ (map term xs))).
Proof.
  induction xs as [|x xs IH]; intros Hbody acc Hacc; cbn [for_each map].
  - unfold sumZ. cbn [fold_right]. rewrite Z.add_0_r, Hacc. reflexivity.
  - rewrite Hbody by (auto; now left). cbn [bind].
    rewrite IH; [|intros; apply Hbody; auto; now right|apply wrap64_idem].
    rewrite wrap64_add_l. unfold sumZ. cbn [fold_right]. do 2 f_equal. lia.
Qed.

Lemma np_array_inv M M' : np_array M = Ok M' -> M' = M /\ rectangular M.
Proof.
  unfold np_array. destruct M as [|first rest]; [intros [= <-]; split; [auto|intros ? ? []]|].
  destruct (forallb _ rest) eqn:Hall; [|discriminate].
  intros [= <-]. split; [reflexivity|].
  rewrite forallb_forall in Hall.
  assert (H : forall r, In r (first :: rest) -> len r = len first).
  { intros r [<-|Hr]; [reflexivity|]. apply Hall in Hr. lia. }
  intros r1 r2 H1 H2. rewrite (H r1 H1), (H r2 H2). reflexivity.
Qed.

Lemma np_array_rectangular M : rectangular M -> np_array M = Ok M.
Proof.
  intros H. unfold np_array. destruct M as [|first rest]; [reflexivity|].
  replace (forallb _ rest) with true; [reflexivity|].
  symmetry. apply forallb_forall. intros r Hr.
  apply Z.eqb_eq, H; [now right|now left].
Qed.

Lemma np_array_ragged M : ~ rectangular M -> np_array M = Err ValueError.
Proof.
  intros H. unfold np_array. destruct M as [|first rest]; [destruct H; intros ? ? []|].
  destruct (forallb _ rest) eqn:Hall; [|reflexivity].
  destruct H. apply (proj2 (np_array_inv (first :: rest) (first :: rest)
                              ltac:(unfold np_array; now rewrite Hall))).
Qed.

Lemma shape_rectangular rows cols (M : imatrix) : shape rows cols M -> rectangular M.
Proof.
  intros [_ H] r1 r2 H1 H2. rewrite Forall_forall in H.
  rewrite (H r1 H1), (H r2 H2). reflexivity.
Qed.

Lemma shape_cell rows cols (m : imatrix) i j :
  shape rows cols m -> 0 <= i < rows -> 0 <= j < cols ->
  exists row, index m i = Ok row /\ index row j = Ok (icell m i j).
Proof.
  intros Hs Hi Hj. destruct (shape_row _ _ _ _ Hs Hi) as [Hrow Hlen].
  eexists. split; [exact Hrow|].
  unfold icell. apply index_nonneg. lia.
Qed.

Lemma path_node_at N path i :
  Forall (fun v => 0 <= v < N) path -> 0 <= i < len path ->
  index path i = Ok (node_at path i) /\ 0 <= node_at path i < N.
Proof.
  intros Hr Hi. split.
  - apply index_nonneg. exact Hi.
  - rewrite Forall_forall in Hr. apply Hr. unfold node_at.
    apply nth_In. unfold len in Hi. lia.
Qed.

Lemma get_fitness_in_range N path d f :
  len path = N -> Forall (fun v => 0 <= v < N) path ->
  shape N N d -> shape N N f ->
  get_fitness path d f = Ok (wrap64 (qap_cost N path d f)).
Proof.
  intros Hlen Hr Hd Hf. unfold get_fitness, qap_cost. rewrite Hlen.
  rewrite (for_each_wrap_sum _ _ (fun i =>
    sumZ (map (fun j => icell d i j * icell f (node_at path i) (node_at path j))
              (range 0 N)))); [reflexivity| |reflexivity].
  intros i acc Hi Hacc. apply in_range in Hi.
  apply for_each_wrap_sum; [|exact Hacc]. intros j acc' Hj _. apply in_range in Hj.
  destruct (shape_cell N N d i j Hd Hi Hj) as (row & Hrow & Hdij).
  destruct (path_node_at N path i Hr ltac:(lia)) as [Hpi' Hpi].
  destruct (path_node_at N path j Hr ltac:(lia)) as [Hpj' Hpj].
  destruct (shape_cell N N f _ _ Hf Hpi Hpj) as (frow & Hfrow & Hfij).
  rewrite Hrow. cbn [bind]. rewrite Hdij. cbn [bind].
  rewrite Hpi'. cbn [bind]. rewrite Hfrow. cbn [bind].
  rewrite Hpj'. cbn [bind]. rewrite Hfij. cbn [bind].
  now rewrite wrap64_add_r.
Qed.

Lemma permutation_in_range N path :
  is_permutation N path -> len path = N \/ (N < 0 /\ path = []).
Proof.
  intros H. pose proof (Permutation_length H) as Hl.
  unfold arange in Hl. rewrite length_range in Hl.
  destruct (Z.le_gt_cases 0 N); [left; unfold len; lia|right].
  split; [lia|]. destruct path; [reflexivity|cbn in Hl; lia].
Qed.

Lemma permutation_Forall N path :
  is_permutation N path -> Forall (fun v => 0 <= v < N) path.
Proof.
  intros H. apply Forall_forall. intros v Hv.
  apply (Permutation_in _ H) in Hv. now apply in_range in Hv.
Qed.


(** * Arithmetic of the scalars *)

Lemma fl_add_comm x y : fl_add x y = fl_add y x.
Proof. destruct x, y; cbn; try reflexivity. f_equal. apply Qcplus_comm. Qed.

Lemma fl_add_assoc x y z : fl_add x (fl_add y z) = fl_add (fl_add x y) z.
Proof. destruct x, y, z; cbn; try reflexivity. f_equal. apply Qcplus_assoc. Qed.

Lemma fl_add_zero_r x : fl_add x fl_zero = x.
Proof. destruct x; cbn; try reflexivity. f_equal. apply Qcplus_0_r. Qed.

Lemma fl_add_zero_l x : fl_add fl_zero x = x.
Proof. rewrite fl_add_comm. apply fl_add_zero_r. Qed.

Lemma fl_mul_one_r x : fl_mul x fl_one = x.
Proof.
  destruct x; cbn; try reflexivity. f_equal. apply Qcmult_1_r.
Qed.

(** * Updating one cell *)

Lemma length_update_nth {A} k (g : A -> A) l : length (update_nth k g l) = length l.
Proof.
  revert k. induction l as [|a l IH]; intros [|k]; cbn; auto.
Qed.

Lemma nth_update_nth_eq {A} k (g : A -> A) l d :
  (k < length l)%nat -> nth k (update_nth k g l) d = g (nth k l d).
Proof.
  revert k. induction l as [|a l IH]; intros [|k] H; cbn in *; try lia; auto.
  apply IH. lia.
Qed.

Lemma nth_update_nth_neq {A} k i (g : A -> A) l d :
  i <> k -> nth i (update_nth k g l) d = nth i l d.
Proof.
  revert k i. induction l as [|a l IH]; intros [|k] [|i] H; cbn; auto; try lia.
Qed.

Lemma update_nth_Forall {A} (P : A -> Prop) k (g : A -> A) l :
  Forall P l -> (forall a, P a -> P (g a)) -> Forall P (update_nth k g l).
Proof.
  intros Hl Hg. revert k. induction Hl as [|a l Ha Hl IH]; intros [|k]; cbn;
    constructor; auto.
Qed.

Lemma row_sum_update k v row :
  (k < length row)%nat ->
  row_sum (update_nth k (fun c => fl_add c v) row) = fl_add (row_sum row) v.
Proof.
  revert k. induction row as [|a row IH]; intros [|k] H; cbn in *; try lia.
  - fold (row_sum row).
    rewrite <- !fl_add_assoc. f_equal. apply fl_add_comm.
  - fold (row_sum row). fold (row_sum (update_nth k (fun c => fl_add c v) row)).
    rewrite IH by lia. apply fl_add_assoc.
Qed.

Lemma matrix_sum_update k v g (p : matrix) :
  (k < length p)%nat ->
  (row_sum (g (nth k p [])) = fl_add (row_sum (nth k p [])) v) ->
  matrix_sum (update_nth k g p) = fl_add (matrix_sum p) v.
Proof.
  revert k. induction p as [|r p IH]; intros [|k] H Hg; cbn in *; try lia.
  - fold (matrix_sum p). rewrite Hg.
    rewrite <- !fl_add_assoc. f_equal. apply fl_add_comm.
  - fold (matrix_sum p). fold (matrix_sum (update_nth k g p)).
    rewrite IH by (auto; lia). apply fl_add_assoc.
Qed.

Lemma add_at_shape rows cols p a b v p' :
  shape rows cols p -> add_at p a b v = Ok p' -> shape rows cols p'.
Proof.
  intros [Hr Hc]. unfold add_at.
  destruct (index p a) as [row|]; cbn [bind]; [|discriminate].
  destruct (index row b); cbn [bind]; [|discriminate].
  intros [= <-]. split.
  - unfold len in *. now rewrite length_update_nth.
  - apply update_nth_Forall; [exact Hc|].
    intros r Hrlen. unfold len in *. now rewrite length_update_nth.
Qed.

Lemma add_at_in_range n p a b v :
  shape n n p -> 0 <= a < n -> 0 <= b < n ->
  exists p', add_at p a b v = Ok p' /\
    (forall i j, 0 <= i -> 0 <= j ->
       entry p' i j = if (i =? a) && (j =? b) then fl_add (entry p i j) v
                      else entry p i j) /\
    matrix_sum p' = fl_add (matrix_sum p) v.
Proof.
  intros Hs Ha Hb. pose proof Hs as [Hr Hc].
  destruct (shape_row n n p a Hs Ha) as [Hrow Hlen].
  unfold add_at. rewrite Hrow. cbn [bind].
  rewrite (index_nonneg _ b NaN) by lia. cbn [bind].
  rewrite !norm_index_nonneg by lia.
  eexists. split; [reflexivity|]. unfold len in *. split.
  - intros i j Hi Hj. unfold entry.
    destruct (Z.eqb_spec i a) as [->|Hia]; cbn [andb].
    + rewrite (nth_update_nth_eq (Z.to_nat a)) by lia.
      destruct (Z.eqb_spec j b) as [->|Hjb].
      * rewrite nth_update_nth_eq by lia. reflexivity.
      * rewrite nth_update_nth_neq by lia. reflexivity.
    + rewrite nth_update_nth_neq by lia. reflexivity.
  - apply matrix_sum_update; [lia|].
    apply row_sum_update. lia.
Qed.

(** * The edges of a path *)

Lemma length_edges path : length (edges path) = (length path - 1)%nat.
Proof.
  induction path as [|a [|b rest] IH]; cbn [edges length] in *; lia.
Qed.

Lemma nth_edges path x :
  (S x < length path)%nat ->
  nth x (edges path) (0, 0) = (nth x path 0, nth (S x) path 0).
Proof.
  revert x. induction path as [|a [|b rest] IH]; intros x H; cbn [length] in *; try lia.
  destruct x as [|x]; [reflexivity|].
  cbn [edges nth]. rewrite IH by (cbn [length]; lia). reflexivity.
Qed.

Lemma for_each_map {X Y S} (h : X -> Y) (xs : list X) (body : Y -> S -> result S) st :
  for_each (map h xs) body st = for_each xs (fun x => body (h x)) st.
Proof.
  revert st. induction xs as [|x xs IH]; intros st; cbn; [reflexivity|].
  destruct (body (h x) st); cbn; auto.
Qed.

Lemma for_each_ext_in {X S} (xs : list X) (body1 body2 : X -> S -> result S) :
  (forall x st, In x xs -> body1 x st = body2 x st) ->
  forall st, for_each xs body1 st = for_each xs body2 st.
Proof.
  induction xs as [|x xs IH]; intros H st; cbn; [reflexivity|].
  rewrite H by now left. destruct (body2 x st); cbn; [|reflexivity].
  apply IH. intros; apply H; now right.
Qed.

Lemma for_each_seq_nth {X S} (l : list X) d (body : X -> S -> result S) st :
  for_each (seq 0 (length l)) (fun k => body (nth k l d)) st = for_each l body st.
Proof.
  revert st. induction l as [|a l IH]; intros st; cbn [length seq for_each]; [reflexivity|].
  cbn [nth]. destruct (body a st) as [st'|]; cbn [bind]; [|reflexivity].
  rewrite <- seq_shift, for_each_map. cbn [nth]. apply IH.
Qed.

Lemma update_pheromones_edges oneover path n :
  update_pheromones oneover path n =
  (p <- np_zeros n ;;
   for_each (edges path) (fun e p => add_at p (fst e) (snd e) oneover) p).
Proof.
  unfold update_pheromones. destruct (np_zeros n) as [p|]; cbn [bind]; [|reflexivity].
  rewrite <- (for_each_seq_nth (edges path) (0, 0)).
  unfold range. rewrite for_each_map, length_edges.
  replace (Z.to_nat (len path - 1 - 0)) with (length path - 1)%nat by (unfold len; lia).
  apply for_each_ext_in. intros x st Hx. apply in_seq in Hx.
  rewrite nth_edges by lia. cbn [fst snd].
  rewrite (index_nonneg path _ 0) by (unfold len; lia). cbn [bind].
  rewrite (index_nonneg path _ 0) by (unfold len; lia). cbn [bind].
  replace (Z.to_nat (0 + Z.of_nat x)) with x by lia.
  replace (Z.to_nat (0 + Z.of_nat x + 1)) with (S x) by lia.
  reflexivity.
Qed.

Lemma edges_in_range (P : Z -> Prop) path :
  Forall P path -> Forall (fun e => P (fst e) /\ P (snd e)) (edges path).
Proof.
  induction path as [|a [|b rest] IH]; intros H; cbn [edges]; try constructor.
  - inversion H as [|? ? Ha Hrest]; subst. inversion Hrest; subst. now split.
  - apply IH. now inversion H.
Qed.


(** * The deposit of one ant *)

Lemma add_times_succ_r k o x : add_times (S k) o x = add_times k o (fl_add x o).
Proof.
  unfold add_times. induction k as [|k IH]; cbn in *; [reflexivity|].
  now rewrite IH.
Qed.

Lemma np_zeros_spec n :
  0 <= n ->
  exists z, np_zeros n = Ok z /\ shape n n z /\
            Forall (Forall (fun c => c = fl_zero)) z /\
            matrix_sum z = fl_zero.
Proof.
  intros Hn. unfold np_zeros. replace (n <? 0) with false by lia.
  eexists. split; [reflexivity|]. split; [|split].
  - split.
    + unfold len. rewrite repeat_length. lia.
    + apply Forall_forall. intros row Hrow. apply repeat_spec in Hrow. subst.
      unfold len. rewrite repeat_length. lia.
  - apply Forall_forall. intros row Hrow. apply repeat_spec in Hrow. subst.
    apply Forall_forall. intros c Hc. now apply repeat_spec in Hc.
  - unfold matrix_sum.
    assert (Hrow : forall k, row_sum (repeat fl_zero k) = fl_zero).
    { induction k as [|k IH]; cbn; [reflexivity|].
      fold (row_sum (repeat fl_zero k)). rewrite IH. apply fl_add_zero_l. }
    induction (Z.to_nat n) as [|k IH] at 2; cbn; [reflexivity|].
    rewrite IH, Hrow. apply fl_add_zero_l.
Qed.

Lemma entry_Forall (P : fl -> Prop) rows cols (p : matrix) i j :
  shape rows cols p -> Forall (Forall P) p ->
  0 <= i < rows -> 0 <= j < cols -> P (entry p i j).
Proof.
  intros Hs HP Hi Hj. destruct (shape_row _ _ _ i Hs Hi) as [_ Hlen].
  destruct Hs as [Hr _]. unfold entry, len in *.
  rewrite Forall_forall in HP.
  assert (Hrow : Forall P (nth (Z.to_nat i) p [])) by (apply HP, nth_In; lia).
  rewrite Forall_forall in Hrow. apply Hrow, nth_In. lia.
Qed.

Lemma deposit_loop n o es :
  Forall (fun e => 0 <= fst e < n /\ 0 <= snd e < n) es ->
  forall p, shape n n p ->
  exists p',
    for_each es (fun e p => add_at p (fst e) (snd e) o) p = Ok p' /\
    shape n n p' /\
    (forall i j, 0 <= i -> 0 <= j ->
       entry p' i j =
       add_times (length (filter (fun e => (fst e =? i) && (snd e =? j)) es)) o
                 (entry p i j)) /\
    matrix_sum p' = add_times (length es) o (matrix_sum p).
Proof.
  induction 1 as [|[a b] es [Ha Hb] Hes IH]; intros p Hs; cbn [for_each].
  - exists p. repeat split; auto; apply Hs.
  - cbn [fst snd] in *.
    destruct (add_at_in_range n p a b o Hs Ha Hb) as (p1 & Hp1 & Hent & Hsum).
    rewrite Hp1. cbn [bind].
    destruct (IH p1 (add_at_shape _ _ _ _ _ _ _ Hs Hp1)) as (p' & Hrun & Hs' & Hent' & Hsum').
    exists p'. split; [exact Hrun|]. split; [exact Hs'|]. split.
    + intros i j Hi Hj. rewrite Hent' by assumption. rewrite Hent by assumption.
      cbn [filter fst snd]. rewrite (Z.eqb_sym a i), (Z.eqb_sym b j).
      destruct ((i =? a) && (j =? b)); [|reflexivity].
      cbn [length]. now rewrite add_times_succ_r.
    + rewrite Hsum', Hsum. cbn [length]. now rewrite add_times_succ_r.
Qed.

Lemma update_pheromones_shape o path n p :
  update_pheromones o path n = Ok p -> shape n n p.
Proof.
  rewrite update_pheromones_edges.
  destruct (Z.ltb_spec n 0) as [Hn|Hn].
  { unfold np_zeros. replace (n <? 0) with true by lia. discriminate. }
  destruct (np_zeros_spec n Hn) as (z & -> & Hz & _). cbn [bind].
  apply for_each_invariant; [|exact Hz].
  intros e s s' _ Hs Hadd. eapply add_at_shape; eauto.
Qed.

Lemma add_at_Forall (P : fl -> Prop) p a b v p' :
  (forall c, P c -> P (fl_add c v)) ->
  Forall (Forall P) p -> add_at p a b v = Ok p' -> Forall (Forall P) p'.
Proof.
  intros Hv Hp. unfold add_at.
  destruct (index p a) as [row|]; cbn [bind]; [|discriminate].
  destruct (index row b); cbn [bind]; [|discriminate].
  intros [= <-]. apply update_nth_Forall; [exact Hp|].
  intros r Hr. apply update_nth_Forall; assumption.
Qed.

Lemma update_pheromones_nonneg o path n p :
  fl_nonneg o -> update_pheromones o path n = Ok p -> Forall (Forall fl_nonneg) p.
Proof.
  intros Ho. rewrite update_pheromones_edges.
  destruct (Z.ltb_spec n 0) as [Hn|Hn].
  { unfold np_zeros. replace (n <? 0) with true by lia. discriminate. }
  destruct (np_zeros_spec n Hn) as (z & -> & _ & Hz & _). cbn [bind].
  apply for_each_invariant.
  - intros e s s' _ Hs Hadd. eapply add_at_Forall; eauto.
    intros c Hc. now apply fl_add_nonneg.
  - eapply Forall_impl; [|exact Hz]. intros row Hrow.
    eapply Forall_impl; [|exact Hrow]. intros c ->. cbn. unfold Qcle. cbn. lra.
Qed.

(** The deposit matrix of a path whose nodes are all in [[0, n)]. *)
Lemma update_pheromones_in_range o path n :
  0 <= n -> Forall (fun v => 0 <= v < n) path ->
  exists p,
    update_pheromones o path n = Ok p /\ shape n n p /\
    (forall a b, 0 <= a < n -> 0 <= b < n ->
       entry p a b = add_times (count_edge a b path) o fl_zero) /\
    matrix_sum p = add_times (length path - 1) o fl_zero.
Proof.
  intros Hn Hr. rewrite update_pheromones_edges.
  destruct (np_zeros_spec n Hn) as (z & -> & Hz & Hzero & Hsum). cbn [bind].
  destruct (deposit_loop n o (edges path) (edges_in_range _ _ Hr) z Hz)
    as (p & Hrun & Hs & Hent & Hsum').
  exists p. split; [exact Hrun|]. split; [exact Hs|]. split.
  - intros a b Ha Hb. rewrite Hent by lia. unfold count_edge. f_equal.
    apply (entry_Forall (fun c => c = fl_zero) n n); assumption.
  - rewrite Hsum', Hsum, length_edges. reflexivity.
Qed.


Lemma Q2Qc_inject_succ k :
  Q2Qc (inject_Z (Z.of_nat (S k))) = (Q2Qc (inject_Z (Z.of_nat k)) + Q2Qc 1)%Qc.
Proof.
  apply Qc_is_canon. qc_to_q.
  rewrite Nat2Z.inj_succ. unfold Z.succ. rewrite inject_Z_plus. reflexivity.
Qed.

Lemma add_times_finite k q :
  add_times k (Fin q) fl_zero = Fin (Q2Qc (inject_Z (Z.of_nat k)) * q)%Qc.
Proof.
  induction k as [|k IH].
  - cbn. unfold fl_zero. f_equal. symmetry. apply Qcmult_0_l.
  - change (add_times (S k) (Fin q) fl_zero)
      with (fl_add (add_times k (Fin q) fl_zero) (Fin q)).
    rewrite IH. cbn [fl_add]. f_equal. rewrite Q2Qc_inject_succ. ring.
Qed.

Lemma add_times_infinity k : add_times (S k) PInf fl_zero = PInf.
Proof.
  induction k as [|k IH]; [reflexivity|].
  change (add_times (S (S k)) PInf fl_zero)
    with (fl_add (add_times (S k) PInf fl_zero) PInf).
  now rewrite IH.
Qed.

(** * Element-wise operations *)

Lemma length_zip_with {A} (g : A -> A -> A) l1 l2 :
  length l1 = length l2 -> length (zip_with g l1 l2) = length l1.
Proof.
  revert l2. induction l1 as [|a l1 IH]; intros [|b l2] H; cbn in *; try lia.
  now rewrite IH by lia.
Qed.

Lemma nth_zip_with {A} (g : A -> A -> A) l1 l2 d k :
  length l1 = length l2 -> (k < length l1)%nat ->
  nth k (zip_with g l1 l2) d = g (nth k l1 d) (nth k l2 d).
Proof.
  revert l2 k. induction l1 as [|a l1 IH]; intros [|b l2] [|k] H Hk; cbn in *; try lia.
  - reflexivity.
  - apply IH; lia.
Qed.

Lemma zip_with_Forall {A} (P Q R : A -> Prop) (g : A -> A -> A) l1 l2 :
  (forall a b, P a -> Q b -> R (g a b)) ->
  Forall P l1 -> Forall Q l2 -> Forall R (zip_with g l1 l2).
Proof.
  intros Hg H1. revert l2. induction H1 as [|a l1 Ha H1 IH]; intros l2 H2; cbn.
  - constructor.
  - destruct H2 as [|b l2 Hb H2]; constructor; auto.
Qed.

Lemma np_add_shape n p q : shape n n p -> shape n n q -> shape n n (np_add p q).
Proof.
  intros [Hp1 Hp2] [Hq1 Hq2]. unfold shape, np_add, len in *. split.
  - rewrite length_zip_with; lia.
  - apply (zip_with_Forall (fun r => len r = n) (fun r => len r = n)); auto.
    intros a b Ha Hb. unfold len in *. rewrite length_zip_with; lia.
Qed.

Lemma np_add_entry n p q i j :
  shape n n p -> shape n n q -> 0 <= i < n -> 0 <= j < n ->
  entry (np_add p q) i j = fl_add (entry p i j) (entry q i j).
Proof.
  intros Hp Hq Hi Hj.
  destruct (shape_row _ _ _ i Hp Hi) as [_ Hlp].
  destruct (shape_row _ _ _ i Hq Hi) as [_ Hlq].
  destruct Hp as [Hp _], Hq as [Hq _]. unfold entry, np_add, len in *.
  rewrite (nth_zip_with _ p q []) by lia.
  apply nth_zip_with; lia.
Qed.

Lemma np_add_Forall (P Q R : fl -> Prop) p q :
  (forall a b, P a -> Q b -> R (fl_add a b)) ->
  Forall (Forall P) p -> Forall (Forall Q) q -> Forall (Forall R) (np_add p q).
Proof.
  intros H. apply zip_with_Forall. intros a b. now apply zip_with_Forall.
Qed.

Lemma np_scale_shape n p e : shape n n p -> shape n n (np_scale p e).
Proof.
  intros [H1 H2]. unfold shape, np_scale, len in *. split.
  - now rewrite length_map.
  - apply Forall_map. eapply Forall_impl; [|exact H2].
    intros r Hr. cbn. unfold len. now rewrite length_map.
Qed.

Lemma nth_map_in {A B} (h : A -> B) l k d d' :
  (k < length l)%nat -> nth k (map h l) d' = h (nth k l d).
Proof.
  revert k. induction l as [|a l IH]; intros [|k] H; cbn in *; try lia; auto.
  apply IH. lia.
Qed.

Lemma np_scale_entry n p e i j :
  shape n n p -> 0 <= i < n -> 0 <= j < n ->
  entry (np_scale p e) i j = fl_mul (entry p i j) e.
Proof.
  intros Hp Hi Hj. destruct (shape_row _ _ _ i Hp Hi) as [_ Hl].
  destruct Hp as [Hp _]. unfold entry, np_scale, len in *.
  rewrite (nth_map_in _ p _ []) by lia.
  apply (nth_map_in (fun c => fl_mul c e)). lia.
Qed.

Lemma np_scale_Forall (P Q : fl -> Prop) p e :
  (forall a, P a -> Q (fl_mul a e)) ->
  Forall (Forall P) p -> Forall (Forall Q) (np_scale p e).
Proof.
  intros H Hp. unfold np_scale. apply Forall_map.
  eapply Forall_impl; [|exact Hp]. intros r Hr. cbn.
  apply Forall_map. eapply Forall_impl; [|exact Hr]. exact H.
Qed.

Lemma zip_with_zero row zrow :
  length row = length zrow -> Forall (fun c => c = fl_zero) zrow ->
  zip_with fl_add row zrow = row.
Proof.
  revert zrow. induction row as [|a row IH]; intros [|z zrow] Hl Hz;
    cbn in *; try lia; [reflexivity|].
  inversion Hz; subst. rewrite fl_add_zero_r. f_equal. apply IH; [lia|assumption].
Qed.

Lemma np_add_zero n p z :
  shape n n p -> shape n n z -> Forall (Forall (fun c => c = fl_zero)) z ->
  np_add p z = p.
Proof.
  intros [Hp1 Hp2] [Hz1 Hz2] Hz. unfold np_add.
  assert (Hlen : length p = length z) by (unfold len in *; lia).
  clear Hp1 Hz1. revert z Hlen Hz2 Hz.
  induction Hp2 as [|r p Hr Hp2 IH]; intros [|zr z] Hlen Hz2 Hz; cbn in *; try lia.
  - reflexivity.
  - inversion Hz2; subst. inversion Hz; subst.
    rewrite zip_with_zero by (unfold len in *; auto; lia).
    f_equal. apply IH; auto.
Qed.

Lemma np_scale_one p : np_scale p fl_one = p.
Proof.
  unfold np_scale. rewrite <- (map_id p) at 2. apply map_ext. intros r.
  rewrite <- (map_id r) at 2. apply map_ext. apply fl_mul_one_r.
Qed.


(** * One ant, one iteration *)

Section RunFacts.

Variables (T : tapes) (n : Z) (d f : imatrix) (start m : Z) (e : fl).

Lemma ant_inv y st st' :
  ant T n d f start y st = Ok st' ->
  exists path g' fitness delta,
    generate_path T n start (pheromones st) (gen st) = Ok (path, g') /\
    get_fitness path d f = Ok fitness /\
    update_pheromones (reciprocal fitness) path n = Ok delta /\
    st' = {| pheromones := pheromones st;
             best_fitness := min_best (best_fitness st) fitness;
             total_fitness := wrap64 (total_fitness st + fitness);
             pheromone_update := np_add (pheromone_update st) delta;
             average_fitness_list := average_fitness_list st;
             gen := g';
             history := history st ++ [(fitness, min_best (best_fitness st) fitness)] |}.
Proof.
  unfold ant.
  destruct (generate_path _ _ _ _ _) as [[path g']|] eqn:Hp; cbn [bind]; [|discriminate].
  destruct (get_fitness _ _ _) as [fitness|] eqn:Hf; cbn [bind]; [|discriminate].
  destruct (update_pheromones _ _ _) as [delta|] eqn:Hd; cbn [bind]; [|discriminate].
  intros [= <-]. exists path, g', fitness, delta. repeat split; assumption.
Qed.

(** The ants of one iteration: the pheromones are only read, the
    accumulator receives the deposits one after the other. *)
Lemma ants_accumulate ys :
  forall st st',
  for_each ys (ant T n d f start) st = Ok st' ->
  pheromones st' = pheromones st /\
  average_fitness_list st' = average_fitness_list st /\
  exists deposits,
    length deposits = length ys /\
    Forall (is_deposit T n d f start (pheromones st)) deposits /\
    pheromone_update st' = fold_left np_add deposits (pheromone_update st).
Proof.
  induction ys as [|y ys IH]; intros st st'; cbn [for_each].
  - intros [= <-]. repeat split. exists []. repeat split. constructor.
  - destruct (ant T n d f start y st) as [st1|] eqn:Hant; cbn [bind]; [|discriminate].
    intros Hrun. destruct (IH _ _ Hrun) as (Hp & Ha & deps & Hlen & Hdeps & Hacc).
    destruct (ant_inv _ _ _ Hant) as (path & g' & fitness & delta & Hgen & Hfit & Hdelta & ->).
    cbn in *. repeat split; try assumption.
    exists (delta :: deps). cbn. repeat split.
    + now rewrite Hlen.
    + constructor; [|exact Hdeps]. exists (gen st), path, g', fitness. now repeat split.
    + exact Hacc.
Qed.

Lemma iteration_inv x st st' :
  iteration T n d f start m e x st = Ok st' ->
  exists zeros st1,
    np_zeros n = Ok zeros /\
    for_each (range 0 m) (ant T n d f start)
      {| pheromones := pheromones st;
         best_fitness := best_fitness st;
         total_fitness := 0;
         pheromone_update := zeros;
         average_fitness_list := average_fitness_list st;
         gen := gen st;
         history := history st |} = Ok st1 /\
    st' = {| pheromones := deposit_and_evaporate e (pheromones st1) (pheromone_update st1);
             best_fitness := best_fitness st1;
             total_fitness := total_fitness st1;
             pheromone_update := pheromone_update st1;
             average_fitness_list :=
               average_fitness_list st1 ++ [true_div (total_fitness st1) m];
             gen := gen st1;
             history := history st1 |}.
Proof.
  unfold iteration.
  destruct (np_zeros n) as [zeros|] eqn:Hz; cbn [bind]; [|discriminate].
  destruct (for_each _ _ _) as [st1|] eqn:Hloop; cbn [bind]; [|discriminate].
  intros [= <-]. exists zeros, st1. repeat split. exact Hloop.
Qed.

Lemma fold_np_add_shape deposits :
  Forall (shape n n) deposits ->
  forall acc, shape n n acc -> shape n n (fold_left np_add deposits acc).
Proof.
  induction 1 as [|dl deps Hd Hdeps IH]; intros acc Hacc; cbn; [exact Hacc|].
  apply IH. now apply np_add_shape.
Qed.

(** An entry of the accumulator is the sum of the deposits' entries. *)
Lemma fold_np_add_entry deposits i j :
  0 <= i < n -> 0 <= j < n ->
  Forall (shape n n) deposits ->
  forall acc, shape n n acc ->
  entry (fold_left np_add deposits acc) i j
  = fold_left fl_add (map (fun delta => entry delta i j) deposits) (entry acc i j).
Proof.
  intros Hi Hj. induction 1 as [|dl deps Hd Hdeps IH]; intros acc Hacc; cbn [fold_left map].
  - reflexivity.
  - rewrite IH by now apply np_add_shape.
    now rewrite (np_add_entry n).
Qed.

Lemma is_deposit_shape M delta : is_deposit T n d f start M delta -> shape n n delta.
Proof.
  intros (g & path & g' & fitness & _ & _ & H). eapply update_pheromones_shape; eauto.
Qed.

End RunFacts.


(** * The running best fitness *)

Lemma best_le_refl b : best_le b b.
Proof. destruct b; cbn; [exact I|lia]. Qed.

Lemma min_best_le b v : best_le (min_best b v) b.
Proof.
  unfold min_best. destruct b as [|w]; cbn; [destruct (lt_best v Infinity); exact I|].
  destruct (Z.ltb_spec v w); cbn; lia.
Qed.

Lemma min_best_le_fitness b v : best_le (min_best b v) (Fitness v).
Proof.
  unfold min_best. destruct b as [|w]; cbn; [lia|].
  destruct (Z.ltb_spec v w); cbn; lia.
Qed.

Lemma best_le_trans a b c : best_le a b -> best_le b c -> best_le a c.
Proof. destruct a, b, c; cbn; try tauto; lia. Qed.

Lemma map_fst_replay b fs : map fst (replay b fs) = fs.
Proof. revert b. induction fs as [|v fs IH]; intros b; cbn; [reflexivity|]. now rewrite IH. Qed.

Lemma last_cons {A} (l : list A) : forall b c, last (c :: l) b = last l c.
Proof.
  induction l as [|y l IH]; intros b c; [reflexivity|].
  change (last (c :: y :: l) b) with (last (y :: l) b).
  now rewrite (IH b y), (IH c y).
Qed.

Lemma replay_snoc fs v :
  forall b, replay b (fs ++ [v]) =
            replay b fs ++ [(v, min_best (last (map snd (replay b fs)) b) v)].
Proof.
  induction fs as [|w fs IH]; intros b; cbn [replay app map]; [reflexivity|].
  rewrite IH. cbn [app snd]. now rewrite last_cons.
Qed.

Lemma history_ok_snoc b h v :
  history_ok b h -> history_ok (min_best b v) (h ++ [(v, min_best b v)]).
Proof.
  intros [Hh Hb]. split.
  - rewrite map_app. cbn [map fst]. rewrite replay_snoc, <- Hh, <- Hb. reflexivity.
  - rewrite map_app. cbn [map snd]. now rewrite last_last.
Qed.

Lemma improves_replay fs : forall b, improves b (replay b fs).
Proof.
  induction fs as [|v fs IH]; intros b; cbn [replay]; [constructor|].
  unfold min_best at 1 2. destruct (lt_best v b) eqn:E.
  - apply improves_replace; [exact E|].
    specialize (IH (Fitness v)). exact IH.
  - apply improves_keep; [exact E|apply IH].
Qed.

Lemma replay_sorted fs :
  forall b, Sorted (fun x y => best_le y x) (b :: map snd (replay b fs)).
Proof.
  induction fs as [|v fs IH]; intros b; cbn [replay map snd].
  - repeat constructor.
  - constructor; [apply IH|]. constructor. apply min_best_le.
Qed.

Lemma last_replay_fold fs :
  forall b, last (map snd (replay b fs)) b = fold_left min_best fs b.
Proof.
  induction fs as [|v fs IH]; intros b; cbn [replay map snd fold_left]; [reflexivity|].
  rewrite <- IH. apply last_cons.
Qed.

Lemma fold_min_best_le fs : forall b, best_le (fold_left min_best fs b) b.
Proof.
  induction fs as [|v fs IH]; intros b; cbn; [apply best_le_refl|].
  eapply best_le_trans; [apply IH|apply min_best_le].
Qed.

Lemma fold_min_best_lower fs :
  forall b v, In v fs -> best_le (fold_left min_best fs b) (Fitness v).
Proof.
  induction fs as [|w fs IH]; intros b v; cbn; [tauto|].
  intros [->|Hin]; [|now apply IH].
  eapply best_le_trans; [apply fold_min_best_le|apply min_best_le_fitness].
Qed.

Lemma fold_min_best_attained fs :
  forall b, fold_left min_best fs b = b \/
            exists v, In v fs /\ fold_left min_best fs b = Fitness v.
Proof.
  induction fs as [|w fs IH]; intros b; cbn; [now left|].
  destruct (IH (min_best b w)) as [E|(v & Hv & E)].
  - rewrite E. unfold min_best. destruct (lt_best w b); [right|now left].
    exists w. split; [now left|reflexivity].
  - right. exists v. split; [now right|exact E].
Qed.

(** * Invariants of a run *)

Section RunInvariants.

Variables (T : tapes) (n : Z) (d f : imatrix) (start m : Z) (e : fl).

Lemma ants_ghost (P : best -> list (Z * best) -> Prop) ys :
  (forall b h v, P b h -> P (min_best b v) (h ++ [(v, min_best b v)])) ->
  forall st st',
  for_each ys (ant T n d f start) st = Ok st' ->
  P (best_fitness st) (history st) -> P (best_fitness st') (history st').
Proof.
  intros Hstep st st' Hrun HP.
  apply (for_each_invariant (fun s => P (best_fitness s) (history s))
           (ant T n d f start) ys) with (st := st); [|exact HP|exact Hrun].
  intros y s s' _ Hs Hant.
  destruct (ant_inv _ _ _ _ _ _ _ _ Hant) as (path & g' & v & delta & _ & _ & _ & ->).
  cbn. now apply Hstep.
Qed.

Lemma iteration_ghost (P : best -> list (Z * best) -> Prop) x st st' :
  (forall b h v, P b h -> P (min_best b v) (h ++ [(v, min_best b v)])) ->
  iteration T n d f start m e x st = Ok st' ->
  P (best_fitness st) (history st) -> P (best_fitness st') (history st').
Proof.
  intros Hstep Hit HP.
  destruct (iteration_inv _ _ _ _ _ _ _ _ _ _ Hit) as (zeros & st1 & _ & Hloop & ->).
  cbn. apply (ants_ghost P _ Hstep _ _ Hloop). exact HP.
Qed.

Lemma run_ghost (P : best -> list (Z * best) -> Prop) k st st' :
  (forall b h v, P b h -> P (min_best b v) (h ++ [(v, min_best b v)])) ->
  run T n d f start m e k st = Ok st' ->
  P (best_fitness st) (history st) -> P (best_fitness st') (history st').
Proof.
  intros Hstep Hrun HP.
  apply (for_each_invariant (fun s => P (best_fitness s) (history s))
           (iteration T n d f start m e) (range 0 k)) with (st := st);
    [|exact HP|exact Hrun].
  intros x s s' _ Hs Hit. eapply iteration_ghost; eauto.
Qed.

Lemma ants_history_length ys :
  forall st st',
  for_each ys (ant T n d f start) st = Ok st' ->
  length (history st') = (length (history st) + length ys)%nat.
Proof.
  induction ys as [|y ys IH]; intros st st'; cbn [for_each].
  - intros [= <-]. cbn. lia.
  - destruct (ant T n d f start y st) as [st1|] eqn:Hant; cbn [bind]; [|discriminate].
    intros Hrun. rewrite (IH _ _ Hrun).
    destruct (ant_inv _ _ _ _ _ _ _ _ Hant) as (path & g' & v & delta & _ & _ & _ & ->).
    cbn. rewrite length_app. cbn. lia.
Qed.

(** After [k] rounds there are [k] mean values and [k * m] evaluated ants. *)
Lemma run_lengths k st st' :
  0 <= k -> 0 <= m ->
  run T n d f start m e k st = Ok st' ->
  len (average_fitness_list st') = len (average_fitness_list st) + k /\
  len (history st') = len (history st) + k * m.
Proof.
  intros Hk Hm. unfold run.
  apply (for_range_partial
           (fun i s => len (average_fitness_list s) = len (average_fitness_list st) + i /\
                       len (history s) = len (history st) + i * m)); [|exact Hk|lia].
  intros i s s' Hi [Ha Hh] Hit.
  destruct (iteration_inv _ _ _ _ _ _ _ _ _ _ Hit) as (zeros & st1 & _ & Hloop & ->).
  cbn. destruct (ants_accumulate _ _ _ _ _ _ _ _ Hloop) as (_ & Havg & _).
  pose proof (ants_history_length _ _ _ Hloop) as Hlen.
  cbn in Havg, Hlen. rewrite length_range in Hlen.
  unfold len in *. rewrite length_app, Havg, Hlen. cbn [length]. split; lia.
Qed.

End RunInvariants.


(** * Non-negative pheromones *)

Lemma unit_interval_nonneg x : unit_interval x -> fl_nonneg x.
Proof. destruct x; cbn; tauto. Qed.

Lemma reciprocal_positive v : 0 < v -> fl_positive (reciprocal v).
Proof.
  intros Hv. unfold reciprocal. replace (v =? 0) with false by lia. cbn.
  qc_to_q. apply Qinv_lt_0_compat.
  replace 0%Q with (inject_Z 0) by reflexivity. rewrite <- Zlt_Qlt. exact Hv.
Qed.

Lemma fl_mul_nonneg x q :
  (0 <= q)%Qc -> fl_nonneg x -> fl_nonneg (fl_mul x (Fin q)).
Proof. destruct x; cbn; try contradiction. intros. now apply Qc_mul_nonneg. Qed.

Lemma fl_mul_positive x q :
  (0 < q)%Qc -> fl_positive x -> fl_positive (fl_mul x (Fin q)).
Proof. destruct x; cbn; try contradiction. intros. now apply Qc_mul_pos. Qed.

Lemma fl_add_positive_nonneg x y :
  fl_positive x -> fl_nonneg y -> fl_positive (fl_add x y).
Proof. destruct x, y; cbn; try contradiction. qc_to_q. lra. Qed.

Lemma np_zeros_nonneg n z : np_zeros n = Ok z -> nonneg_matrix z /\ shape n n z.
Proof.
  destruct (Z.ltb_spec n 0) as [Hn|Hn].
  { unfold np_zeros. replace (n <? 0) with true by lia. discriminate. }
  destruct (np_zeros_spec n Hn) as (z' & -> & Hs & Hz & _). intros [= <-].
  split; [|exact Hs].
  eapply Forall_impl; [|exact Hz]. intros row Hrow.
  eapply Forall_impl; [|exact Hrow]. intros c ->. cbn. unfold Qcle. cbn. lra.
Qed.

Lemma fold_np_add_nonneg deposits :
  Forall nonneg_matrix deposits ->
  forall acc, nonneg_matrix acc -> nonneg_matrix (fold_left np_add deposits acc).
Proof.
  induction 1 as [|dl deps Hd Hdeps IH]; intros acc Hacc; cbn; [exact Hacc|].
  apply IH. apply (np_add_Forall fl_nonneg fl_nonneg); auto. apply fl_add_nonneg.
Qed.

Section Randomness.

Variable T : tapes.

Lemma np_random_rand_spec (P : fl -> Prop) n g ph g' :
  (forall k, P (Fin (np_uniform T k))) ->
  np_random_rand T n g = Ok (ph, g') ->
  shape n n ph /\ Forall (Forall P) ph.
Proof.
  intros HT. unfold np_random_rand.
  destruct (Z.ltb_spec n 0); [discriminate|]. intros [= <- _]. split.
  - split.
    + unfold len. rewrite length_map, length_seq. lia.
    + apply Forall_map, Forall_forall. intros r _. cbn.
      unfold len. rewrite length_map, length_seq. lia.
  - apply Forall_map, Forall_forall. intros r _. cbn.
    apply Forall_map, Forall_forall. intros j _. apply HT.
Qed.

Lemma np_random_rand_total n g :
  0 <= n -> exists ph g', np_random_rand T n g = Ok (ph, g').
Proof.
  intros Hn. unfold np_random_rand. replace (n <? 0) with false by lia. eauto.
Qed.

Lemma np_random_randint_spec n g start g' :
  np_random_randint T 0 n g = Ok (start, g') -> 1 <= n /\ 0 <= start < n.
Proof.
  unfold np_random_randint. destruct (Z.leb_spec n 0); [discriminate|].
  intros [= <- _]. split; [lia|].
  pose proof (Z.mod_pos_bound (np_integer T (np_int_cursor g)) (n - 0)). lia.
Qed.

Lemma np_random_randint_total n g :
  1 <= n -> exists start g', np_random_randint T 0 n g = Ok (start, g').
Proof.
  intros Hn. unfold np_random_randint. replace (n <=? 0) with false by lia. eauto.
Qed.

End Randomness.

Section Nonnegative.

Variables (T : tapes) (n : Z) (d f : imatrix) (start m : Z) (q : Qc).

Hypothesis Hn : 1 <= n.
Hypothesis Hstart : 0 <= start < n.
Hypothesis Hfit : fitness_positive n d f.

Lemma is_deposit_nonneg M delta :
  is_deposit T n d f start M delta -> nonneg_matrix delta.
Proof.
  intros (g & path & g' & v & Hgen & Hv & Hdelta).
  apply generate_path_inv in Hgen; [|exact Hn|exact Hstart].
  destruct Hgen as (Hlen & Hnd & Hr & _). cbn [fst] in *.
  apply (update_pheromones_nonneg _ _ _ _ (fl_positive_nonneg _
           (reciprocal_positive v (Hfit path v
              (NoDup_range_permutation n path Hnd Hlen Hr) Hv))) Hdelta).
Qed.

Hypothesis Hq : (0 <= q)%Qc.

Lemma iteration_nonneg x st st' :
  iteration T n d f start m (Fin q) x st = Ok st' ->
  nonneg_matrix (pheromones st) -> nonneg_matrix (pheromones st').
Proof.
  intros Hit Hp.
  destruct (iteration_inv _ _ _ _ _ _ _ _ _ _ Hit) as (zeros & st1 & Hz & Hloop & ->).
  destruct (ants_accumulate _ _ _ _ _ _ _ _ Hloop) as (Hph & _ & deps & _ & Hdeps & Hacc).
  cbn in *. unfold deposit_and_evaporate. rewrite Hph, Hacc.
  apply (np_scale_Forall fl_nonneg); [intros; now apply fl_mul_nonneg|].
  apply (np_add_Forall fl_nonneg fl_nonneg); [apply fl_add_nonneg|exact Hp|].
  apply fold_np_add_nonneg; [|exact (proj1 (np_zeros_nonneg _ _ Hz))].
  eapply Forall_impl; [|exact Hdeps]. intros delta. apply is_deposit_nonneg.
Qed.

Lemma run_nonneg k st st' :
  run T n d f start m (Fin q) k st = Ok st' ->
  nonneg_matrix (pheromones st) -> nonneg_matrix (pheromones st').
Proof.
  intros Hrun Hp.
  apply (for_each_invariant (fun s => nonneg_matrix (pheromones s))
           (iteration T n d f start m (Fin q)) (range 0 k)) with (st := st);
    [|exact Hp|exact Hrun].
  intros x s s' _ Hs Hit. eapply iteration_nonneg; eauto.
Qed.

End Nonnegative.


(** * Runs that do not raise *)

Lemma positive_matrix_weights n M :
  shape n n M -> positive_matrix M -> positive_weights n M.
Proof.
  intros Hs Hp i j Hi Hj _. now apply (entry_Forall fl_positive n n).
Qed.

Section Total.

Variables (T : tapes) (n : Z) (d f : imatrix) (start m : Z) (q : Qc).

Hypothesis Hn : 1 <= n.
Hypothesis Hstart : 0 <= start < n.
Hypothesis Hd : shape n n d.
Hypothesis Hf : shape n n f.
Hypothesis Hfit : fitness_positive n d f.
Hypothesis Hq : (0 < q)%Qc.
Hypothesis Hm : 0 <= m.

Lemma ant_total M y st :
  shape n n M -> positive_matrix M -> good_ant n M st ->
  exists st', ant T n d f start y st = Ok st' /\ good_ant n M st'.
Proof.
  intros HsM HpM (Hph & Hsu & Hnu).
  destruct (generate_path_total T n start M (gen st) Hn Hstart HsM
              (positive_matrix_weights n M HsM HpM))
    as (path & g' & Hgen & Hlen & Hnd & Hr & _).
  cbn [fst] in *.
  pose proof (get_fitness_in_range n path d f Hlen Hr Hd Hf) as Hv.
  pose proof (Hfit path _ (NoDup_range_permutation n path Hnd Hlen Hr) Hv) as Hpos.
  destruct (update_pheromones_in_range (reciprocal (wrap64 (qap_cost n path d f)))
              path n ltac:(lia) Hr) as (delta & Hdelta & Hsd & _).
  unfold ant. rewrite Hph, Hgen. cbn [bind]. rewrite Hv. cbn [bind].
  rewrite Hdelta. cbn [bind]. eexists. split; [reflexivity|].
  unfold good_ant. cbn. split; [reflexivity|split].
  - now apply np_add_shape.
  - apply (np_add_Forall fl_nonneg fl_nonneg); [apply fl_add_nonneg|exact Hnu|].
    eapply update_pheromones_nonneg; [|exact Hdelta].
    now apply fl_positive_nonneg, reciprocal_positive.
Qed.

Lemma iteration_total x st :
  good n st -> exists st', iteration T n d f start m (Fin q) x st = Ok st' /\ good n st'.
Proof.
  intros [Hs Hp]. unfold iteration.
  destruct (np_zeros_spec n ltac:(lia)) as (zeros & Hz & Hsz & _).
  pose proof (proj1 (np_zeros_nonneg _ _ Hz)) as Hnz.
  rewrite Hz. cbn [bind].
  destruct (for_range_total (fun _ s => good_ant n (pheromones st) s)
              (ant T n d f start) m) with (lo := 0)
    (st := {| pheromones := pheromones st;
              best_fitness := best_fitness st;
              total_fitness := 0;
              pheromone_update := zeros;
              average_fitness_list := average_fitness_list st;
              gen := gen st;
              history := history st |})
    as (st1 & Hloop & Hph & Hsu & Hnu).
  - intros i s _ Hgood. now apply ant_total.
  - exact Hm.
  - unfold good_ant. cbn. auto.
  - rewrite Hloop. cbn [bind]. eexists. split; [reflexivity|].
    unfold good, deposit_and_evaporate. cbn. rewrite Hph. split.
    + apply np_scale_shape, np_add_shape; assumption.
    + apply (np_scale_Forall fl_positive); [intros; now apply fl_mul_positive|].
      apply (np_add_Forall fl_positive fl_nonneg); auto.
      apply fl_add_positive_nonneg.
Qed.

Lemma run_total k st :
  0 <= k -> good n st ->
  exists st', run T n d f start m (Fin q) k st = Ok st' /\ good n st'.
Proof.
  intros Hk Hgood. unfold run.
  apply (for_range_total (fun _ s => good n s)); [|exact Hk|exact Hgood].
  intros i s _ Hs. now apply iteration_total.
Qed.

End Total.

Lemma iterations_of_pos m : 1 <= m -> iterations_of m = Ok (10000 / m).
Proof.
  intros Hm. unfold iterations_of. replace (m =? 0) with false by lia.
  f_equal. apply Z.quot_div_nonneg; lia.
Qed.

Lemma main_state_total T file m e g :
  well_formed T file m e -> exists st, main_state T file m e g = Ok st.
Proof.
  intros [Hn Hd Hf Hfit HT Hm He]. unfold main_state.
  rewrite (np_array_rectangular _ (shape_rectangular _ _ _ Hd)),
    (np_array_rectangular _ (shape_rectangular _ _ _ Hf)). cbn [bind].
  destruct (np_random_rand_total T (data_n file) g ltac:(lia)) as (ph & g1 & Hrand).
  destruct (np_random_rand_spec T fl_positive _ _ _ _ HT Hrand) as [Hs Hp].
  rewrite Hrand. cbn [bind]. rewrite iterations_of_pos by exact Hm. cbn [bind].
  destruct (np_random_randint_total T (data_n file) g1 Hn) as (start & g2 & Hint).
  destruct (np_random_randint_spec T _ _ _ _ Hint) as [_ Hstart].
  rewrite Hint. cbn [bind].
  destruct e as [q| | |]; cbn in He; try contradiction.
  destruct (run_total T (data_n file) (data_d file) (data_f file) start m q
              Hn Hstart Hd Hf Hfit He ltac:(lia) (10000 / m)
              (init_state ph g2)) as (st & Hrun & _).
  - apply Z.div_pos; lia.
  - split; assumption.
  - exists st. exact Hrun.
Qed.

Lemma main_total T file m e g :
  well_formed T file m e -> exists res g', main T file m e g = Ok (res, g').
Proof.
  intros Hwf. destruct (main_state_total T file m e g Hwf) as [st Hst].
  unfold main. rewrite Hst. cbn. eauto.
Qed.

(** * Whole runs *)

Lemma main_state_inv T file m e g st :
  main_state T file m e g = Ok st ->
  exists ph0 g1 iterations start g2,
    np_random_rand T (data_n file) g = Ok (ph0, g1) /\
    iterations_of m = Ok iterations /\
    np_random_randint T 0 (data_n file) g1 = Ok (start, g2) /\
    run T (data_n file) (data_d file) (data_f file) start m e iterations
      (init_state ph0 g2) = Ok st.
Proof.
  unfold main_state.
  destruct (np_array (data_d file)) as [d|] eqn:Hd; cbn [bind]; [|discriminate].
  apply np_array_inv in Hd. destruct Hd as [-> _].
  destruct (np_array (data_f file)) as [f|] eqn:Hf; cbn [bind]; [|discriminate].
  apply np_array_inv in Hf. destruct Hf as [-> _].
  destruct (np_random_rand _ _ _) as [[ph0 g1]|] eqn:Hrand; cbn [bind]; [|discriminate].
  destruct (iterations_of m) as [iterations|] eqn:Hit; cbn [bind]; [|discriminate].
  destruct (np_random_randint _ _ _ _) as [[start g2]|] eqn:Hint; cbn [bind]; [|discriminate].
  intros Hrun. exists ph0, g1, iterations, start, g2. auto.
Qed.

Lemma main_state_rectangular T file m e g st :
  main_state T file m e g = Ok st ->
  rectangular (data_d file) /\ rectangular (data_f file).
Proof.
  unfold main_state.
  destruct (np_array (data_d file)) as [d|] eqn:Hd; cbn [bind]; [|discriminate].
  destruct (np_array (data_f file)) as [f|] eqn:Hf; cbn [bind]; [|discriminate].
  intros _. split; [exact (proj2 (np_array_inv _ _ Hd))|exact (proj2 (np_array_inv _ _ Hf))].
Qed.

Lemma main_inv T file m e g res g' :
  main T file m e g = Ok (res, g') ->
  exists st, main_state T file m e g = Ok st /\
             res = (average_fitness_list st, best_fitness st) /\ g' = gen st.
Proof.
  unfold main. destruct (main_state T file m e g) as [st|]; cbn [bind]; [|discriminate].
  intros [= <- <-]. exists st. auto.
Qed.

Lemma main_state_lengths T file m e g st :
  1 <= m -> main_state T file m e g = Ok st ->
  len (average_fitness_list st) = 10000 / m /\
  len (history st) = 10000 / m * m.
Proof.
  intros Hm Hst.
  destruct (main_state_inv _ _ _ _ _ _ Hst) as (ph0 & g1 & its & start & g2 & _ & Hit & _ & Hrun).
  rewrite iterations_of_pos in Hit by exact Hm. injection Hit as <-.
  apply run_lengths in Hrun; [|apply Z.div_pos; lia|lia].
  cbn in Hrun. exact Hrun.
Qed.

Lemma main_length T file m e g res g' :
  1 <= m -> main T file m e g = Ok (res, g') -> len (fst res) = 10000 / m.
Proof.
  intros Hm Hmain. destruct (main_inv _ _ _ _ _ _ _ Hmain) as (st & Hst & -> & _).
  cbn. now apply (main_state_lengths T file m e g).
Qed.

Lemma experiments_lengths T file m e g rep g' :
  1 <= m -> experiments T file m e g = Ok (rep, g') ->
  length (csv_rows rep) = 5%nat /\ length (printed_best rep) = 5%nat /\
  Forall (fun series => len series = 10000 / m) (csv_rows rep) /\
  csv_header rep = range 0 (10000 / m).
Proof.
  intros Hm. unfold experiments.
  destruct (for_each _ _ _) as [[[biglist bestlist] g1]|] eqn:Hloop; cbn [bind]; [|discriminate].
  apply (for_range_partial
           (fun i (s : list (list fl) * list best * rng) =>
              len (fst (fst s)) = i /\ len (snd (fst s)) = i /\
              Forall (fun series => len series = 10000 / m) (fst (fst s)))) in Hloop;
    [| |lia|cbn; auto].
  - destruct Hloop as (Hbig & Hbest & Hall). cbn [fst snd] in *.
    destruct (index biglist 0) as [first|] eqn:Hfirst; cbn [bind]; [|discriminate].
    intros [= <- _]. cbn. unfold len in *. repeat split; try lia; [exact Hall|].
    unfold arange. f_equal. rewrite Forall_forall in Hall.
    apply (Hall first). eapply index_In; eauto.
  - intros i [[big bestl] g0] s' _ (Hbig & Hbest & Hall). cbn [fst snd] in *.
    destruct (main T file m e g0) as [[res g2]|] eqn:Hmain; cbn [bind]; [|discriminate].
    intros [= <-]. cbn [fst snd]. unfold len in *. rewrite !length_app. cbn [length].
    repeat split; try lia.
    apply Forall_app. split; [exact Hall|]. constructor; [|constructor].
    now apply (main_length T file m e g0 res g2).
Qed.

Lemma for_each_total {X S} (body : X -> S -> result S) xs :
  (forall x s, exists s', body x s = Ok s') ->
  forall st, exists st', for_each xs body st = Ok st'.
Proof.
  intros Hbody. induction xs as [|x xs IH]; intros st; cbn [for_each]; [eauto|].
  destruct (Hbody x st) as [s' ->]. cbn [bind]. apply IH.
Qed.

Lemma generate_path_pair T start pheromones g :
  0 <= start < 2 ->
  generate_path T 2 start pheromones g = Ok ([start; 1 - start], g).
Proof.
  intros Hs. assert (Hc : start = 0 \/ start = 1) by lia.
  destruct Hc as [-> | ->]; reflexivity.
Qed.

Lemma ant_pair_total T d f start y st :
  0 <= start < 2 -> shape 2 2 d -> shape 2 2 f ->
  exists st', ant T 2 d f start y st = Ok st'.
Proof.
  intros Hs Hd Hf. unfold ant. rewrite generate_path_pair by exact Hs. cbn [bind].
  assert (Hr : Forall (fun v => 0 <= v < 2) [start; 1 - start])
    by (repeat constructor; lia).
  rewrite (get_fitness_in_range 2 [start; 1 - start] d f eq_refl Hr Hd Hf). cbn [bind].
  destruct (update_pheromones_in_range
              (reciprocal (wrap64 (qap_cost 2 [start; 1 - start] d f))) _ 2
              ltac:(lia) Hr)
    as (delta & -> & _). cbn [bind]. eauto.
Qed.

(** With two locations no ant can fail. *)
Lemma two_location_main T file m e g :
  data_n file = 2 -> shape 2 2 (data_d file) -> shape 2 2 (data_f file) -> m <> 0 ->
  exists res g', main T file m e g = Ok (res, g').
Proof.
  intros Hn Hd Hf Hm. unfold main, main_state. rewrite Hn.
  rewrite (np_array_rectangular _ (shape_rectangular _ _ _ Hd)),
    (np_array_rectangular _ (shape_rectangular _ _ _ Hf)). cbn [bind].
  destruct (np_random_rand_total T 2 g ltac:(lia)) as (ph0 & g1 & ->). cbn [bind].
  unfold iterations_of. replace (m =? 0) with false by lia. cbn [bind].
  destruct (np_random_randint_total T 2 g1 ltac:(lia)) as (start & g2 & Hint).
  destruct (np_random_randint_spec T _ _ _ _ Hint) as [_ Hstart].
  rewrite Hint. cbn [bind]. unfold run.
  destruct (for_each_total (iteration T 2 (data_d file) (data_f file) start m e)
              (range 0 (Z.quot 10000 m))) with (st := init_state ph0 g2)
    as [st ->].
  - intros x s. unfold iteration. change (np_zeros 2) with (Ok (all_zero 2)).
    cbn [bind].
    edestruct (for_each_total (ant T 2 (data_d file) (data_f file) start)
                 (range 0 m)) as [s1 ->].
    + intros y s0. now apply ant_pair_total.
    + cbn [bind]. eauto.
  - cbn [bind]. eauto.
Qed.

Lemma two_location_experiments T file m e g :
  data_n file = 2 -> shape 2 2 (data_d file) -> shape 2 2 (data_f file) -> m <> 0 ->
  exists rep g', experiments T file m e g = Ok (rep, g').
Proof.
  intros Hn Hd Hf Hm. unfold experiments.
  destruct (for_range_total
              (fun i (s : list (list fl) * list best * rng) => len (fst (fst s)) = i)
              (fun x '(biglist, bestlist, g) =>
                 ' (res, g') <- main T file m e g ;;
                 Ok (biglist ++ [fst res], bestlist ++ [snd res], g')) 5)
    with (lo := 0) (st := (@nil (list fl), @nil best, g))
    as ([[biglist bestlist] g1] & Hloop & Hlen).
  - intros i [[big bestl] g0] _ Hbig. cbn [fst] in *.
    destruct (two_location_main T file m e g0 Hn Hd Hf Hm) as (res & g2 & ->).
    cbn [bind]. eexists. split; [reflexivity|]. cbn. unfold len in *.
    rewrite length_app. cbn. lia.
  - lia.
  - reflexivity.
  - rewrite Hloop. cbn [bind fst] in *.
    destruct (index_total biglist 0) as [first ->]; [lia|]. cbn. eauto.
Qed.

Lemma ceil_iterations_exact m :
  1 <= m -> 10000 mod m = 0 -> ceil_iterations m = 10000 / m.
Proof.
  intros Hm Hdiv. unfold ceil_iterations.
  apply Z.mod_divide in Hdiv; [|lia]. destruct Hdiv as [k Hk].
  rewrite Hk. replace (k * m + m - 1) with (k * m + (m - 1)) by lia.
  rewrite Z.div_add_l, Z.div_mul, (Z.div_small (m - 1) m) by lia. lia.
Qed.

(** * The path builder *)

(** C1: for every [n >= 1], every [start] in [[0, n)] and every n-by-n
    pheromone matrix whose weights are positive at each selection step,
    a list that [generate_path] returns is a permutation of [[0, n)]: it
    has length [n], its values are distinct and in range, and its first
    element is [start].  The call does return when no weight exceeds
    [weight_bound], which keeps the cumulative sums of [random.choices]
    finite in floating point as they are here. *)
Theorem generate_path_permutation T n start pheromones g :
  1 <= n -> 0 <= start < n ->
  shape n n pheromones -> positive_weights n pheromones ->
  (forall path g',
     generate_path T n start pheromones g = Ok (path, g') ->
     is_permutation n path /\ len path = n /\ NoDup path /\
     Forall (fun v => 0 <= v < n) path /\ hd_error path = Some start) /\
  (bounded_weights n pheromones ->
   exists path g', generate_path T n start pheromones g = Ok (path, g')).
Proof.
  intros Hn Hs Hshape Hpos. split.
  - intros path g' Hrun.
    destruct (generate_path_inv T n start pheromones g path g' Hn Hs Hrun)
      as (Hlen & Hnd & Hr & Hhd).
    cbn [fst] in *. repeat split; try assumption.
    now apply NoDup_range_permutation.
  - intros _.
    destruct (generate_path_total T n start pheromones g Hn Hs Hshape Hpos)
      as (path & g' & Hrun & _).
    exists path, g'. exact Hrun.
Qed.

Lemma generate_path_permutation_witness :
  1 <= 4 /\ 0 <= 2 < 4 /\ shape 4 4 (all_ones 4) /\ positive_weights 4 (all_ones 4) /\
  bounded_weights 4 (all_ones 4) /\
  exists path g',
    generate_path sample_tapes 4 2 (all_ones 4) rng0 = Ok (path, g') /\
    is_permutation 4 path /\ len path = 4 /\ NoDup path /\
    Forall (fun v => 0 <= v < 4) path /\ hd_error path = Some 2.
Proof.
  assert (Hshape : shape 4 4 (all_ones 4)).
  { split; [reflexivity|repeat constructor]. }
  assert (Hcell : forall i j, 0 <= i < 4 -> 0 <= j < 4 ->
            entry (all_ones 4) i j = fl_one).
  { intros i j Hi Hj.
    assert (Hi' : i = 0 \/ i = 1 \/ i = 2 \/ i = 3) by lia.
    assert (Hj' : j = 0 \/ j = 1 \/ j = 2 \/ j = 3) by lia.
    destruct Hi' as [->|[->|[->| ->]]], Hj' as [->|[->|[->| ->]]]; reflexivity. }
  assert (Hpos : positive_weights 4 (all_ones 4)).
  { intros i j Hi Hj _. rewrite (Hcell i j Hi Hj). reflexivity. }
  assert (Hbound : bounded_weights 4 (all_ones 4)).
  { intros i j Hi Hj _. rewrite (Hcell i j Hi Hj). vm_compute. reflexivity. }
  assert (H1 : 1 <= 4) by lia.
  assert (H2 : 0 <= 2 < 4) by lia.
  split; [exact H1|]. split; [exact H2|]. split; [exact Hshape|].
  split; [exact Hpos|]. split; [exact Hbound|].
  destruct (generate_path_permutation sample_tapes 4 2 (all_ones 4) rng0
              H1 H2 Hshape Hpos) as [Hperm Htotal].
  destruct (Htotal Hbound) as (path & g' & Hrun).
  exists path, g'. split; [exact Hrun|exact (Hperm path g' Hrun)].
Defined.

Example generate_path_sample :
  generate_path sample_tapes 4 2 (all_ones 4) rng0
  = Ok ([2; 0; 1; 3], {| py_cursor := 2; np_cursor := 0; np_int_cursor := 0 |}).
Proof. vm_compute. reflexivity. Qed.

(** C9, as the source has it: [generate_path] checks neither [n] nor
    [start]; the only failure on their account is numpy's, when
    [n >= 2] and [start] is outside [[-n, n)], the indices that
    [np.delete] accepts. *)
Theorem generate_path_rejects_start T n start pheromones g :
  2 <= n -> start < - n \/ n <= start ->
  generate_path T n start pheromones g = Err IndexError.
Proof. apply generate_path_bad_start. Qed.

Lemma generate_path_rejects_start_witness :
  2 <= 3 /\ (7 < - 3 \/ 3 <= 7) /\
  generate_path sample_tapes 3 7 (all_ones 3) rng0 = Err IndexError.
Proof.
  split; [lia|]. split; [right; lia|].
  apply (generate_path_rejects_start sample_tapes 3 7 (all_ones 3) rng0);
    [lia|right; lia].
Defined.

(** C9 as stated fails: with [n = 0], with [n = 1] and [start = 5], and
    with [n = 3] and [start = -1] the call returns a path. *)
Lemma generate_path_accepts_bad_input :
  generate_path sample_tapes 0 0 [] rng0 = Ok ([0], rng0) /\
  generate_path sample_tapes 1 5 (all_ones 1) rng0 = Ok ([5], rng0) /\
  generate_path sample_tapes 3 (-1) (all_ones 3) rng0
  = Ok ([-1; 0; 1], {| py_cursor := 1; np_cursor := 0; np_int_cursor := 0 |}).
Proof. repeat split; vm_compute; reflexivity. Qed.

(** C10: at a selection step of [generate_path] (a round [i] with more
    than one node left, [1 < n - i]) where every candidate's pheromone
    weight is zero, the call raises [ValueError]: the weighted sampling
    rejects the zero total, there is no uniform fallback. *)
Theorem generate_path_zero_weights T n start pheromones g i path g1 :
  0 <= start < n -> shape n n pheromones -> 1 <= i -> 1 < n - i ->
  for_each (range 1 i) (generate_path_step T n pheromones (arange 0 n)) ([start], g)
    = Ok (path, g1) ->
  (forall c, 0 <= c < n -> ~ In c path -> entry pheromones (last path 0) c = fl_zero) ->
  (exists candidates,
     np_delete (arange 0 n) path = Ok candidates /\ len candidates = n - i) /\
  generate_path T n start pheromones g = Err ValueError.
Proof.
  intros Hs Hshape Hi Hmore Hprefix Hzero.
  pose proof (generate_path_prefix_inv T n start pheromones g i path g1 Hs Hi Hprefix)
    as Hinv.
  pose proof Hinv as (Hlen & Hnd & Hr & _). cbn [fst] in *. split.
  - exists (keep_from 0 (arange 0 n) path). split.
    + apply np_delete_nonneg. rewrite len_arange by lia. exact Hr.
    + rewrite candidates_count by (try assumption; lia). lia.
  - unfold generate_path. rewrite (range_split i n 1) by lia.
    rewrite for_each_app, Hprefix. cbn [bind].
    rewrite (range_cons i n) by lia. cbn [for_each].
    rewrite (generate_path_step_zero T n start pheromones i path g1 Hshape
               ltac:(lia) Hinv Hzero).
    reflexivity.
Qed.

Lemma generate_path_zero_weights_witness :
  0 <= 0 < 3 /\ shape 3 3 (all_zero 3) /\ 1 <= 1 /\ 1 < 3 - 1 /\
  for_each (range 1 1) (generate_path_step sample_tapes 3 (all_zero 3) (arange 0 3))
    ([0], rng0) = Ok ([0], rng0) /\
  (forall c, 0 <= c < 3 -> ~ In c [0] -> entry (all_zero 3) (last [0] 0) c = fl_zero) /\
  (exists candidates,
     np_delete (arange 0 3) [0] = Ok candidates /\ len candidates = 3 - 1) /\
  generate_path sample_tapes 3 0 (all_zero 3) rng0 = Err ValueError.
Proof.
  assert (Hshape : shape 3 3 (all_zero 3)).
  { split; [reflexivity|repeat constructor]. }
  assert (Hzero : forall c, 0 <= c < 3 -> ~ In c [0] ->
                            entry (all_zero 3) (last [0] 0) c = fl_zero).
  { intros c Hc _. assert (Hc' : c = 0 \/ c = 1 \/ c = 2) by lia.
    destruct Hc' as [->|[->| ->]]; reflexivity. }
  split; [lia|]. split; [exact Hshape|]. split; [lia|]. split; [lia|].
  split; [reflexivity|]. split; [exact Hzero|].
  apply (generate_path_zero_weights sample_tapes 3 0 (all_zero 3) rng0 1 [0] rng0);
    [lia|exact Hshape|lia|lia|reflexivity|exact Hzero].
Defined.

(** * The fitness *)

Lemma sumZ_bound {X} (term : X -> Z) (xs : list X) B :
  (forall x, In x xs -> - B <= term x <= B) ->
  - (len xs * B) <= sumZ (map term xs) <= len xs * B.
Proof.
  unfold len, sumZ. induction xs as [|x xs IH]; intros H; cbn [map fold_right length].
  - lia.
  - pose proof (H x (or_introl eq_refl)).
    pose proof (IH (fun y Hy => H y (or_intror Hy))). lia.
Qed.

Lemma icell_bound N (m : imatrix) B i j :
  shape N N m -> Forall (Forall (fun v => - B <= v <= B)) m ->
  0 <= i < N -> 0 <= j < N -> - B <= icell m i j <= B.
Proof.
  intros [Hrows Hcols] Hb Hi Hj. unfold icell.
  rewrite Forall_forall in Hb, Hcols. unfold len in *.
  assert (Hrow : In (nth (Z.to_nat i) m []) m) by (apply nth_In; lia).
  specialize (Hb _ Hrow). specialize (Hcols _ Hrow).
  rewrite Forall_forall in Hb. apply Hb, nth_In. lia.
Qed.

(** The cost of a path over matrices with entries in [[-D, D]] and
    [[-F, F]] is in [[-N*N*D*F, N*N*D*F]]. *)
Lemma qap_cost_bound N path d f D F :
  len path = N -> Forall (fun v => 0 <= v < N) path ->
  shape N N d -> shape N N f ->
  Forall (Forall (fun v => - D <= v <= D)) d ->
  Forall (Forall (fun v => - F <= v <= F)) f ->
  - (N * N * (D * F)) <= qap_cost N path d f <= N * N * (D * F).
Proof.
  intros Hlen Hr Hd Hf HD HF. unfold qap_cost.
  assert (HN : 0 <= N) by (unfold len in Hlen; lia).
  assert (Hrange : len (range 0 N) = N).
  { unfold len. rewrite length_range. lia. }
  pose proof (sumZ_bound (fun i =>
    sumZ (map (fun j => icell d i j * icell f (node_at path i) (node_at path j))
              (range 0 N))) (range 0 N) (N * (D * F))) as Hsum.
  rewrite Hrange in Hsum.
  replace (N * N * (D * F)) with (N * (N * (D * F))) by lia.
  apply Hsum. intros i Hi. apply in_range in Hi.
  pose proof (sumZ_bound
    (fun j => icell d i j * icell f (node_at path i) (node_at path j))
    (range 0 N) (D * F)) as Hrow.
  rewrite Hrange in Hrow. apply Hrow. intros j Hj. apply in_range in Hj.
  pose proof (icell_bound N d D i j Hd HD Hi Hj).
  destruct (path_node_at N path i Hr ltac:(lia)) as [_ Hpi].
  destruct (path_node_at N path j Hr ltac:(lia)) as [_ Hpj].
  pose proof (icell_bound N f F _ _ Hf HF Hpi Hpj). nia.
Qed.

(** C2, as the source has it: [d] and [f] are [int64] arrays, so for
    every permutation [path] of length [N] and N-by-N matrices [d] and
    [f], [get_fitness path d f] is the sum over all ordered pairs
    [(i, j)] of [d[i][j] * f[path[i]][path[j]]] reduced modulo [2^64]
    into the range of [int64]: [d] is indexed by the position in the
    path, [f] by the facility stored at that position.  It is the sum
    itself when that is in range, which it is when the entries are
    within [D] and [F] in absolute value and [N * N * D * F < 2^63]. *)
Theorem get_fitness_is_qap_cost N path d f :
  is_permutation N path -> shape N N d -> shape N N f ->
  int64_matrix d -> int64_matrix f ->
  get_fitness path d f = Ok (wrap64 (qap_cost N path d f)) /\
  (int64 (qap_cost N path d f) ->
   get_fitness path d f = Ok (qap_cost N path d f)) /\
  (forall D F,
     Forall (Forall (fun v => - D <= v <= D)) d ->
     Forall (Forall (fun v => - F <= v <= F)) f ->
     N * N * (D * F) < 2 ^ 63 ->
     get_fitness path d f = Ok (qap_cost N path d f)).
Proof.
  intros Hperm Hd Hf _ _.
  assert (Hlen : len path = N).
  { destruct (permutation_in_range N path Hperm) as [H|[H _]]; [exact H|].
    destruct Hd as [Hd _]. unfold len in Hd. lia. }
  pose proof (permutation_Forall N path Hperm) as Hr.
  pose proof (get_fitness_in_range N path d f Hlen Hr Hd Hf) as Hv.
  split; [exact Hv|]. split.
  - intros Hin. rewrite Hv, wrap64_small by exact Hin. reflexivity.
  - intros D F HD HF Hsmall.
    pose proof (qap_cost_bound N path d f D F Hlen Hr Hd Hf HD HF).
    rewrite Hv, wrap64_small by lia. reflexivity.
Qed.

Lemma get_fitness_is_qap_cost_witness :
  is_permutation 3 [2; 0; 1] /\
  shape 3 3 [[0; 1; 2]; [1; 0; 1]; [2; 1; 0]] /\
  shape 3 3 [[0; 5; 1]; [1; 0; 7]; [3; 1; 0]] /\
  int64_matrix [[0; 1; 2]; [1; 0; 1]; [2; 1; 0]] /\
  int64_matrix [[0; 5; 1]; [1; 0; 7]; [3; 1; 0]] /\
  get_fitness [2; 0; 1] [[0; 1; 2]; [1; 0; 1]; [2; 1; 0]] [[0; 5; 1]; [1; 0; 7]; [3; 1; 0]]
  = Ok (wrap64 (qap_cost 3 [2; 0; 1] [[0; 1; 2]; [1; 0; 1]; [2; 1; 0]]
                  [[0; 5; 1]; [1; 0; 7]; [3; 1; 0]])).
Proof.
  assert (Hperm : is_permutation 3 [2; 0; 1]).
  { apply NoDup_range_permutation.
    - repeat constructor; cbn; intuition lia.
    - reflexivity.
    - repeat constructor; lia. }
  assert (Hd : shape 3 3 [[0; 1; 2]; [1; 0; 1]; [2; 1; 0]]).
  { split; [reflexivity|repeat constructor]. }
  assert (Hf : shape 3 3 [[0; 5; 1]; [1; 0; 7]; [3; 1; 0]]).
  { split; [reflexivity|repeat constructor]. }
  assert (Hid : int64_matrix [[0; 1; 2]; [1; 0; 1]; [2; 1; 0]]).
  { repeat constructor; discriminate. }
  assert (Hif : int64_matrix [[0; 5; 1]; [1; 0; 7]; [3; 1; 0]]).
  { repeat constructor; discriminate. }
  split; [exact Hperm|]. split; [exact Hd|]. split; [exact Hf|].
  split; [exact Hid|]. split; [exact Hif|].
  exact (proj1 (get_fitness_is_qap_cost 3 [2; 0; 1] _ _ Hperm Hd Hf Hid Hif)).
Defined.

(** C2 as the specification words it, refuted: on the 1-by-1 arrays
    [[2^32]] the sum is [2^64] and [get_fitness] returns [0]. *)
Lemma get_fitness_overflows :
  is_permutation 1 [0] /\ shape 1 1 [[2 ^ 32]] /\ int64_matrix [[2 ^ 32]] /\
  get_fitness [0] [[2 ^ 32]] [[2 ^ 32]] = Ok 0 /\
  qap_cost 1 [0] [[2 ^ 32]] [[2 ^ 32]] = 2 ^ 64 /\
  get_fitness [0] [[2 ^ 32]] [[2 ^ 32]]
  <> Ok (qap_cost 1 [0] [[2 ^ 32]] [[2 ^ 32]]).
Proof.
  split; [apply Permutation_refl|]. split; [split; [reflexivity|repeat constructor]|].
  split; [repeat constructor; discriminate|].
  split; [reflexivity|]. split; [reflexivity|]. discriminate.
Qed.

Example get_fitness_sample :
  get_fitness [2; 0; 1] [[0; 1; 2]; [1; 0; 1]; [2; 1; 0]] [[0; 5; 1]; [1; 0; 7]; [3; 1; 0]]
  = Ok 26.
Proof. reflexivity. Qed.

(** * The deposit of a path *)

Lemma count_edge_pos path x :
  0 <= x -> x + 1 < len path ->
  (1 <= count_edge (node_at path x) (node_at path (x + 1)) path)%nat.
Proof.
  intros Hx Hlen. unfold count_edge, node_at, len in *.
  assert (Hin : In (nth (Z.to_nat x) (edges path) (0, 0))
                   (filter (fun e => (fst e =? nth (Z.to_nat x) path 0) &&
                                     (snd e =? nth (Z.to_nat (x + 1)) path 0))
                           (edges path))).
  { apply filter_In. split.
    - apply nth_In. rewrite length_edges. lia.
    - rewrite nth_edges by lia. cbn [fst snd].
      replace (Z.to_nat (x + 1)) with (S (Z.to_nat x)) by lia.
      now rewrite !Z.eqb_refl. }
  destruct (filter _ _); [contradiction|cbn; lia].
Qed.

(** C4: for every path of nodes (indices, hence non-negative) and every
    [n] at least as large as every entry plus one, [update_pheromones]
    returns an n-by-n matrix in which the cell [[a][b]] holds [oneover]
    added once per occurrence of the directed edge [(a, b)] in the path,
    by summation, and zero when the edge does not occur; consequently
    for a permutation path of length [n] the entries sum to
    [(n - 1) * oneover]. *)
Theorem update_pheromones_deposit oneover path n :
  0 <= n -> Forall (fun v => 0 <= v /\ v + 1 <= n) path ->
  exists p,
    update_pheromones oneover path n = Ok p /\ shape n n p /\
    (forall a b, 0 <= a < n -> 0 <= b < n ->
       entry p a b = add_times (count_edge a b path) oneover fl_zero) /\
    (forall a b, 0 <= a < n -> 0 <= b < n -> count_edge a b path = O ->
       entry p a b = fl_zero) /\
    (forall x, 0 <= x -> x + 1 < len path ->
       (1 <= count_edge (node_at path x) (node_at path (x + 1)) path)%nat) /\
    matrix_sum p = add_times (length path - 1) oneover fl_zero /\
    (is_permutation n path -> 1 <= n ->
       matrix_sum p = add_times (Z.to_nat (n - 1)) oneover fl_zero /\
       forall q, oneover = Fin q ->
                 matrix_sum p = Fin (Q2Qc (inject_Z (n - 1)) * q)%Qc).
Proof.
  intros Hn Hr.
  assert (Hr' : Forall (fun v => 0 <= v < n) path).
  { eapply Forall_impl; [|exact Hr]. cbn. intros v Hv. lia. }
  destruct (update_pheromones_in_range oneover path n Hn Hr')
    as (p & Hrun & Hs & Hent & Hsum).
  exists p. split; [exact Hrun|]. split; [exact Hs|]. split; [exact Hent|].
  split; [|split; [|split]].
  - intros a b Ha Hb Hcount. rewrite Hent by assumption. now rewrite Hcount.
  - intros x Hx Hlen. now apply count_edge_pos.
  - exact Hsum.
  - intros Hperm Hn1.
    destruct (permutation_in_range n path Hperm) as [Hlen|[Hneg _]]; [|lia].
    assert (Hk : (length path - 1)%nat = Z.to_nat (n - 1)) by (unfold len in Hlen; lia).
    rewrite Hsum, Hk. split; [reflexivity|].
    intros q ->. rewrite add_times_finite.
    replace (Z.of_nat (Z.to_nat (n - 1))) with (n - 1) by lia. reflexivity.
Qed.

Lemma update_pheromones_deposit_witness :
  0 <= 3 /\ Forall (fun v => 0 <= v /\ v + 1 <= 3) sample_walk /\
  exists p,
    update_pheromones (Fin half) sample_walk 3 = Ok p /\ shape 3 3 p /\
    (forall a b, 0 <= a < 3 -> 0 <= b < 3 ->
       entry p a b = add_times (count_edge a b sample_walk) (Fin half) fl_zero) /\
    (forall a b, 0 <= a < 3 -> 0 <= b < 3 -> count_edge a b sample_walk = O ->
       entry p a b = fl_zero) /\
    (forall x, 0 <= x -> x + 1 < len sample_walk ->
       (1 <= count_edge (node_at sample_walk x) (node_at sample_walk (x + 1))
               sample_walk)%nat) /\
    matrix_sum p = add_times (length sample_walk - 1) (Fin half) fl_zero /\
    (is_permutation 3 sample_walk -> 1 <= 3 ->
       matrix_sum p = add_times (Z.to_nat (3 - 1)) (Fin half) fl_zero /\
       forall q, Fin half = Fin q ->
                 matrix_sum p = Fin (Q2Qc (inject_Z (3 - 1)) * q)%Qc).
Proof.
  assert (Hr : Forall (fun v => 0 <= v /\ v + 1 <= 3) sample_walk)
    by (unfold sample_walk; repeat constructor; lia).
  split; [lia|]. split; [exact Hr|].
  apply (update_pheromones_deposit (Fin half) sample_walk 3); [lia|exact Hr].
Defined.

(** * One iteration *)

(** C5: at the end of every iteration the new pheromone matrix is
    [(old + deltas) * e], element-wise, where [deltas] is the sum of the
    deposits of that iteration's ants: every entry of the accumulator
    is the sum of the ants' deposits at that entry, the deposit comes
    first and the evaporation second.  With [e = 1] and all-zero deltas
    the matrix is unchanged. *)
Theorem deposit_then_evaporate T n d f start m e x st st' :
  iteration T n d f start m e x st = Ok st' ->
  exists zeros deposits,
    np_zeros n = Ok zeros /\ length deposits = Z.to_nat m /\
    Forall (is_deposit T n d f start (pheromones st)) deposits /\
    pheromone_update st' = fold_left np_add deposits zeros /\
    pheromones st' = np_scale (np_add (pheromones st) (pheromone_update st')) e /\
    (forall i j, 0 <= i < n -> 0 <= j < n ->
       entry (pheromone_update st') i j
       = fold_left fl_add (map (fun delta => entry delta i j) deposits) fl_zero) /\
    (shape n n (pheromones st) ->
       shape n n (pheromones st') /\
       forall i j, 0 <= i < n -> 0 <= j < n ->
         entry (pheromones st') i j
         = fl_mul (fl_add (entry (pheromones st) i j)
                     (fold_left fl_add (map (fun delta => entry delta i j) deposits)
                        fl_zero)) e) /\
    (shape n n (pheromones st) -> e = fl_one -> zero_matrix (pheromone_update st') ->
       pheromones st' = pheromones st).
Proof.
  intros Hit.
  destruct (iteration_inv _ _ _ _ _ _ _ _ _ _ Hit) as (zeros & st1 & Hz & Hloop & ->).
  destruct (ants_accumulate _ _ _ _ _ _ _ _ Hloop) as (Hph & _ & deps & Hlen & Hdeps & Hacc).
  cbn in Hph, Hdeps, Hacc. cbn [pheromones pheromone_update].
  unfold deposit_and_evaporate. rewrite Hph.
  assert (Hshapes : Forall (shape n n) deps).
  { eapply Forall_impl; [|exact Hdeps]. intros delta. apply is_deposit_shape. }
  destruct (np_zeros_nonneg _ _ Hz) as [_ Hsz].
  assert (Hsd : shape n n (pheromone_update st1)).
  { rewrite Hacc. now apply fold_np_add_shape. }
  assert (Hzero : forall i j, 0 <= i < n -> 0 <= j < n -> entry zeros i j = fl_zero).
  { intros i j Hi Hj.
    destruct (np_zeros_spec n ltac:(lia)) as (z & Hz' & Hs & Hall & _).
    rewrite Hz in Hz'. injection Hz' as <-.
    now apply (entry_Forall (fun c => c = fl_zero) n n). }
  assert (Hsum : forall i j, 0 <= i < n -> 0 <= j < n ->
            entry (pheromone_update st1) i j
            = fold_left fl_add (map (fun delta => entry delta i j) deps) fl_zero).
  { intros i j Hi Hj. rewrite Hacc.
    rewrite (fold_np_add_entry n deps i j Hi Hj Hshapes zeros Hsz).
    now rewrite Hzero. }
  exists zeros, deps. rewrite length_range, Z.sub_0_r in Hlen.
  split; [exact Hz|]. split; [exact Hlen|]. split; [exact Hdeps|].
  split; [exact Hacc|]. split; [reflexivity|]. split; [exact Hsum|]. split.
  - intros Hs. split.
    + now apply np_scale_shape, np_add_shape.
    + intros i j Hi Hj.
      rewrite (np_scale_entry n) by (try assumption; now apply np_add_shape).
      rewrite (np_add_entry n) by assumption. now rewrite Hsum.
  - intros Hs -> Hzm. rewrite np_scale_one. now apply (np_add_zero n).
Qed.

Lemma deposit_then_evaporate_witness :
  sample_iteration = Ok sample_after /\
  exists deposits,
    length deposits = 3%nat /\
    forall i j, 0 <= i < 2 -> 0 <= j < 2 ->
      entry (pheromones sample_after) i j
      = fl_mul (fl_add (entry (pheromones sample_state) i j)
                  (fold_left fl_add (map (fun delta => entry delta i j) deposits)
                     fl_zero)) (Fin half).
Proof.
  assert (H : sample_iteration = Ok sample_after) by (vm_compute; reflexivity).
  assert (Hs : shape 2 2 (pheromones sample_state)).
  { split; [reflexivity|repeat constructor]. }
  split; [exact H|].
  destruct (deposit_then_evaporate sample_tapes 2 (data_d pair_file) (data_f pair_file)
              0 3 (Fin half) 0 sample_state sample_after H)
    as (zeros & deposits & _ & Hlen & _ & _ & _ & _ & Hentry & _).
  exists deposits. split; [exact Hlen|]. exact (proj2 (Hentry Hs)).
Defined.

(** C8, as the source has it: a fitness of exactly [0] is not rejected.
    Its reciprocal evaluates to [+inf], the ant completes, and [+inf] is
    added to the deposit accumulator on every edge of the ant's path:
    the entry of the n-by-n accumulator at the edge becomes its old
    value plus [+inf], which is [+inf] unless the old value was [-inf]
    or [NaN]. *)
Theorem zero_fitness_deposits_infinity T n d f start y st path g' :
  1 <= n -> 0 <= start < n ->
  shape n n (pheromone_update st) ->
  generate_path T n start (pheromones st) (gen st) = Ok (path, g') ->
  get_fitness path d f = Ok 0 ->
  exists st' delta,
    ant T n d f start y st = Ok st' /\
    update_pheromones PInf path n = Ok delta /\
    pheromone_update st' = np_add (pheromone_update st) delta /\
    shape n n (pheromone_update st') /\
    (forall x, 0 <= x < n - 1 ->
       entry delta (node_at path x) (node_at path (x + 1)) = PInf) /\
    (forall x, 0 <= x < n - 1 ->
       entry (pheromone_update st') (node_at path x) (node_at path (x + 1))
       = fl_add (entry (pheromone_update st) (node_at path x) (node_at path (x + 1)))
           PInf /\
       (entry (pheromone_update st) (node_at path x) (node_at path (x + 1)) <> NInf ->
        entry (pheromone_update st) (node_at path x) (node_at path (x + 1)) <> NaN ->
        entry (pheromone_update st') (node_at path x) (node_at path (x + 1)) = PInf)) /\
    best_fitness st' = min_best (best_fitness st) 0 /\
    history st' = history st ++ [(0, min_best (best_fitness st) 0)].
Proof.
  intros Hn Hs Hacc Hgen Hfit.
  pose proof (generate_path_inv T n start _ _ _ _ Hn Hs Hgen) as (Hlen & _ & Hr & _).
  cbn [fst] in *.
  destruct (update_pheromones_in_range PInf path n ltac:(lia) Hr)
    as (delta & Hdelta & Hsd & Hent & _).
  assert (Hedge : forall x, 0 <= x < n - 1 ->
            entry delta (node_at path x) (node_at path (x + 1)) = PInf).
  { intros x Hx.
    destruct (path_node_at n path x Hr ltac:(lia)) as [_ Ha].
    destruct (path_node_at n path (x + 1) Hr ltac:(lia)) as [_ Hb].
    rewrite Hent by assumption.
    pose proof (count_edge_pos path x ltac:(lia) ltac:(lia)) as Hcount.
    destruct (count_edge _ _ path) as [|k]; [lia|]. apply add_times_infinity. }
  unfold ant. rewrite Hgen. cbn [bind]. rewrite Hfit. cbn [bind].
  change (reciprocal 0) with PInf. rewrite Hdelta. cbn [bind].
  eexists. exists delta. split; [reflexivity|].
  cbn [pheromone_update best_fitness history].
  split; [reflexivity|]. split; [reflexivity|].
  split; [now apply np_add_shape|]. split; [exact Hedge|].
  split; [|split; reflexivity].
  intros x Hx.
  destruct (path_node_at n path x Hr ltac:(lia)) as [_ Ha].
  destruct (path_node_at n path (x + 1) Hr ltac:(lia)) as [_ Hb].
  rewrite (np_add_entry n) by assumption. rewrite (Hedge x Hx).
  split; [reflexivity|].
  destruct (entry (pheromone_update st) _ _); intros H1 H2;
    try reflexivity; congruence.
Qed.

Lemma zero_fitness_deposits_infinity_witness :
  1 <= 2 /\ 0 <= 0 < 2 /\
  shape 2 2 (pheromone_update sample_ant_state) /\
  generate_path sample_tapes 2 0 (pheromones sample_ant_state) (gen sample_ant_state)
  = Ok ([0; 1], rng0) /\
  get_fitness [0; 1] (data_d zero_distance_file) (data_f zero_distance_file) = Ok 0 /\
  exists st',
    ant sample_tapes 2 (data_d zero_distance_file) (data_f zero_distance_file) 0 0
      sample_ant_state = Ok st' /\
    shape 2 2 (pheromone_update st') /\
    entry (pheromone_update st') 0 1 = PInf.
Proof.
  assert (H1 : 1 <= 2) by lia.
  assert (H2 : 0 <= 0 < 2) by lia.
  assert (Hs : shape 2 2 (pheromone_update sample_ant_state)).
  { split; [reflexivity|repeat constructor]. }
  assert (Hg : generate_path sample_tapes 2 0 (pheromones sample_ant_state)
                 (gen sample_ant_state) = Ok ([0; 1], rng0)) by reflexivity.
  assert (Hf : get_fitness [0; 1] (data_d zero_distance_file)
                 (data_f zero_distance_file) = Ok 0) by reflexivity.
  split; [exact H1|]. split; [exact H2|]. split; [exact Hs|].
  split; [exact Hg|]. split; [exact Hf|].
  destruct (zero_fitness_deposits_infinity sample_tapes 2
              (data_d zero_distance_file) (data_f zero_distance_file) 0 0
              sample_ant_state [0; 1] rng0 H1 H2 Hs Hg Hf)
    as (st' & delta & Hant & _ & _ & Hshape & _ & Hentry & _).
  exists st'. split; [exact Hant|]. split; [exact Hshape|].
  destruct (Hentry 0 ltac:(lia)) as [_ Hinf].
  apply Hinf; discriminate.
Defined.

(** C8 as stated fails: on [zero_distance_file] every ant has fitness
    [0], yet the run of 5001 ants returns, with [+inf] in the
    accumulator and a best fitness of [0]. *)
Lemma zero_fitness_run_completes :
  exists st, main_state sample_tapes zero_distance_file 5001 fl_one rng0 = Ok st /\
             In 0 (map fst (history st)) /\
             In PInf (concat (pheromone_update st)) /\
             best_fitness st = Fitness 0.
Proof.
  assert (H : match main_state sample_tapes zero_distance_file 5001 fl_one rng0 with
              | Ok st => existsb (Z.eqb 0) (map fst (history st)) &&
                         existsb is_pinf (concat (pheromone_update st)) &&
                         match best_fitness st with Fitness 0 => true | _ => false end
              | Err _ => false
              end = true) by (vm_compute; reflexivity).
  destruct (main_state sample_tapes zero_distance_file 5001 fl_one rng0) as [st|];
    [|discriminate].
  exists st. split; [reflexivity|].
  apply andb_prop in H. destruct H as [H Hbest].
  apply andb_prop in H. destruct H as [Hfit Hinf].
  apply existsb_exists in Hfit. destruct Hfit as (v & Hv & Ev).
  apply Z.eqb_eq in Ev. subst v.
  apply existsb_exists in Hinf. destruct Hinf as (c & Hc & Ec).
  destruct c; try discriminate.
  destruct (best_fitness st) as [|[| |]]; try discriminate. auto.
Qed.

(** * Whole runs: lengths, best fitness, non-negative pheromones *)

Lemma sample_tapes_positive k : fl_positive (Fin (np_uniform sample_tapes k)).
Proof. cbn. qc_to_q. reflexivity. Qed.

Lemma sample_tapes_unit k : unit_interval (Fin (np_uniform sample_tapes k)).
Proof.
  cbn. qc_to_q. split; [discriminate|].
  unfold Qlt. cbn. lia.
Qed.

Lemma unit_file_fitness : fitness_positive 1 [[1]] [[1]].
Proof.
  intros path v Hperm Hv. unfold is_permutation in Hperm.
  change (arange 0 1) with [0] in Hperm.
  apply Permutation_sym, Permutation_length_1_inv in Hperm. subst path.
  vm_compute in Hv. injection Hv as <-. lia.
Qed.

Lemma pair_file_fitness : fitness_positive 2 [[1; 1]; [1; 1]] [[1; 1]; [1; 1]].
Proof.
  intros path v Hperm Hv. unfold is_permutation in Hperm.
  change (arange 0 2) with [0; 1] in Hperm.
  apply Permutation_sym, Permutation_length_2_inv in Hperm.
  destruct Hperm as [-> | ->]; vm_compute in Hv; injection Hv as <-; lia.
Qed.

Lemma unit_file_well_formed : well_formed sample_tapes unit_file 3 fl_one.
Proof.
  constructor; cbn.
  - lia.
  - split; [reflexivity|repeat constructor].
  - split; [reflexivity|repeat constructor].
  - exact unit_file_fitness.
  - exact sample_tapes_positive.
  - lia.
  - reflexivity.
Qed.

Lemma pair_file_well_formed : well_formed sample_tapes pair_file 3 (Fin half).
Proof.
  constructor; cbn.
  - lia.
  - split; [reflexivity|repeat constructor].
  - split; [reflexivity|repeat constructor].
  - exact pair_file_fitness.
  - exact sample_tapes_positive.
  - lia.
  - reflexivity.
Qed.

(** C3, as the source has it: for [m >= 1] a run that returns has
    [floor(10000 / m)] mean values, [int(10000/m)] truncating; this is
    [ceil(10000 / m)] when [m] divides 10000.  [experiments] produces 5
    such series and 5 best-fitness values.  On data with two
    locations, where no ant can fail, both return. *)
Theorem series_lengths T file m e g :
  1 <= m ->
  (forall res g', main T file m e g = Ok (res, g') -> len (fst res) = 10000 / m) /\
  (forall rep g', experiments T file m e g = Ok (rep, g') ->
     length (csv_rows rep) = 5%nat /\ length (printed_best rep) = 5%nat /\
     Forall (fun series => len series = 10000 / m) (csv_rows rep) /\
     csv_header rep = range 0 (10000 / m)) /\
  (10000 mod m = 0 -> 10000 / m = ceil_iterations m) /\
  (data_n file = 2 -> shape 2 2 (data_d file) -> shape 2 2 (data_f file) ->
     (exists res g', main T file m e g = Ok (res, g')) /\
     (exists rep g', experiments T file m e g = Ok (rep, g'))).
Proof.
  intros Hm. split; [|split; [|split]].
  - intros res g'. now apply main_length.
  - intros rep g'. now apply experiments_lengths.
  - intros Hdiv. symmetry. now apply ceil_iterations_exact.
  - intros Hn Hd Hf. split.
    + apply two_location_main; auto; lia.
    + apply two_location_experiments; auto; lia.
Qed.

Lemma series_lengths_witness :
  1 <= 3 /\
  exists rep g',
    experiments sample_tapes pair_file 3 (Fin half) rng0 = Ok (rep, g') /\
    length (csv_rows rep) = 5%nat /\ length (printed_best rep) = 5%nat /\
    Forall (fun series => len series = 3333) (csv_rows rep).
Proof.
  assert (Hm : 1 <= 3) by lia.
  assert (Hd : shape 2 2 (data_d pair_file)) by (split; [reflexivity|repeat constructor]).
  assert (Hf : shape 2 2 (data_f pair_file)) by (split; [reflexivity|repeat constructor]).
  destruct (series_lengths sample_tapes pair_file 3 (Fin half) rng0 Hm)
    as (_ & Hexp & _ & Htotal).
  destruct (proj2 (Htotal eq_refl Hd Hf)) as (rep & g' & Hrun).
  destruct (Hexp rep g' Hrun) as (Hrows & Hbest & Hlen & _).
  split; [exact Hm|]. exists rep, g'.
  split; [exact Hrun|]. split; [exact Hrows|]. split; [exact Hbest|exact Hlen].
Defined.

(** C3 as stated fails: with [m = 3] the run has 3333 mean values, not
    [ceil(10000 / 3) = 3334]. *)
Lemma main_truncates_iterations :
  exists avgs b g',
    main sample_tapes unit_file 3 fl_one rng0 = Ok ((avgs, b), g') /\
    len avgs = 3333 /\ ceil_iterations 3 = 3334 /\ len avgs <> ceil_iterations 3.
Proof.
  destruct (main_total sample_tapes unit_file 3 fl_one rng0 unit_file_well_formed)
    as ([avgs b] & g' & Hmain).
  exists avgs, b, g'. split; [exact Hmain|].
  assert (Hm : 1 <= 3) by lia.
  pose proof (main_length sample_tapes unit_file 3 fl_one rng0 _ _ Hm Hmain) as Hlen.
  cbn [fst] in Hlen. change (10000 / 3) with 3333 in Hlen.
  change (ceil_iterations 3) with 3334. rewrite Hlen. repeat split; lia.
Qed.

(** C6: within a run of [main] the best fitness starts at [+inf], is
    only ever replaced by a strictly smaller fitness, so it is
    non-increasing over the sequence of ant evaluations, and the value
    returned is the minimum fitness over all the ants evaluated. *)
Theorem best_fitness_monotone T file m e g st :
  main_state T file m e g = Ok st ->
  main T file m e g = Ok ((average_fitness_list st, best_fitness st), gen st) /\
  improves Infinity (history st) /\
  Sorted (fun a b => best_le b a) (Infinity :: map snd (history st)) /\
  best_fitness st = last (map snd (history st)) Infinity /\
  (forall v, In v (map fst (history st)) -> best_le (best_fitness st) (Fitness v)) /\
  (history st = [] -> best_fitness st = Infinity) /\
  (history st <> [] ->
     exists v, In v (map fst (history st)) /\ best_fitness st = Fitness v) /\
  (1 <= m -> len (history st) = 10000 / m * m).
Proof.
  intros Hst.
  assert (Hok : history_ok (best_fitness st) (history st)).
  { destruct (main_state_inv _ _ _ _ _ _ Hst)
      as (ph0 & g1 & its & start & g2 & _ & _ & _ & Hrun).
    apply (run_ghost _ _ _ _ _ _ _ history_ok _ _ _ history_ok_snoc Hrun).
    split; reflexivity. }
  destruct Hok as [Hh Hb].
  set (fits := map fst (history st)) in *.
  assert (Hfold : best_fitness st = fold_left min_best fits Infinity).
  { rewrite Hb, Hh at 1. apply last_replay_fold. }
  split; [unfold main; rewrite Hst; reflexivity|].
  split; [rewrite Hh; apply improves_replay|].
  split; [rewrite Hh; apply replay_sorted|].
  split; [exact Hb|].
  split; [intros v Hv; rewrite Hfold; now apply fold_min_best_lower|].
  split; [intros Hnil; rewrite Hb, Hnil; reflexivity|].
  split.
  - intros Hne. destruct (fold_min_best_attained fits Infinity) as [E|(v & Hv & E)].
    + exfalso. destruct fits as [|v fits'] eqn:Efits.
      * apply Hne. unfold fits in Efits. now destruct (history st).
      * pose proof (fold_min_best_lower (v :: fits') Infinity v (or_introl eq_refl)) as Hle.
        rewrite E in Hle. exact Hle.
    + exists v. split; [exact Hv|]. now rewrite Hfold.
  - intros Hm. now apply (main_state_lengths T file m e g).
Qed.

Lemma best_fitness_monotone_witness :
  exists st,
    main_state sample_tapes pair_file 3 (Fin half) rng0 = Ok st /\
    main sample_tapes pair_file 3 (Fin half) rng0
    = Ok ((average_fitness_list st, best_fitness st), gen st) /\
    improves Infinity (history st) /\
    Sorted (fun a b => best_le b a) (Infinity :: map snd (history st)) /\
    len (history st) = 9999.
Proof.
  destruct (main_state_total sample_tapes pair_file 3 (Fin half) rng0
              pair_file_well_formed) as [st H].
  destruct (best_fitness_monotone sample_tapes pair_file 3 (Fin half) rng0 st H)
    as (Hmain & Himp & Hsorted & _ & _ & _ & _ & Hlen).
  exists st. split; [exact H|]. split; [exact Hmain|]. split; [exact Himp|].
  split; [exact Hsorted|]. apply Hlen. lia.
Defined.

(** C7: with [e] in [(0, 1]] and all fitness values strictly positive,
    every entry of the pheromone matrix is non-negative after every
    iteration: the initial values are in [[0, 1)], every deposit is
    non-negative, and evaporation multiplies by a non-negative factor. *)
Theorem pheromones_stay_nonnegative T file m q g ph0 g1 start g2 :
  (forall k, unit_interval (Fin (np_uniform T k))) ->
  (0 < q /\ q <= 1)%Qc ->
  fitness_positive (data_n file) (data_d file) (data_f file) ->
  np_random_rand T (data_n file) g = Ok (ph0, g1) ->
  np_random_randint T 0 (data_n file) g1 = Ok (start, g2) ->
  Forall (Forall unit_interval) ph0 /\
  (forall M delta,
     is_deposit T (data_n file) (data_d file) (data_f file) start M delta ->
     nonneg_matrix delta) /\
  (forall p, nonneg_matrix p -> nonneg_matrix (np_scale p (Fin q))) /\
  (forall k st,
     run T (data_n file) (data_d file) (data_f file) start m (Fin q) k
       (init_state ph0 g2) = Ok st ->
     nonneg_matrix (pheromones st)) /\
  (forall st, main_state T file m (Fin q) g = Ok st -> nonneg_matrix (pheromones st)).
Proof.
  intros HT [Hq _] Hfit Hrand Hint.
  destruct (np_random_rand_spec T unit_interval _ _ _ _ HT Hrand) as [_ Hunit].
  destruct (np_random_randint_spec T _ _ _ _ Hint) as [Hn Hstart].
  assert (Hq0 : (0 <= q)%Qc) by now apply Qclt_le_weak.
  assert (Hinit : nonneg_matrix ph0).
  { eapply Forall_impl; [|exact Hunit]. intros row Hrow.
    eapply Forall_impl; [|exact Hrow]. apply unit_interval_nonneg. }
  assert (Hrun : forall k st,
             run T (data_n file) (data_d file) (data_f file) start m (Fin q) k
               (init_state ph0 g2) = Ok st ->
             nonneg_matrix (pheromones st)).
  { intros k st Hk.
    apply (run_nonneg T _ _ _ start m q Hn Hstart Hfit Hq0 k _ st Hk). exact Hinit. }
  split; [exact Hunit|]. split; [|split; [|split; [exact Hrun|]]].
  - intros M delta. now apply is_deposit_nonneg.
  - intros p Hp. apply (np_scale_Forall fl_nonneg); [|exact Hp].
    intros a Ha. now apply fl_mul_nonneg.
  - intros st Hst.
    destruct (main_state_inv _ _ _ _ _ _ Hst)
      as (ph0' & g1' & its & start' & g2' & Hrand' & _ & Hint' & Hrun').
    rewrite Hrand in Hrand'. injection Hrand' as <- <-.
    rewrite Hint in Hint'. injection Hint' as <- <-.
    eapply Hrun; eauto.
Qed.

Lemma pheromones_stay_nonnegative_witness :
  (forall k, unit_interval (Fin (np_uniform sample_tapes k))) /\
  (0 < half /\ half <= 1)%Qc /\
  fitness_positive (data_n pair_file) (data_d pair_file) (data_f pair_file) /\
  np_random_rand sample_tapes (data_n pair_file) rng0
  = Ok (fst sample_rand, snd sample_rand) /\
  np_random_randint sample_tapes 0 (data_n pair_file) (snd sample_rand)
  = Ok (fst sample_randint, snd sample_randint) /\
  Forall (Forall unit_interval) (fst sample_rand) /\
  (forall k st,
     run sample_tapes (data_n pair_file) (data_d pair_file) (data_f pair_file)
       (fst sample_randint) 3 (Fin half) k
       (init_state (fst sample_rand) (snd sample_randint)) = Ok st ->
     nonneg_matrix (pheromones st)).
Proof.
  assert (Hq : (0 < half /\ half <= 1)%Qc) by (split; [reflexivity|discriminate]).
  assert (Hrand : np_random_rand sample_tapes (data_n pair_file) rng0
                  = Ok (fst sample_rand, snd sample_rand)) by (vm_compute; reflexivity).
  assert (Hint : np_random_randint sample_tapes 0 (data_n pair_file) (snd sample_rand)
                 = Ok (fst sample_randint, snd sample_randint))
    by (vm_compute; reflexivity).
  split; [exact sample_tapes_unit|]. split; [exact Hq|].
  split; [exact pair_file_fitness|]. split; [exact Hrand|]. split; [exact Hint|].
  destruct (pheromones_stay_nonnegative sample_tapes pair_file 3 half rng0
              (fst sample_rand) (snd sample_rand) (fst sample_randint) (snd sample_randint)
              sample_tapes_unit Hq pair_file_fitness Hrand Hint)
    as (Hinit & _ & _ & Hrun & _).
  split; [exact Hinit|exact Hrun].
Defined.

(** * More on the path builder *)

Lemma for_each_sim {X S1 S2} (R : S1 -> S2 -> Prop)
  (body1 : X -> S1 -> result S1) (body2 : X -> S2 -> result S2) xs :
  (forall x s1 s2, In x xs -> R s1 s2 ->
     match body1 x s1, body2 x s2 with
     | Ok a, Ok b => R a b
     | Err e1, Err e2 => e1 = e2
     | _, _ => False
     end) ->
  forall s1 s2, R s1 s2 ->
  match for_each xs body1 s1, for_each xs body2 s2 with
  | Ok a, Ok b => R a b
  | Err e1, Err e2 => e1 = e2
  | _, _ => False
  end.
Proof.
  induction xs as [|x xs IH]; intros Hstep s1 s2 HR; cbn [for_each]; [exact HR|].
  pose proof (Hstep x s1 s2 (or_introl eq_refl) HR) as Hx.
  destruct (body1 x s1) as [a|e1], (body2 x s2) as [b|e2]; cbn [bind];
    try contradiction; [|exact Hx].
  apply IH; [|exact Hx]. intros y t1 t2 Hy. apply Hstep. now right.
Qed.

Lemma index_wrap {A} (l : list A) N k :
  len l = N -> - N <= k < 0 -> index l k = index l (k + N).
Proof.
  intros <- Hk. unfold index.
  rewrite !(proj2 (valid_index_iff _ _)) by lia.
  unfold norm_index.
  destruct (Z.ltb_spec k 0); [|lia].
  destruct (Z.ltb_spec (k + len l) 0); [lia|]. reflexivity.
Qed.

Lemma norm_index_wrap N k : - N <= k < 0 -> norm_index N (k + N) = norm_index N k.
Proof.
  intros Hk. unfold norm_index.
  destruct (Z.ltb_spec k 0); [|lia].
  destruct (Z.ltb_spec (k + N) 0); [lia|]. reflexivity.
Qed.

(** [np.delete] does not tell a negative first index from its wrapped
    value. *)
Lemma np_delete_wrap {A} (arr : list A) N k rest :
  len arr = N -> - N <= k < 0 ->
  np_delete arr (k :: rest) = np_delete arr ((k + N) :: rest).
Proof.
  intros <- Hk. unfold np_delete. cbn [forallb map].
  rewrite !(proj2 (valid_index_iff (len arr) _)) by lia.
  now rewrite norm_index_wrap.
Qed.

(** X1: for [n >= 1] and [start] in [[0, n)], whatever the pheromone
    matrix holds (zero, negative, infinite weights, any shape), a path
    that [generate_path] returns is a permutation of [[0, n)] that
    begins with [start]: bad weights can make the call raise, never
    make it return a wrong path. *)
Theorem generate_path_only_permutations T n start pheromones g path g' :
  1 <= n -> 0 <= start < n ->
  generate_path T n start pheromones g = Ok (path, g') ->
  is_permutation n path /\ len path = n /\ hd_error path = Some start.
Proof.
  intros Hn Hs Hrun.
  destruct (generate_path_inv T n start pheromones g path g' Hn Hs Hrun)
    as (Hlen & Hnd & Hr & Hhd).
  cbn [fst] in *. split; [|split; assumption].
  now apply NoDup_range_permutation.
Qed.

Lemma generate_path_only_permutations_witness :
  1 <= 3 /\ 0 <= 1 < 3 /\
  generate_path sample_tapes 3 1 [[NaN; PInf; fl_one]; [fl_one; NInf; fl_one]; []] rng0
  = Ok ([1; 0; 2], {| py_cursor := 1; np_cursor := 0; np_int_cursor := 0 |}) /\
  is_permutation 3 [1; 0; 2] /\ len [1; 0; 2] = 3 /\ hd_error [1; 0; 2] = Some 1.
Proof.
  assert (H : generate_path sample_tapes 3 1
                [[NaN; PInf; fl_one]; [fl_one; NInf; fl_one]; []] rng0
              = Ok ([1; 0; 2], {| py_cursor := 1; np_cursor := 0; np_int_cursor := 0 |}))
    by (vm_compute; reflexivity).
  split; [lia|]. split; [lia|]. split; [exact H|].
  assert (H1 : 1 <= 3) by lia. assert (H2 : 0 <= 1 < 3) by lia.
  exact (generate_path_only_permutations sample_tapes 3 1 _ rng0 _ _ H1 H2 H).
Defined.

(** X2: a call of [generate_path] that returns has drawn exactly
    [max(0, n - 2)] values from [random.random()], one for each round
    but the last, and has not touched numpy's generator. *)
Theorem generate_path_draws T n start pheromones g path g' :
  generate_path T n start pheromones g = Ok (path, g') ->
  py_cursor g' = (py_cursor g + Z.to_nat (n - 2))%nat /\
  np_cursor g' = np_cursor g /\ np_int_cursor g' = np_int_cursor g.
Proof.
  intros Hrun. destruct (Z.le_gt_cases n 1) as [Hn|Hn].
  { rewrite generate_path_small in Hrun by exact Hn. injection Hrun as <- <-.
    repeat split. lia. }
  unfold generate_path in Hrun.
  apply (for_range_partial
           (fun i (s : list Z * rng) =>
              1 <= i /\
              py_cursor (snd s) = (py_cursor g + Z.to_nat (Z.min (i - 1) (n - 2)))%nat /\
              np_cursor (snd s) = np_cursor g /\
              np_int_cursor (snd s) = np_int_cursor g)) in Hrun.
  - cbn [snd] in Hrun. destruct Hrun as (_ & Hpy & Hnp & Hint).
    rewrite Hpy. repeat split; try assumption. lia.
  - intros i [p gi] [p' gi'] Hi (Hi1 & Hpy & Hnp & Hint). cbn [snd] in *.
    unfold generate_path_step, next_random.
    destruct (np_delete _ p) as [next_nodes|]; cbn [bind]; [|discriminate].
    destruct (Z.eqb_spec i (n - 1)) as [Ei|Ei].
    + destruct (index next_nodes 0); cbn [bind]; [|discriminate].
      intros [= <- <-]. repeat split; try assumption; lia.
    + destruct (index p (-1)) as [last_node|]; cbn [bind]; [|discriminate].
      destruct (index pheromones last_node) as [row|]; cbn [bind]; [|discriminate].
      destruct (np_delete row p) as [ws|]; cbn [bind]; [|discriminate].
      destruct (random_choices _ ws _); cbn [bind]; [|discriminate].
      intros [= <- <-]. cbn [py_cursor np_cursor np_int_cursor].
      repeat split; try assumption; lia.
  - lia.
  - cbn. repeat split; lia.
Qed.

Lemma generate_path_draws_witness :
  generate_path sample_tapes 4 2 (all_ones 4) rng0
  = Ok ([2; 0; 1; 3], {| py_cursor := 2; np_cursor := 0; np_int_cursor := 0 |}) /\
  (2 = 0 + Z.to_nat (4 - 2))%nat.
Proof.
  assert (H : generate_path sample_tapes 4 2 (all_ones 4) rng0
              = Ok ([2; 0; 1; 3], {| py_cursor := 2; np_cursor := 0; np_int_cursor := 0 |}))
    by (vm_compute; reflexivity).
  split; [exact H|].
  exact (proj1 (generate_path_draws sample_tapes 4 2 (all_ones 4) rng0 _ _ H)).
Defined.

(** X3: with two nodes the pheromones are never read: for [start] in
    [{0, 1}] the path is [[start, 1 - start]], no random value is
    drawn and no matrix, however malformed, makes the call fail. *)
Theorem generate_path_two_nodes T start pheromones g :
  0 <= start < 2 ->
  generate_path T 2 start pheromones g = Ok ([start; 1 - start], g).
Proof.
  intros Hs. assert (Hc : start = 0 \/ start = 1) by lia.
  destruct Hc as [-> | ->]; reflexivity.
Qed.

Lemma generate_path_two_nodes_witness :
  0 <= 1 < 2 /\ generate_path sample_tapes 2 1 [] rng0 = Ok ([1; 1 - 1], rng0).
Proof.
  split; [lia|]. apply (generate_path_two_nodes sample_tapes 1 [] rng0). lia.
Defined.

(** X4: a negative [start] in [[-n, 0)] is taken as numpy takes a
    negative index: on an n-by-n matrix the call does what it does for
    [start + n], same draws, same error if any, and returns the same
    path but for its first element, which stays [start]. *)
Theorem generate_path_negative_start T n start pheromones g :
  - n <= start < 0 -> shape n n pheromones ->
  generate_path T n start pheromones g
  = match generate_path T n (start + n) pheromones g with
    | Ok (path, g') => Ok (start :: tl path, g')
    | Err e => Err e
    end.
Proof.
  intros Hs Hshape.
  set (R := fun (s1 s2 : list Z * rng) =>
              snd s1 = snd s2 /\
              exists rest, fst s1 = start :: rest /\ fst s2 = (start + n) :: rest).
  assert (Hn : len (arange 0 n) = n) by (apply len_arange; lia).
  assert (Hstep : forall i s1 s2, In i (range 1 n) -> R s1 s2 ->
             match generate_path_step T n pheromones (arange 0 n) i s1,
                   generate_path_step T n pheromones (arange 0 n) i s2 with
             | Ok a, Ok b => R a b
             | Err e1, Err e2 => e1 = e2
             | _, _ => False
             end).
  { (* one round *)
    intros i [p1 g1] [p2 g2] _ (Hg & rest & Hp1 & Hp2). cbn [fst snd] in *.
    subst g2 p1 p2. unfold generate_path_step, next_random.
    rewrite <- (np_delete_wrap (arange 0 n) n start rest Hn Hs).
    destruct (np_delete (arange 0 n) (start :: rest)) as [next_nodes|];
      cbn [bind]; [|reflexivity].
    destruct (i =? n - 1).
    + destruct (index next_nodes 0) as [c|]; cbn [bind]; [|reflexivity].
      split; [reflexivity|]. exists (rest ++ [c]). split; reflexivity.
    + assert (Hrow : forall last_node,
                match (row <- index pheromones last_node ;;
                       next_pheromones <- np_delete row (start :: rest) ;;
                       choice <- random_choices next_nodes next_pheromones
                                   (Fin (py_random T (py_cursor g1))) ;;
                       Ok ((start :: rest) ++ [choice],
                           {| py_cursor := S (py_cursor g1);
                              np_cursor := np_cursor g1;
                              np_int_cursor := np_int_cursor g1 |})),
                      (row <- index pheromones last_node ;;
                       next_pheromones <- np_delete row ((start + n) :: rest) ;;
                       choice <- random_choices next_nodes next_pheromones
                                   (Fin (py_random T (py_cursor g1))) ;;
                       Ok (((start + n) :: rest) ++ [choice],
                           {| py_cursor := S (py_cursor g1);
                              np_cursor := np_cursor g1;
                              np_int_cursor := np_int_cursor g1 |}))
                with
                | Ok a, Ok b => R a b
                | Err e1, Err e2 => e1 = e2
                | _, _ => False
                end).
      { intros last_node.
        destruct (index pheromones last_node) as [row|] eqn:Erow; cbn [bind];
          [|reflexivity].
        assert (Hlen : len row = n).
        { destruct Hshape as [_ Hrows]. rewrite Forall_forall in Hrows.
          apply Hrows. eapply index_In; eauto. }
        rewrite <- (np_delete_wrap row n start rest Hlen Hs).
        destruct (np_delete row (start :: rest)) as [ws|]; cbn [bind]; [|reflexivity].
        destruct (random_choices next_nodes ws _) as [c|]; cbn [bind]; [|reflexivity].
        split; [reflexivity|]. exists (rest ++ [c]). split; reflexivity. }
      destruct rest as [|v rest'].
      * (* the last node is the start itself *)
        change (index [start] (-1)) with (Ok (A := Z) start).
        change (index [start + n] (-1)) with (Ok (A := Z) (start + n)).
        cbn [bind].
        destruct Hshape as [HlenM Hrows].
        specialize (Hrow (start + n)).
        rewrite <- (index_wrap pheromones n start HlenM Hs) in Hrow.
        rewrite <- (index_wrap pheromones n start HlenM Hs). exact Hrow.
      * assert (Hlast : index (start :: v :: rest') (-1)
                        = index ((start + n) :: v :: rest') (-1)).
        { rewrite (index_minus_one (start :: v :: rest') 0) by discriminate.
          rewrite (index_minus_one ((start + n) :: v :: rest') 0) by discriminate.
          reflexivity. }
        rewrite Hlast.
        destruct (index ((start + n) :: v :: rest') (-1)) as [last_node|];
          cbn [bind]; [|reflexivity].
        apply Hrow. }
  assert (Hinit : R ([start], g) ([start + n], g)).
  { split; [reflexivity|]. exists []. split; reflexivity. }
  pose proof (for_each_sim R _ _ (range 1 n) Hstep _ _ Hinit) as Hsim.
  unfold generate_path.
  destruct (for_each (range 1 n) _ ([start], g)) as [[p1 g1]|e1],
           (for_each (range 1 n) _ ([start + n], g)) as [[p2 g2]|e2];
    try contradiction.
  - destruct Hsim as (Hg & rest & Hp1 & Hp2). cbn [fst snd] in *. now subst.
  - now subst.
Qed.

Lemma generate_path_negative_start_witness :
  - 3 <= -1 < 0 /\ shape 3 3 (all_ones 3) /\
  generate_path sample_tapes 3 (-1) (all_ones 3) rng0
  = match generate_path sample_tapes 3 (-1 + 3) (all_ones 3) rng0 with
    | Ok (path, g') => Ok (-1 :: tl path, g')
    | Err e => Err e
    end.
Proof.
  assert (Hshape : shape 3 3 (all_ones 3)).
  { split; [reflexivity|repeat constructor]. }
  split; [lia|]. split; [exact Hshape|].
  apply (generate_path_negative_start sample_tapes 3 (-1) (all_ones 3) rng0);
    [lia|exact Hshape].
Defined.

(** * More on the fitness *)

Lemma for_each_error {X S} (P : exn -> Prop) (body : X -> S -> result S) xs :
  (forall x s e, In x xs -> body x s = Err e -> P e) ->
  forall st e, for_each xs body st = Err e -> P e.
Proof.
  induction xs as [|x xs IH]; intros Hbody st e; cbn [for_each]; [discriminate|].
  destruct (body x st) as [s1|e1] eqn:Hb; cbn [bind].
  - apply IH. intros y s e' Hy. apply Hbody. now right.
  - intros [= <-]. eapply Hbody; eauto. now left.
Qed.

(** Every round of a loop that returns has returned. *)
Lemma for_each_rounds {X S} (body : X -> S -> result S) xs :
  forall st st', for_each xs body st = Ok st' ->
  forall x, In x xs -> exists s s', body x s = Ok s'.
Proof.
  induction xs as [|x xs IH]; intros st st'; cbn [for_each]; [intros _ y []|].
  destruct (body x st) as [s1|] eqn:Hb; cbn [bind]; [|discriminate].
  intros Hrun y [<-|Hy]; [eauto|]. eapply IH; eauto.
Qed.

Lemma index_error {A} (l : list A) k e : index l k = Err e -> e = IndexError.
Proof.
  unfold index. destruct (valid_index _ _); [|now intros [= <-]].
  destruct (nth_error _ _); [discriminate|now intros [= <-]].
Qed.

Lemma get_fitness_error_kind path d f e :
  get_fitness path d f = Err e -> e = IndexError.
Proof.
  unfold get_fitness. revert e. apply (for_each_error (fun e => e = IndexError)).
  intros i acc e _. revert e. apply (for_each_error (fun e => e = IndexError)).
  intros j acc' e' _.
  destruct (index d i) as [d_i|] eqn:E1; cbn [bind];
    [|intros [= <-]; eapply index_error; eauto].
  destruct (index d_i j) as [d_ij|] eqn:E2; cbn [bind];
    [|intros [= <-]; eapply index_error; eauto].
  destruct (index path i) as [p_i|] eqn:E3; cbn [bind];
    [|intros [= <-]; eapply index_error; eauto].
  destruct (index f p_i) as [f_pi|] eqn:E4; cbn [bind];
    [|intros [= <-]; eapply index_error; eauto].
  destruct (index path j) as [p_j|] eqn:E5; cbn [bind];
    [|intros [= <-]; eapply index_error; eauto].
  destruct (index f_pi p_j) as [f_pipj|] eqn:E6; cbn [bind];
    [discriminate|intros [= <-]; eapply index_error; eauto].
Qed.

Lemma get_fitness_ok_inv path d f v :
  get_fitness path d f = Ok v ->
  len path <= len d /\
  (forall i, 0 <= i < len path ->
     exists row, index d i = Ok row /\ len path <= len row) /\
  Forall (fun p => - len f <= p < len f) path.
Proof.
  intros Hv. unfold get_fitness in Hv.
  assert (Hcell : forall i j, 0 <= i < len path -> 0 <= j < len path ->
            exists row, index d i = Ok row /\ j < len row /\
                        - len f <= node_at path i < len f).
  { intros i j Hi Hj.
    destruct (for_each_rounds _ _ _ _ Hv i (proj2 (in_range 0 _ i) Hi))
      as (acc & acc' & Hinner).
    destruct (for_each_rounds _ _ _ _ Hinner j (proj2 (in_range 0 _ j) Hj))
      as (a & a' & Hbody).
    destruct (index d i) as [d_i|] eqn:E1; cbn [bind] in Hbody; [|discriminate].
    destruct (index d_i j) as [d_ij|] eqn:E2; cbn [bind] in Hbody; [|discriminate].
    rewrite (index_nonneg path i 0 Hi) in Hbody. cbn [bind] in Hbody.
    destruct (index f _) as [f_pi|] eqn:E4; cbn [bind] in Hbody; [|discriminate].
    exists d_i. split; [reflexivity|].
    apply index_valid in E2. apply index_valid in E4.
    fold (node_at path i) in E4. split; [lia|exact E4]. }
  assert (Hd : forall i, 0 <= i < len path ->
            exists row, index d i = Ok row /\ len path <= len row).
  { intros i Hi. destruct (Hcell i (len path - 1) Hi ltac:(lia)) as (row & Hrow & Hj & _).
    exists row. split; [exact Hrow|lia]. }
  split; [|split; [exact Hd|]].
  - destruct (Z.le_gt_cases (len path) 0) as [H0|H0]; [unfold len in *; lia|].
    destruct (Hd (len path - 1) ltac:(lia)) as (row & Hrow & _).
    apply index_valid in Hrow. lia.
  - apply Forall_forall. intros p Hp.
    destruct (In_nth _ _ 0 Hp) as (k & Hk & <-).
    destruct (Hcell (Z.of_nat k) 0 ltac:(unfold len; lia) ltac:(unfold len; lia))
      as (_ & _ & _ & Hf).
    unfold node_at in Hf. now rewrite Nat2Z.id in Hf.
Qed.

(** X5: [get_fitness] has no check of its own; the only exception it
    can raise is [IndexError], and it returns only if [d] has a row,
    of at least [len(path)] entries, for every position of the path,
    and every node of the path is an index that [f] accepts.  In
    particular a [d] with fewer rows than the path has nodes always
    raises. *)
Theorem get_fitness_index_errors path d f :
  (forall e, get_fitness path d f = Err e -> e = IndexError) /\
  (forall v, get_fitness path d f = Ok v ->
     len path <= len d /\
     (forall i, 0 <= i < len path ->
        exists row, index d i = Ok row /\ len path <= len row) /\
     Forall (fun p => - len f <= p < len f) path) /\
  (len d < len path -> get_fitness path d f = Err IndexError).
Proof.
  split; [apply get_fitness_error_kind|]. split; [apply get_fitness_ok_inv|].
  intros Hshort. destruct (get_fitness path d f) as [v|e] eqn:E.
  - destruct (get_fitness_ok_inv path d f v E) as [Hle _]. lia.
  - now rewrite (get_fitness_error_kind path d f e E).
Qed.

Lemma sumZ_nonneg l : Forall (fun v => 0 <= v) l -> 0 <= sumZ l.
Proof. induction 1; cbn; [lia|]. fold (sumZ l). lia. Qed.

Lemma sumZ_zero l : Forall (fun v => v = 0) l -> sumZ l = 0.
Proof. induction 1; cbn; [reflexivity|]. fold (sumZ l). lia. Qed.

Lemma icell_Forall (P : Z -> Prop) N (m : imatrix) i j :
  shape N N m -> Forall (Forall P) m -> 0 <= i < N -> 0 <= j < N -> P (icell m i j).
Proof.
  intros Hs HP Hi Hj. destruct (shape_row _ _ _ i Hs Hi) as [_ Hlen].
  destruct Hs as [Hr _]. unfold icell, len in *.
  rewrite Forall_forall in HP.
  assert (Hrow : Forall P (nth (Z.to_nat i) m [])) by (apply HP, nth_In; lia).
  rewrite Forall_forall in Hrow. apply Hrow, nth_In. lia.
Qed.

Lemma Forall_rows_impl {A} (P Q : A -> Prop) (m : list (list A)) :
  (forall v, P v -> Q v) -> Forall (Forall P) m -> Forall (Forall Q) m.
Proof.
  intros H Hm. eapply Forall_impl; [|exact Hm].
  intros row Hrow. eapply Forall_impl; [|exact Hrow]. exact H.
Qed.

(** X6: on N-by-N [int64] matrices without negative entries, the
    entries of [d] at most [D], those of [f] at most [F] and
    [N * N * D * F < 2^63] (nothing wraps around), the fitness of a
    permutation is never negative, and it is [0] when all distances
    are [0]; so the reciprocal that [main] deposits is positive or
    [+inf], never negative. *)
Theorem get_fitness_nonnegative N path d f D F :
  is_permutation N path -> shape N N d -> shape N N f ->
  int64_matrix d -> int64_matrix f ->
  Forall (Forall (fun v => 0 <= v <= D)) d ->
  Forall (Forall (fun v => 0 <= v <= F)) f ->
  N * N * (D * F) < 2 ^ 63 ->
  exists v, get_fitness path d f = Ok v /\ 0 <= v /\
            (Forall (Forall (fun c => c = 0)) d -> v = 0) /\
            (reciprocal v = PInf \/ fl_positive (reciprocal v)).
Proof.
  intros Hperm Hd Hf _ _ HdD HfF Hsmall.
  assert (Hdpos : Forall (Forall (fun v => 0 <= v)) d).
  { apply (Forall_rows_impl _ _ d (fun v H => proj1 H) HdD). }
  assert (Hfpos : Forall (Forall (fun v => 0 <= v)) f).
  { apply (Forall_rows_impl _ _ f (fun v H => proj1 H) HfF). }
  assert (Hr : Forall (fun v => 0 <= v < N) path) by now apply permutation_Forall.
  assert (Hlen : len path = N).
  { destruct (permutation_in_range N path Hperm) as [H|[H _]]; [exact H|].
    destruct Hd as [Hd _]. unfold len in Hd. lia. }
  exists (qap_cost N path d f).
  split.
  { rewrite (get_fitness_in_range N path d f Hlen Hr Hd Hf).
    assert (HdA : Forall (Forall (fun v => - D <= v <= D)) d).
    { apply (Forall_rows_impl (fun v => 0 <= v <= D)); [intros v Hv; lia|exact HdD]. }
    assert (HfA : Forall (Forall (fun v => - F <= v <= F)) f).
    { apply (Forall_rows_impl (fun v => 0 <= v <= F)); [intros v Hv; lia|exact HfF]. }
    pose proof (qap_cost_bound N path d f D F Hlen Hr Hd Hf HdA HfA).
    rewrite wrap64_small by lia. reflexivity. }
  assert (Hnode : forall i, 0 <= i < N -> 0 <= node_at path i < N).
  { intros i Hi. apply (path_node_at N path i Hr). lia. }
  assert (Hnonneg : 0 <= qap_cost N path d f).
  { unfold qap_cost. apply sumZ_nonneg, Forall_map, Forall_forall.
    intros i Hi. apply in_range in Hi.
    apply sumZ_nonneg, Forall_map, Forall_forall. intros j Hj. apply in_range in Hj.
    apply Z.mul_nonneg_nonneg.
    - now apply (icell_Forall (fun v => 0 <= v) N).
    - apply (icell_Forall (fun v => 0 <= v) N); auto. }
  split; [exact Hnonneg|]. split.
  - intros Hzero. unfold qap_cost. apply sumZ_zero, Forall_map, Forall_forall.
    intros i Hi. apply in_range in Hi.
    apply sumZ_zero, Forall_map, Forall_forall. intros j Hj. apply in_range in Hj.
    rewrite (icell_Forall (fun c => c = 0) N d i j) by assumption. reflexivity.
  - destruct (Z.eq_dec (qap_cost N path d f) 0) as [E|E].
    + left. now rewrite E.
    + right. apply reciprocal_positive. lia.
Qed.

Lemma get_fitness_nonnegative_witness :
  is_permutation 2 [1; 0] /\
  shape 2 2 (data_d zero_distance_file) /\ shape 2 2 (data_f zero_distance_file) /\
  int64_matrix (data_d zero_distance_file) /\ int64_matrix (data_f zero_distance_file) /\
  Forall (Forall (fun v => 0 <= v <= 0)) (data_d zero_distance_file) /\
  Forall (Forall (fun v => 0 <= v <= 1)) (data_f zero_distance_file) /\
  2 * 2 * (0 * 1) < 2 ^ 63 /\
  exists v, get_fitness [1; 0] (data_d zero_distance_file) (data_f zero_distance_file)
            = Ok v /\ 0 <= v.
Proof.
  assert (Hperm : is_permutation 2 [1; 0]).
  { apply NoDup_range_permutation.
    - repeat constructor; cbn; intuition lia.
    - reflexivity.
    - repeat constructor; lia. }
  assert (Hd : shape 2 2 (data_d zero_distance_file))
    by (split; [reflexivity|repeat constructor]).
  assert (Hf : shape 2 2 (data_f zero_distance_file))
    by (split; [reflexivity|repeat constructor]).
  assert (Hid : int64_matrix (data_d zero_distance_file))
    by (repeat constructor; discriminate).
  assert (Hif : int64_matrix (data_f zero_distance_file))
    by (repeat constructor; discriminate).
  assert (Hdp : Forall (Forall (fun v => 0 <= v <= 0)) (data_d zero_distance_file))
    by (repeat constructor; lia).
  assert (Hfp : Forall (Forall (fun v => 0 <= v <= 1)) (data_f zero_distance_file))
    by (repeat constructor; lia).
  assert (Hb : 2 * 2 * (0 * 1) < 2 ^ 63) by reflexivity.
  split; [exact Hperm|]. split; [exact Hd|]. split; [exact Hf|].
  split; [exact Hid|]. split; [exact Hif|].
  split; [exact Hdp|]. split; [exact Hfp|]. split; [exact Hb|].
  destruct (get_fitness_nonnegative 2 [1; 0] _ _ 0 1 Hperm Hd Hf Hid Hif Hdp Hfp Hb)
    as (v & Hv & Hpos & _).
  exists v. split; assumption.
Defined.

Lemma index_norm {A} (l : list A) N k :
  len l = N -> - N <= k < N -> index l (norm_index N k) = index l k.
Proof.
  intros Hl Hk. unfold norm_index. destruct (Z.ltb_spec k 0); [|reflexivity].
  symmetry. apply index_wrap; [exact Hl|lia].
Qed.

(** X7: [get_fitness] reads a negative node as numpy does: for nodes in
    [[-N, N)] and an N-by-N [f], the fitness of a path is the fitness
    of the path with every negative node [p] replaced by [p + N]. *)
Theorem get_fitness_wraps_nodes N path d f :
  Forall (fun p => - N <= p < N) path -> shape N N f ->
  get_fitness path d f = get_fitness (map (norm_index N) path) d f.
Proof.
  intros Hr [Hlenf Hrows]. unfold get_fitness.
  assert (Hlen : len (map (norm_index N) path) = len path)
    by (unfold len; now rewrite length_map).
  rewrite Hlen.
  assert (Hnode : forall i, 0 <= i < len path ->
            - N <= node_at path i < N /\
            index path i = Ok (node_at path i) /\
            index (map (norm_index N) path) i = Ok (norm_index N (node_at path i))).
  { intros i Hi. split; [|split].
    - rewrite Forall_forall in Hr. apply Hr. unfold node_at. apply nth_In.
      unfold len in Hi. lia.
    - now apply index_nonneg.
    - rewrite (index_nonneg _ i (norm_index N 0)) by lia.
      unfold node_at. rewrite map_nth. reflexivity. }
  apply for_each_ext_in. intros i acc Hi. apply in_range in Hi.
  apply for_each_ext_in. intros j acc' Hj. apply in_range in Hj.
  destruct (Hnode i Hi) as (Hpi & -> & ->).
  destruct (Hnode j Hj) as (Hpj & -> & ->).
  destruct (index d i) as [d_i|]; cbn [bind]; [|reflexivity].
  destruct (index d_i j) as [d_ij|]; cbn [bind]; [|reflexivity].
  rewrite (index_norm f N _ Hlenf Hpi).
  destruct (index f (node_at path i)) as [f_pi|] eqn:Ef; cbn [bind]; [|reflexivity].
  assert (Hrow : len f_pi = N).
  { rewrite Forall_forall in Hrows. apply Hrows. eapply index_In; eauto. }
  now rewrite (index_norm f_pi N _ Hrow Hpj).
Qed.

Lemma get_fitness_wraps_nodes_witness :
  Forall (fun p => - 3 <= p < 3) [-1; 0; 1] /\
  shape 3 3 [[0; 5; 1]; [1; 0; 7]; [3; 1; 0]] /\
  get_fitness [-1; 0; 1] [[0; 1; 2]; [1; 0; 1]; [2; 1; 0]] [[0; 5; 1]; [1; 0; 7]; [3; 1; 0]]
  = get_fitness (map (norm_index 3) [-1; 0; 1]) [[0; 1; 2]; [1; 0; 1]; [2; 1; 0]]
      [[0; 5; 1]; [1; 0; 7]; [3; 1; 0]].
Proof.
  assert (Hr : Forall (fun p => - 3 <= p < 3) [-1; 0; 1]) by (repeat constructor; lia).
  assert (Hf : shape 3 3 [[0; 5; 1]; [1; 0; 7]; [3; 1; 0]])
    by (split; [reflexivity|repeat constructor]).
  split; [exact Hr|]. split; [exact Hf|].
  apply (get_fitness_wraps_nodes 3 [-1; 0; 1] _ _ Hr Hf).
Defined.

Lemma get_fitness_index_errors_witness :
  len [[1; 1]] < len [0; 1] /\ get_fitness [0; 1] [[1; 1]] [[1; 1]; [1; 1]] = Err IndexError.
Proof.
  assert (H : len [[1; 1]] < len [0; 1]) by (cbn; lia).
  split; [exact H|].
  exact (proj2 (proj2 (get_fitness_index_errors [0; 1] [[1; 1]] [[1; 1]; [1; 1]])) H).
Defined.

(** * More on the deposit *)

Lemma for_each_rounds_inv {X S} (P : S -> Prop) (body : X -> S -> result S) xs :
  (forall x s s', P s -> body x s = Ok s' -> P s') ->
  forall st st', P st -> for_each xs body st = Ok st' ->
  forall x, In x xs -> exists s s', P s /\ body x s = Ok s'.
Proof.
  intros Hstep. induction xs as [|x xs IH]; intros st st' HP; cbn [for_each];
    [intros _ y []|].
  destruct (body x st) as [s1|] eqn:Hb; cbn [bind]; [|discriminate].
  intros Hrun y [<-|Hy]; [eauto|].
  eapply (IH s1 st'); eauto.
Qed.

Lemma edges_In path e :
  In e (edges path) -> In (fst e) (removelast path) /\ In (snd e) (tl path).
Proof.
  induction path as [|a [|b rest] IH]; cbn [edges]; try tauto.
  intros [<-|He].
  - split; cbn; auto.
  - destruct (IH He) as [H1 H2]. split.
    + change (removelast (a :: b :: rest)) with (a :: removelast (b :: rest)).
      now right.
    + cbn [tl] in *. now right.
Qed.

Lemma nodes_in_edges path v :
  (2 <= length path)%nat -> In v path ->
  exists e, In e (edges path) /\ (v = fst e \/ v = snd e).
Proof.
  induction path as [|a [|b rest] IH]; cbn [length]; try lia.
  intros _ [<-|Hv].
  - exists (a, b). split; [now left|now left].
  - destruct rest as [|c rest'].
    + destruct Hv as [<-|[]]. exists (a, b). split; [now left|now right].
    + destruct (IH ltac:(cbn; lia) Hv) as (e & He & Hve).
      exists e. split; [now right|exact Hve].
Qed.

Lemma NoDup_removelast_last (path : list Z) :
  NoDup path -> path <> [] -> ~ In (last path 0) (removelast path).
Proof.
  intros Hnd Hne Hin.
  rewrite (app_removelast_last 0 Hne) in Hnd.
  apply NoDup_remove_2 in Hnd. rewrite app_nil_r in Hnd. contradiction.
Qed.

Lemma count_edge_zero a b path :
  ~ In a (removelast path) \/ ~ In b (tl path) -> count_edge a b path = O.
Proof.
  intros H. unfold count_edge.
  destruct (filter _ (edges path)) as [|e l] eqn:E; [reflexivity|exfalso].
  assert (He : In e (filter (fun e => (fst e =? a) && (snd e =? b)) (edges path)))
    by (rewrite E; now left).
  apply filter_In in He. destruct He as [He Hab].
  apply andb_prop in Hab. destruct Hab as [Ha Hb].
  apply Z.eqb_eq in Ha, Hb. subst a b.
  destruct (edges_In path e He) as [H1 H2]. tauto.
Qed.

Lemma count_edge_NoDup a b path : NoDup path -> (count_edge a b path <= 1)%nat.
Proof.
  unfold count_edge.
  induction path as [|x [|y rest] IH]; intros Hnd; [cbn; lia|cbn; lia|].
  inversion Hnd as [|? ? Hx Hrest]; subst.
  change (edges (x :: y :: rest)) with ((x, y) :: edges (y :: rest)).
  cbn [filter fst snd]. destruct (Z.eqb_spec x a) as [->|Hxa]; cbn [andb].
  - assert (H0 : count_edge a b (y :: rest) = O).
    { apply count_edge_zero. left. intros Hin. apply Hx.
      clear -Hin. revert Hin. generalize (y :: rest) as l.
      induction l as [|u [|w l'] IHl]; cbn; tauto. }
    unfold count_edge in H0. destruct (y =? b); cbn [length]; rewrite H0; lia.
  - now apply IH.
Qed.

Lemma add_at_valid n p a b v p' :
  shape n n p -> add_at p a b v = Ok p' -> - n <= a < n /\ - n <= b < n.
Proof.
  intros [Hlen Hrows]. unfold add_at.
  destruct (index p a) as [row|] eqn:Ea; cbn [bind]; [|discriminate].
  destruct (index row b) as [c|] eqn:Eb; cbn [bind]; [|discriminate].
  intros _. apply index_valid in Eb.
  assert (Hrow : len row = n).
  { rewrite Forall_forall in Hrows. apply Hrows. eapply index_In; eauto. }
  apply index_valid in Ea. lia.
Qed.

Lemma add_at_error p a b v e : add_at p a b v = Err e -> e = IndexError.
Proof.
  unfold add_at.
  destruct (index p a) as [row|] eqn:Ea; cbn [bind];
    [|intros [= <-]; eapply index_error; eauto].
  destruct (index row b) as [c|] eqn:Eb; cbn [bind];
    [discriminate|intros [= <-]; eapply index_error; eauto].
Qed.

Lemma update_pheromones_ok_inv oneover path n p :
  update_pheromones oneover path n = Ok p ->
  0 <= n /\ shape n n p /\
  (2 <= len path -> Forall (fun v => - n <= v < n) path).
Proof.
  intros Hrun. pose proof Hrun as Hshape. apply update_pheromones_shape in Hshape.
  rewrite update_pheromones_edges in Hrun.
  destruct (Z.ltb_spec n 0) as [Hn|Hn].
  { unfold np_zeros in Hrun. replace (n <? 0) with true in Hrun by lia. discriminate. }
  split; [exact Hn|]. split; [exact Hshape|].
  destruct (np_zeros_spec n Hn) as (z & Hz & Hsz & _). rewrite Hz in Hrun.
  cbn [bind] in Hrun. intros Hlen. apply Forall_forall. intros v Hv.
  destruct (nodes_in_edges path v ltac:(unfold len in Hlen; lia) Hv) as (e & He & Hve).
  assert (Hstep : forall (x : Z * Z) (s s' : matrix),
             shape n n s -> add_at s (fst x) (snd x) oneover = Ok s' -> shape n n s').
  { intros x s s' Hs Hadd. eapply add_at_shape; eauto. }
  destruct (for_each_rounds_inv (shape n n)
              (fun e p => add_at p (fst e) (snd e) oneover) (edges path)
              Hstep z p Hsz Hrun e He) as (s & s' & Hs & Hadd).
  destruct (add_at_valid n s _ _ _ _ Hs Hadd) as [H1 H2].
  destruct Hve as [-> | ->]; assumption.
Qed.

(** X8: [update_pheromones] raises [ValueError] exactly when [n] is
    negative and otherwise only [IndexError]; whenever it returns, the
    matrix is n-by-n and, if the path has at least two nodes, every node
    is in [[-n, n)].  A path of fewer than two nodes deposits nothing:
    the result is the zero matrix, whatever [oneover] is. *)
Theorem update_pheromones_returns oneover path n :
  (n < 0 -> update_pheromones oneover path n = Err ValueError) /\
  (0 <= n -> forall e, update_pheromones oneover path n = Err e -> e = IndexError) /\
  (forall p, update_pheromones oneover path n = Ok p ->
     0 <= n /\ shape n n p /\
     (2 <= len path -> Forall (fun v => - n <= v < n) path)) /\
  (len path <= 1 -> update_pheromones oneover path n = np_zeros n).
Proof.
  split; [|split; [|split]].
  - intros Hn. unfold update_pheromones, np_zeros.
    replace (n <? 0) with true by lia. reflexivity.
  - intros Hn e. unfold update_pheromones.
    destruct (np_zeros_spec n Hn) as (z & -> & _). cbn [bind].
    revert e. apply (for_each_error (fun e => e = IndexError)).
    intros x s e _.
    destruct (index path x) as [a|] eqn:Ea; cbn [bind];
      [|intros [= <-]; eapply index_error; eauto].
    destruct (index path (x + 1)) as [b|] eqn:Eb; cbn [bind];
      [|intros [= <-]; eapply index_error; eauto].
    apply add_at_error.
  - apply update_pheromones_ok_inv.
  - intros Hlen. unfold update_pheromones.
    destruct (np_zeros n) as [z|]; cbn [bind]; [|reflexivity].
    now rewrite range_nil by lia.
Qed.

(** X9: for a path without repeated nodes, all in [[0, n)], no edge is
    used twice: every cell of the deposit is either zero or exactly
    [oneover], nothing is deposited in the column of the first node and
    nothing in the row of the last node. *)
Theorem update_pheromones_simple_path oneover path n :
  0 <= n -> NoDup path -> Forall (fun v => 0 <= v < n) path ->
  exists p,
    update_pheromones oneover path n = Ok p /\
    (forall a b, 0 <= a < n -> 0 <= b < n ->
       entry p a b = fl_zero \/ entry p a b = oneover) /\
    (forall a, 0 <= a < n -> entry p a (hd 0 path) = fl_zero) /\
    (forall b, 0 <= b < n -> entry p (last path 0) b = fl_zero).
Proof.
  intros Hn Hnd Hr.
  destruct (update_pheromones_in_range oneover path n Hn Hr)
    as (p & Hrun & _ & Hent & _).
  exists p. split; [exact Hrun|].
  destruct path as [|v path'].
  { (* the empty path *)
    assert (Hz : forall a b, 0 <= a < n -> 0 <= b < n -> entry p a b = fl_zero).
    { intros a b Ha Hb. now rewrite Hent by assumption. }
    repeat split; intros; try left; apply Hz; cbn; lia. }
  assert (Hne : v :: path' <> []) by discriminate.
  assert (Hhd : 0 <= hd 0 (v :: path') < n) by (inversion Hr; assumption).
  assert (Hlast : 0 <= last (v :: path') 0 < n).
  { rewrite Forall_forall in Hr. apply Hr.
    rewrite (app_removelast_last 0 Hne) at 2. apply in_or_app. right. now left. }
  split; [|split].
  - intros a b Ha Hb. rewrite Hent by assumption.
    pose proof (count_edge_NoDup a b _ Hnd) as Hle.
    destruct (count_edge a b (v :: path')) as [|[|k]]; [now left|right|lia].
    cbn. apply fl_add_zero_l.
  - intros a Ha. rewrite Hent by assumption.
    rewrite count_edge_zero; [reflexivity|]. right. cbn [hd tl].
    now inversion Hnd.
  - intros b Hb. rewrite Hent by assumption.
    rewrite count_edge_zero; [reflexivity|]. left.
    now apply NoDup_removelast_last.
Qed.

Lemma update_pheromones_simple_path_witness :
  0 <= 3 /\ NoDup [2; 0; 1] /\ Forall (fun v => 0 <= v < 3) [2; 0; 1] /\
  exists p,
    update_pheromones PInf [2; 0; 1] 3 = Ok p /\
    (forall a b, 0 <= a < 3 -> 0 <= b < 3 ->
       entry p a b = fl_zero \/ entry p a b = PInf) /\
    (forall a, 0 <= a < 3 -> entry p a (hd 0 [2; 0; 1]) = fl_zero) /\
    (forall b, 0 <= b < 3 -> entry p (last [2; 0; 1] 0) b = fl_zero).
Proof.
  assert (Hnd : NoDup [2; 0; 1]) by (repeat constructor; cbn; intuition lia).
  assert (Hr : Forall (fun v => 0 <= v < 3) [2; 0; 1]) by (repeat constructor; lia).
  split; [lia|]. split; [exact Hnd|]. split; [exact Hr|].
  apply (update_pheromones_simple_path PInf [2; 0; 1] 3); [lia|exact Hnd|exact Hr].
Defined.

Lemma update_pheromones_returns_witness :
  len [7] <= 1 /\ update_pheromones NaN [7] 2 = np_zeros 2.
Proof.
  assert (H : len [7] <= 1) by (cbn; lia).
  split; [exact H|].
  exact (proj2 (proj2 (proj2 (update_pheromones_returns NaN [7] 2))) H).
Defined.

(** * More on whole runs *)

Lemma iterations_of_none m :
  m < 0 \/ 10000 < m -> exists k, iterations_of m = Ok k /\ k <= 0.
Proof.
  intros Hm. unfold iterations_of. replace (m =? 0) with false by lia.
  eexists. split; [reflexivity|]. destruct Hm as [Hm|Hm].
  - replace m with (- (- m)) by lia. rewrite Z.quot_opp_r by lia.
    pose proof (Z.quot_pos 10000 (- m) ltac:(lia) ltac:(lia)). lia.
  - rewrite Z.quot_small by lia. lia.
Qed.

Lemma np_array_cases M : np_array M = Ok M \/ np_array M = Err ValueError.
Proof.
  unfold np_array. destruct M as [|first rest]; [now left|].
  destruct (forallb _ rest); [now left|now right].
Qed.

(** X10: [main] validates nothing itself, and what fails first decides
    the exception: rows of unequal length in [d] or in [f] raise
    [ValueError] (from [np.array]) and so does a negative [n] (from
    [np.random.rand]); otherwise [m = 0] raises [ZeroDivisionError],
    otherwise [n = 0] raises [ValueError] (from [np.random.randint]);
    all before any ant is built. *)
Theorem main_parameter_errors T file m e g :
  (~ rectangular (data_d file) \/ ~ rectangular (data_f file) ->
     main T file m e g = Err ValueError) /\
  (data_n file < 0 -> main T file m e g = Err ValueError) /\
  (rectangular (data_d file) -> rectangular (data_f file) ->
     0 <= data_n file -> m = 0 -> main T file m e g = Err ZeroDivisionError) /\
  (data_n file = 0 -> m <> 0 -> main T file m e g = Err ValueError).
Proof.
  unfold main, main_state, np_random_rand, iterations_of, np_random_randint.
  split; [|split; [|split]].
  - intros [H|H].
    + now rewrite (np_array_ragged _ H).
    + destruct (np_array_cases (data_d file)) as [-> | ->]; [|reflexivity].
      cbn [bind]. now rewrite (np_array_ragged _ H).
  - intros Hn.
    destruct (np_array_cases (data_d file)) as [-> | ->]; [|reflexivity].
    destruct (np_array_cases (data_f file)) as [-> | ->]; [|reflexivity].
    cbn [bind]. replace (data_n file <? 0) with true by lia. reflexivity.
  - intros Hd Hf Hn ->.
    rewrite (np_array_rectangular _ Hd), (np_array_rectangular _ Hf). cbn [bind].
    replace (data_n file <? 0) with false by lia. reflexivity.
  - intros Hn Hm.
    destruct (np_array_cases (data_d file)) as [-> | ->]; [|reflexivity].
    destruct (np_array_cases (data_f file)) as [-> | ->]; [|reflexivity].
    rewrite Hn. cbn [Z.ltb Z.compare bind]. replace (m =? 0) with false by lia.
    reflexivity.
Qed.

Lemma main_parameter_errors_witness :
  rectangular (data_d pair_file) /\ rectangular (data_f pair_file) /\
  0 <= data_n pair_file /\
  main sample_tapes pair_file 0 fl_one rng0 = Err ZeroDivisionError.
Proof.
  assert (Hd : rectangular (data_d pair_file)).
  { apply (shape_rectangular 2 2). split; [reflexivity|repeat constructor]. }
  assert (Hf : rectangular (data_f pair_file)).
  { apply (shape_rectangular 2 2). split; [reflexivity|repeat constructor]. }
  assert (H : 0 <= data_n pair_file) by (cbn; lia).
  split; [exact Hd|]. split; [exact Hf|]. split; [exact H|].
  exact (proj1 (proj2 (proj2 (main_parameter_errors sample_tapes pair_file 0 fl_one
                                rng0))) Hd Hf H eq_refl).
Defined.

Lemma main_without_ants T file m e g :
  rectangular (data_d file) -> rectangular (data_f file) ->
  1 <= data_n file -> m < 0 \/ 10000 < m ->
  main T file m e g = Ok (([], Infinity), advance_numpy (data_n file) g).
Proof.
  intros Hd Hf Hn Hm. destruct (iterations_of_none m Hm) as (k & Hk & Hk0).
  unfold main, main_state, np_random_rand, np_random_randint, run.
  rewrite (np_array_rectangular _ Hd), (np_array_rectangular _ Hf). cbn [bind].
  replace (data_n file <? 0) with false by lia. cbn [bind].
  rewrite Hk. cbn [bind].
  replace (data_n file <=? 0) with false by lia. cbn [bind].
  rewrite range_nil by lia. reflexivity.
Qed.

(** X11: a colony larger than the budget ([m > 10000]), or a negative
    [m], gives no iteration at all: on any data with [n >= 1] whose
    rows are of equal length in [d] and in [f], [main] evaluates no
    ant and returns the empty series with a best fitness of [+inf],
    and [experiments] writes an empty header and five empty rows and
    prints five infinities. *)
Theorem main_no_iterations T file m e g :
  rectangular (data_d file) -> rectangular (data_f file) ->
  1 <= data_n file -> m < 0 \/ 10000 < m ->
  main T file m e g = Ok (([], Infinity), advance_numpy (data_n file) g) /\
  exists g',
    experiments T file m e g
    = Ok ({| csv_header := [];
             csv_rows := [[]; []; []; []; []];
             printed_best := [Infinity; Infinity; Infinity; Infinity; Infinity] |}, g').
Proof.
  intros Hd Hf Hn Hm. split; [now apply main_without_ants|].
  unfold experiments. change (range 0 5) with [0; 1; 2; 3; 4].
  cbn [for_each]. repeat (rewrite main_without_ants by assumption; cbn [bind fst snd app]).
  eexists. reflexivity.
Qed.

Lemma main_no_iterations_witness :
  rectangular (data_d pair_file) /\ rectangular (data_f pair_file) /\
  1 <= data_n pair_file /\ (20000 < 0 \/ 10000 < 20000) /\
  main sample_tapes pair_file 20000 fl_one rng0
  = Ok (([], Infinity), advance_numpy (data_n pair_file) rng0).
Proof.
  assert (Hd : rectangular (data_d pair_file)).
  { apply (shape_rectangular 2 2). split; [reflexivity|repeat constructor]. }
  assert (Hf : rectangular (data_f pair_file)).
  { apply (shape_rectangular 2 2). split; [reflexivity|repeat constructor]. }
  assert (H1 : 1 <= data_n pair_file) by (cbn; lia).
  assert (H2 : 20000 < 0 \/ 10000 < 20000) by (right; lia).
  split; [exact Hd|]. split; [exact Hf|]. split; [exact H1|]. split; [exact H2|].
  exact (proj1 (main_no_iterations sample_tapes pair_file 20000 fl_one rng0
                  Hd Hf H1 H2)).
Defined.

Section ShapeInvariant.

Variables (T : tapes) (n : Z) (d f : imatrix) (start m : Z) (e : fl).

Lemma iteration_shape x st st' :
  iteration T n d f start m e x st = Ok st' ->
  shape n n (pheromones st) -> shape n n (pheromones st').
Proof.
  intros Hit Hs.
  destruct (iteration_inv _ _ _ _ _ _ _ _ _ _ Hit) as (zeros & st1 & Hz & Hloop & ->).
  destruct (ants_accumulate _ _ _ _ _ _ _ _ Hloop) as (Hph & _ & deps & _ & Hdeps & Hacc).
  cbn in *. unfold deposit_and_evaporate. rewrite Hph, Hacc.
  apply np_scale_shape, np_add_shape; [exact Hs|].
  apply fold_np_add_shape; [|now apply np_zeros_nonneg].
  eapply Forall_impl; [|exact Hdeps]. intros delta. apply is_deposit_shape.
Qed.

Lemma run_shape k st st' :
  run T n d f start m e k st = Ok st' ->
  shape n n (pheromones st) -> shape n n (pheromones st').
Proof.
  intros Hrun Hs.
  apply (for_each_invariant (fun s => shape n n (pheromones s))
           (iteration T n d f start m e) (range 0 k)) with (st := st);
    [|exact Hs|exact Hrun].
  intros x s s' _ Hsh Hit. eapply iteration_shape; eauto.
Qed.

End ShapeInvariant.

(** X12: the pheromone matrix keeps its shape: it is n-by-n when [main]
    creates it and after every iteration, for every evaporation rate
    ([inf] and [NaN] included) and whatever the ants deposit. *)
Theorem pheromones_keep_shape T file m e g :
  (forall ph0 g1 start g2 k st,
     np_random_rand T (data_n file) g = Ok (ph0, g1) ->
     run T (data_n file) (data_d file) (data_f file) start m e k (init_state ph0 g2)
     = Ok st ->
     shape (data_n file) (data_n file) ph0 /\
     shape (data_n file) (data_n file) (pheromones st)) /\
  (forall st, main_state T file m e g = Ok st ->
     shape (data_n file) (data_n file) (pheromones st)).
Proof.
  assert (H : forall ph0 g1 start g2 k st,
     np_random_rand T (data_n file) g = Ok (ph0, g1) ->
     run T (data_n file) (data_d file) (data_f file) start m e k (init_state ph0 g2)
     = Ok st ->
     shape (data_n file) (data_n file) ph0 /\
     shape (data_n file) (data_n file) (pheromones st)).
  { intros ph0 g1 start g2 k st Hrand Hrun.
    destruct (np_random_rand_spec T (fun _ => True) _ _ _ _ (fun _ => I) Hrand)
      as [Hs _].
    split; [exact Hs|]. eapply run_shape; eauto. }
  split; [exact H|].
  intros st Hst.
  destruct (main_state_inv _ _ _ _ _ _ Hst)
    as (ph0 & g1 & its & start & g2 & Hrand & _ & _ & Hrun).
  exact (proj2 (H ph0 g1 start g2 its st Hrand Hrun)).
Qed.

Lemma pheromones_keep_shape_witness :
  exists st,
    main_state sample_tapes pair_file 3 (Fin half) rng0 = Ok st /\
    shape (data_n pair_file) (data_n pair_file) (pheromones st).
Proof.
  destruct (main_state_total sample_tapes pair_file 3 (Fin half) rng0
              pair_file_well_formed) as [st H].
  exists st. split; [exact H|].
  exact (proj2 (pheromones_keep_shape sample_tapes pair_file 3 (Fin half) rng0) st H).
Defined.

(** * Means and best fitness *)

Lemma min_best_fitness b v :
  exists w, min_best b v = Fitness w /\ w <= v /\
            (forall u, b = Fitness u -> w <= u).
Proof.
  unfold min_best. destruct b as [|u]; cbn.
  - exists v. repeat split; [lia|discriminate].
  - destruct (Z.ltb_spec v u).
    + exists v. repeat split; [lia|]. intros u' [= <-]. lia.
    + exists u. repeat split; [lia|]. intros u' [= <-]. lia.
Qed.

Lemma mean_at_least_min_best a b v :
  mean_at_least a b -> mean_at_least a (min_best b v).
Proof.
  destruct a as [q| | |], b as [|u]; cbn; try contradiction.
  intros Hq. destruct (min_best_fitness (Fitness u) v) as (w & -> & _ & Hw).
  specialize (Hw u eq_refl). cbn.
  eapply Qcle_trans; [|exact Hq].
  clear Hq. qc_to_q. rewrite <- Zle_Qle. exact Hw.
Qed.

Lemma true_div_at_least total m b :
  1 <= m -> b * m <= total -> mean_at_least (true_div total m) (Fitness b).
Proof.
  intros Hm Hb. unfold true_div, mean_at_least. qc_to_q.
  apply Qle_shift_div_l.
  - replace 0%Q with (inject_Z 0) by reflexivity. rewrite <- Zlt_Qlt. lia.
  - rewrite <- inject_Z_mult, <- Zle_Qle. exact Hb.
Qed.

Lemma qap_cost_nonneg N path d f :
  len path = N -> Forall (fun v => 0 <= v < N) path ->
  shape N N d -> shape N N f ->
  Forall (Forall (fun v => 0 <= v)) d -> Forall (Forall (fun v => 0 <= v)) f ->
  0 <= qap_cost N path d f.
Proof.
  intros Hlen Hr Hd Hf Hdpos Hfpos. unfold qap_cost.
  apply sumZ_nonneg, Forall_map, Forall_forall.
  intros i Hi. apply in_range in Hi.
  apply sumZ_nonneg, Forall_map, Forall_forall. intros j Hj. apply in_range in Hj.
  destruct (path_node_at N path i Hr ltac:(lia)) as [_ Hpi].
  destruct (path_node_at N path j Hr ltac:(lia)) as [_ Hpj].
  apply Z.mul_nonneg_nonneg.
  - now apply (icell_Forall (fun v => 0 <= v) N).
  - now apply (icell_Forall (fun v => 0 <= v) N).
Qed.

(** Without negative entries and with [N * N * D * F] in the range
    of [int64], the fitness does not wrap around. *)
Lemma get_fitness_bounded N path d f D F v :
  len path = N -> Forall (fun v => 0 <= v < N) path ->
  shape N N d -> shape N N f ->
  Forall (Forall (fun v => 0 <= v <= D)) d ->
  Forall (Forall (fun v => 0 <= v <= F)) f ->
  N * N * (D * F) < 2 ^ 63 ->
  get_fitness path d f = Ok v -> 0 <= v <= N * N * (D * F).
Proof.
  intros Hlen Hr Hd Hf HdD HfF Hsmall Hv.
  rewrite (get_fitness_in_range N path d f Hlen Hr Hd Hf) in Hv.
  assert (HdA : Forall (Forall (fun v => - D <= v <= D)) d).
  { apply (Forall_rows_impl (fun v => 0 <= v <= D)); [intros c Hc; lia|exact HdD]. }
  assert (HfA : Forall (Forall (fun v => - F <= v <= F)) f).
  { apply (Forall_rows_impl (fun v => 0 <= v <= F)); [intros c Hc; lia|exact HfF]. }
  assert (Hdpos : Forall (Forall (fun v => 0 <= v)) d).
  { apply (Forall_rows_impl (fun v => 0 <= v <= D)); [intros c Hc; lia|exact HdD]. }
  assert (Hfpos : Forall (Forall (fun v => 0 <= v)) f).
  { apply (Forall_rows_impl (fun v => 0 <= v <= F)); [intros c Hc; lia|exact HfF]. }
  pose proof (qap_cost_bound N path d f D F Hlen Hr Hd Hf HdA HfA).
  pose proof (qap_cost_nonneg N path d f Hlen Hr Hd Hf Hdpos Hfpos).
  rewrite wrap64_small in Hv by lia. injection Hv as <-. lia.
Qed.

Section Means.

Variables (T : tapes) (n : Z) (d f : imatrix) (start m : Z) (e : fl).
Variables (D F : Z).

Hypothesis Hm : 1 <= m.
Hypothesis Hn : 1 <= n.
Hypothesis Hstart : 0 <= start < n.
Hypothesis Hd : shape n n d.
Hypothesis Hf : shape n n f.
Hypothesis HdD : Forall (Forall (fun v => 0 <= v <= D)) d.
Hypothesis HfF : Forall (Forall (fun v => 0 <= v <= F)) f.
Hypothesis Hsmall : m * (n * n * (D * F)) <= 2 ^ 53.

Lemma ant_fitness_bounded y st st' :
  ant T n d f start y st = Ok st' ->
  exists v, 0 <= v <= n * n * (D * F) /\
    best_fitness st' = min_best (best_fitness st) v /\
    total_fitness st' = wrap64 (total_fitness st + v) /\
    average_fitness_list st' = average_fitness_list st.
Proof.
  intros Hant.
  destruct (ant_inv _ _ _ _ _ _ _ _ Hant)
    as (path & g' & v & delta & Hpath & Hv & _ & ->).
  destruct (generate_path_inv _ _ _ _ _ _ _ Hn Hstart Hpath) as (Hlen & _ & Hr & _).
  cbn [fst] in Hlen, Hr.
  exists v. split; [|cbn; auto].
  apply (get_fitness_bounded n path d f D F v); try assumption. nia.
Qed.

Lemma ants_means st st' :
  means_inv st -> total_fitness st = 0 ->
  for_each (range 0 m) (ant T n d f start) st = Ok st' ->
  average_fitness_list st' = average_fitness_list st /\ means_inv st' /\
  exists b, best_fitness st' = Fitness b /\ b * m <= total_fitness st'.
Proof.
  intros Hinv Htot Hloop.
  apply (for_range_partial
           (fun i s =>
              0 <= i /\ average_fitness_list s = average_fitness_list st /\
              means_inv s /\ 0 <= total_fitness s <= i * (n * n * (D * F)) /\
              (0 < i -> exists b, best_fitness s = Fitness b /\
                                  b * i <= total_fitness s))) in Hloop.
  - destruct Hloop as (_ & Havg & Hinv' & _ & Hb). auto with zarith.
  - intros i s s' Hi (Hi0 & Havg & Hs & Htotal & Hpos) Hant.
    destruct (ant_fitness_bounded _ _ _ Hant) as (v & Hv & Hbest & Htot' & Havg').
    assert (Hnowrap : total_fitness s' = total_fitness s + v).
    { rewrite Htot'. apply wrap64_small.
      assert (m * (n * n * (D * F)) < 2 ^ 63)
        by (apply Z.le_lt_trans with (2 ^ 53); [exact Hsmall|reflexivity]).
      nia. }
    split; [lia|]. split; [congruence|]. split; [|split; [nia|]].
    + unfold means_inv in *. rewrite Havg', Hbest. eapply Forall_impl; [|exact Hs].
      intros a. apply mean_at_least_min_best.
    + intros _. destruct (min_best_fitness (best_fitness s) v) as (w & Hw & Hwv & Hwb).
      exists w. split; [congruence|].
      destruct (Z.eq_dec i 0) as [->|Hne].
      * lia.
      * destruct (Hpos ltac:(lia)) as (b & Hb & Hbt).
        specialize (Hwb b Hb). nia.
  - lia.
  - repeat split; try assumption; try lia.
Qed.

Lemma iteration_means x st st' :
  iteration T n d f start m e x st = Ok st' -> means_inv st -> means_inv st'.
Proof.
  intros Hit Hinv.
  destruct (iteration_inv _ _ _ _ _ _ _ _ _ _ Hit) as (zeros & st1 & _ & Hloop & ->).
  apply ants_means in Hloop; [|exact Hinv|reflexivity].
  destruct Hloop as (Havg & Hinv1 & b & Hb & Hbt).
  unfold means_inv in *. cbn in *. apply Forall_app. split; [exact Hinv1|].
  constructor; [|constructor]. rewrite Hb. now apply true_div_at_least.
Qed.

Lemma run_means k st st' :
  run T n d f start m e k st = Ok st' -> means_inv st -> means_inv st'.
Proof.
  intros Hrun Hinv.
  apply (for_each_invariant means_inv (iteration T n d f start m e) (range 0 k))
    with (st := st); [|exact Hinv|exact Hrun].
  intros x s s' _ Hs Hit. eapply iteration_means; eauto.
Qed.

End Means.

(** X13: on n-by-n [int64] data without negative entries, the entries of [d]
    at most [D], those of [f] at most [F] and
    [m * n * n * D * F <= 2^53] (the running total neither wraps
    around nor loses a digit in the division), for [m >= 1] every mean
    that [main] returns is a finite value at least as large as the best
    fitness it returns: the running total of an iteration is never
    below the number of ants so far times the best fitness. *)
Theorem means_at_least_best T file m e g avgs b g' D F :
  1 <= m ->
  shape (data_n file) (data_n file) (data_d file) ->
  shape (data_n file) (data_n file) (data_f file) ->
  int64_matrix (data_d file) -> int64_matrix (data_f file) ->
  Forall (Forall (fun v => 0 <= v <= D)) (data_d file) ->
  Forall (Forall (fun v => 0 <= v <= F)) (data_f file) ->
  m * (data_n file * data_n file * (D * F)) <= 2 ^ 53 ->
  main T file m e g = Ok ((avgs, b), g') ->
  Forall (fun a => mean_at_least a b) avgs.
Proof.
  intros Hm Hd Hf _ _ HdD HfF Hsmall Hmain.
  destruct (main_inv _ _ _ _ _ _ _ Hmain) as (st & Hst & [= -> ->] & _).
  destruct (main_state_inv _ _ _ _ _ _ Hst)
    as (ph0 & g1 & its & start & g2 & _ & _ & Hint & Hrun).
  destruct (np_random_randint_spec _ _ _ _ _ Hint) as [Hn Hstart].
  apply (run_means T _ _ _ start m e D F Hm Hn Hstart Hd Hf HdD HfF Hsmall
           its _ st Hrun).
  constructor.
Qed.

Lemma means_at_least_best_witness :
  exists avgs b g',
    1 <= 3 /\
    shape (data_n pair_file) (data_n pair_file) (data_d pair_file) /\
    shape (data_n pair_file) (data_n pair_file) (data_f pair_file) /\
    int64_matrix (data_d pair_file) /\ int64_matrix (data_f pair_file) /\
    Forall (Forall (fun v => 0 <= v <= 1)) (data_d pair_file) /\
    Forall (Forall (fun v => 0 <= v <= 1)) (data_f pair_file) /\
    3 * (data_n pair_file * data_n pair_file * (1 * 1)) <= 2 ^ 53 /\
    main sample_tapes pair_file 3 (Fin half) rng0 = Ok ((avgs, b), g') /\
    Forall (fun a => mean_at_least a b) avgs.
Proof.
  destruct (main_total sample_tapes pair_file 3 (Fin half) rng0 pair_file_well_formed)
    as ([avgs b] & g' & H).
  assert (Hm : 1 <= 3) by lia.
  assert (Hd : shape (data_n pair_file) (data_n pair_file) (data_d pair_file))
    by (split; [reflexivity|repeat constructor]).
  assert (Hf : shape (data_n pair_file) (data_n pair_file) (data_f pair_file))
    by (split; [reflexivity|repeat constructor]).
  assert (HdD : Forall (Forall (fun v => 0 <= v <= 1)) (data_d pair_file))
    by (repeat constructor; lia).
  assert (HfF : Forall (Forall (fun v => 0 <= v <= 1)) (data_f pair_file))
    by (repeat constructor; lia).
  assert (Hs : 3 * (data_n pair_file * data_n pair_file * (1 * 1)) <= 2 ^ 53)
    by discriminate.
  assert (Hid : int64_matrix (data_d pair_file)) by (repeat constructor; discriminate).
  assert (Hif : int64_matrix (data_f pair_file)) by (repeat constructor; discriminate).
  exists avgs, b, g'. split; [exact Hm|]. split; [exact Hd|]. split; [exact Hf|].
  split; [exact Hid|]. split; [exact Hif|].
  split; [exact HdD|]. split; [exact HfF|]. split; [exact Hs|]. split; [exact H|].
  exact (means_at_least_best sample_tapes pair_file 3 (Fin half) rng0 avgs b g' 1 1
           Hm Hd Hf Hid Hif HdD HfF Hs H).
Defined.

(** * One and two locations *)

(** X14: with two locations a run cannot fail: on 2-by-2 data and for
    any [m] but 0, [main] returns whatever the pheromones become (zero,
    [inf], [NaN]), whatever the fitness values are (zero and negative
    included) and whatever the evaporation rate is, because the path
    builder never reads the pheromones. *)
Theorem two_location_run_returns T file m e g :
  data_n file = 2 -> shape 2 2 (data_d file) -> shape 2 2 (data_f file) -> m <> 0 ->
  exists res g', main T file m e g = Ok (res, g').
Proof.
  exact (two_location_main T file m e g).
Qed.

Lemma two_location_run_returns_witness :
  data_n zero_distance_file = 2 /\
  shape 2 2 (data_d zero_distance_file) /\ shape 2 2 (data_f zero_distance_file) /\
  7 <> 0 /\
  exists res g', main sample_tapes zero_distance_file 7 NaN rng0 = Ok (res, g').
Proof.
  assert (Hd : shape 2 2 (data_d zero_distance_file))
    by (split; [reflexivity|repeat constructor]).
  assert (Hf : shape 2 2 (data_f zero_distance_file))
    by (split; [reflexivity|repeat constructor]).
  assert (Hm : 7 <> 0) by lia.
  split; [reflexivity|]. split; [exact Hd|]. split; [exact Hf|]. split; [exact Hm|].
  exact (two_location_run_returns sample_tapes zero_distance_file 7 NaN rng0
           eq_refl Hd Hf Hm).
Defined.

Lemma true_div_exact c m : 1 <= m -> true_div (m * c) m = fl_of_Z c.
Proof.
  intros Hm. unfold true_div, fl_of_Z. f_equal. apply Q2Qc_eq_iff.
  rewrite inject_Z_mult. field.
  replace 0%Q with (inject_Z 0) by reflexivity. rewrite inject_Z_injective. lia.
Qed.

Lemma repeat_snoc {A} (a : A) k : repeat a (S k) = repeat a k ++ [a].
Proof. induction k as [|k IH]; [reflexivity|]. cbn in *. now rewrite <- IH. Qed.

Section SingleLocation.

Variables (T : tapes) (d f : imatrix) (m : Z) (e : fl).

Hypothesis Hd : shape 1 1 d.
Hypothesis Hf : shape 1 1 f.
Hypothesis Hm : 1 <= m.
Hypothesis Hsmall : m * Z.abs (single_cost d f) <= 2 ^ 53.

Lemma ant_single y st :
  pheromone_update st = [[fl_zero]] ->
  exists st',
    ant T 1 d f 0 y st = Ok st' /\
    pheromones st' = pheromones st /\
    best_fitness st' = min_best (best_fitness st) (single_cost d f) /\
    total_fitness st' = wrap64 (total_fitness st + single_cost d f) /\
    pheromone_update st' = [[fl_zero]] /\
    average_fitness_list st' = average_fitness_list st /\
    gen st' = gen st.
Proof.
  intros Hu. unfold ant. rewrite generate_path_small by lia. cbn [bind].
  assert (Hr : Forall (fun v => 0 <= v < 1) [0]) by (repeat constructor; lia).
  rewrite (get_fitness_in_range 1 [0] d f eq_refl Hr Hd Hf). cbn [bind].
  assert (Hc : qap_cost 1 [0] d f = (single_cost d f)).
  { unfold qap_cost, single_cost. change (range 0 1) with [0]. cbn [map].
    change (node_at [0] 0) with 0. unfold sumZ. cbn [fold_right]. lia. }
  rewrite Hc, wrap64_small
    by (assert (2 ^ 53 < 2 ^ 63) by reflexivity; nia).
  change (update_pheromones (reciprocal (single_cost d f)) [0] 1) with (Ok [[fl_zero]]).
  cbn [bind]. eexists. split; [reflexivity|]. cbn. rewrite Hu.
  repeat split.
Qed.

Lemma min_best_idem b v : min_best (min_best b v) v = min_best b v.
Proof.
  unfold min_best. destruct b as [|u]; cbn.
  - now rewrite Z.ltb_irrefl.
  - destruct (Z.ltb_spec v u) as [H|H]; cbn; [now rewrite Z.ltb_irrefl|].
    destruct (Z.ltb_spec v u); [lia|reflexivity].
Qed.

Lemma ants_single st :
  pheromone_update st = [[fl_zero]] -> total_fitness st = 0 ->
  exists st',
    for_each (range 0 m) (ant T 1 d f 0) st = Ok st' /\
    pheromones st' = pheromones st /\
    best_fitness st' = min_best (best_fitness st) (single_cost d f) /\
    total_fitness st' = m * (single_cost d f) /\
    pheromone_update st' = [[fl_zero]] /\
    average_fitness_list st' = average_fitness_list st /\
    gen st' = gen st.
Proof.
  intros Hu Ht.
  destruct (for_range_total
              (fun i s =>
                 0 <= i /\ pheromones s = pheromones st /\
                 best_fitness s = (if i =? 0 then best_fitness st
                                   else min_best (best_fitness st) (single_cost d f)) /\
                 total_fitness s = i * (single_cost d f) /\
                 pheromone_update s = [[fl_zero]] /\
                 average_fitness_list s = average_fitness_list st /\
                 gen s = gen st)
              (ant T 1 d f 0) m) with (lo := 0) (st := st)
    as (st' & Hrun & _ & Hp & Hb & Htot & Hu' & Ha & Hg).
  - intros i s Hi (Hi0 & Hp & Hb & Htot & Hu' & Ha & Hg).
    destruct (ant_single i s Hu') as (s' & Hant & Hp' & Hb' & Ht' & Hu'' & Ha' & Hg').
    exists s'. split; [exact Hant|].
    split; [lia|]. split; [congruence|]. split; [|split].
    + rewrite Hb', Hb. replace (i + 1 =? 0) with false by lia.
      destruct (Z.eqb_spec i 0); [reflexivity|apply min_best_idem].
    + rewrite Ht', Htot. rewrite wrap64_small; [lia|].
      assert (2 ^ 53 < 2 ^ 63) by reflexivity. nia.
    + repeat split; congruence.
  - lia.
  - repeat split; try assumption; lia.
  - exists st'. split; [exact Hrun|]. replace (m =? 0) with false in Hb by lia.
    repeat split; assumption.
Qed.

Lemma iteration_single x st p :
  pheromones st = [[p]] ->
  exists st',
    iteration T 1 d f 0 m e x st = Ok st' /\
    pheromones st' = [[fl_mul p e]] /\
    best_fitness st' = min_best (best_fitness st) (single_cost d f) /\
    average_fitness_list st' = average_fitness_list st ++ [fl_of_Z (single_cost d f)] /\
    gen st' = gen st.
Proof.
  intros Hp. unfold iteration. change (np_zeros 1) with (Ok [[fl_zero]]). cbn [bind].
  edestruct ants_single as (st1 & -> & Hp1 & Hb1 & Ht1 & Hu1 & Ha1 & Hg1);
    [| |cbn [bind]].
  - reflexivity.
  - reflexivity.
  - eexists. split; [reflexivity|]. cbn in *.
    rewrite Hp1, Hu1, Hp, Ht1, Ha1, Hb1, Hg1. unfold deposit_and_evaporate. cbn.
    rewrite fl_add_zero_r, true_div_exact by exact Hm. repeat split.
Qed.

Lemma run_single k st p :
  0 <= k -> pheromones st = [[p]] -> best_fitness st = Infinity ->
  average_fitness_list st = [] ->
  exists st',
    run T 1 d f 0 m e k st = Ok st' /\
    pheromones st' = [[evaporated p e (Z.to_nat k)]] /\
    best_fitness st' = (if k =? 0 then Infinity else Fitness (single_cost d f)) /\
    average_fitness_list st' = repeat (fl_of_Z (single_cost d f)) (Z.to_nat k) /\
    gen st' = gen st.
Proof.
  intros Hk Hp Hb Ha. unfold run.
  destruct (for_range_total
              (fun i s =>
                 0 <= i /\
                 pheromones s = [[evaporated p e (Z.to_nat i)]] /\
                 best_fitness s = (if i =? 0 then Infinity else Fitness (single_cost d f)) /\
                 average_fitness_list s = repeat (fl_of_Z (single_cost d f)) (Z.to_nat i) /\
                 gen s = gen st)
              (iteration T 1 d f 0 m e) k) with (lo := 0) (st := st)
    as (st' & Hrun & _ & H).
  - intros i s Hi (Hi0 & Hps & Hbs & Has & Hgs).
    destruct (iteration_single i s _ Hps) as (s' & Hit & Hp' & Hb' & Ha' & Hg').
    exists s'. split; [exact Hit|]. split; [lia|].
    replace (Z.to_nat (i + 1)) with (S (Z.to_nat i)) by lia.
    split; [exact Hp'|]. split; [|split; [|congruence]].
    + rewrite Hb', Hbs. replace (i + 1 =? 0) with false by lia.
      destruct (i =? 0); [reflexivity|].
      unfold min_best. cbn. now rewrite Z.ltb_irrefl.
    + now rewrite Ha', Has, repeat_snoc.
  - exact Hk.
  - repeat split; try assumption; lia.
  - exists st'. split; [exact Hrun|exact H].
Qed.

End SingleLocation.

(** X15: with a single location nothing is ever deposited, so a run is
    pure evaporation and cannot fail: on 1-by-1 [int64] data, for
    [m >= 1] and [m * |d[0][0] * f[0][0]| <= 2^53] (the running total
    neither wraps around nor loses a digit in the division), [main]
    returns [floor(10000/m)] means all equal to [d[0][0] * f[0][0]],
    that value as best fitness, and the single pheromone is its
    initial value multiplied [floor(10000/m)] times by [e]; no value
    of [random.random()] is drawn. *)
Theorem single_location_run T file m e g :
  data_n file = 1 -> shape 1 1 (data_d file) -> shape 1 1 (data_f file) -> 1 <= m ->
  int64_matrix (data_d file) -> int64_matrix (data_f file) ->
  m * Z.abs (icell (data_d file) 0 0 * icell (data_f file) 0 0) <= 2 ^ 53 ->
  exists st,
    main_state T file m e g = Ok st /\
    pheromones st
    = [[evaporated (Fin (np_uniform T (np_cursor g))) e (Z.to_nat (10000 / m))]] /\
    average_fitness_list st
    = repeat (fl_of_Z (icell (data_d file) 0 0 * icell (data_f file) 0 0))
        (Z.to_nat (10000 / m)) /\
    best_fitness st
    = (if 10000 / m =? 0 then Infinity
       else Fitness (icell (data_d file) 0 0 * icell (data_f file) 0 0)) /\
    py_cursor (gen st) = py_cursor g.
Proof.
  intros Hn Hd Hf Hm _ _ Hsmall. unfold main_state. rewrite Hn.
  rewrite (np_array_rectangular _ (shape_rectangular _ _ _ Hd)),
    (np_array_rectangular _ (shape_rectangular _ _ _ Hf)). cbn [bind].
  unfold np_random_rand, np_random_randint. cbn [Z.ltb Z.compare Z.leb bind].
  rewrite iterations_of_pos by exact Hm. cbn [bind].
  set (raw := np_integer T _).
  replace (0 + raw mod (1 - 0)) with 0 by (rewrite Z.sub_0_r, Z.mod_1_r; reflexivity).
  change (Z.to_nat 1) with 1%nat. cbn [seq map Nat.mul]. rewrite !Nat.add_0_r.
  edestruct (run_single T (data_d file) (data_f file) m e Hd Hf Hm Hsmall (10000 / m))
    as (st & -> & Hp & Hb & Ha & Hg).
  - apply Z.div_pos; lia.
  - cbn. reflexivity.
  - reflexivity.
  - reflexivity.
  - exists st. split; [reflexivity|].
    rewrite Hp, Hb, Ha, Hg. cbn. repeat split.
Qed.

Lemma single_location_run_witness :
  data_n unit_file = 1 /\ shape 1 1 (data_d unit_file) /\
  shape 1 1 (data_f unit_file) /\ 1 <= 3 /\
  int64_matrix (data_d unit_file) /\ int64_matrix (data_f unit_file) /\
  3 * Z.abs (icell (data_d unit_file) 0 0 * icell (data_f unit_file) 0 0) <= 2 ^ 53 /\
  exists st,
    main_state sample_tapes unit_file 3 (Fin half) rng0 = Ok st /\
    pheromones st = [[evaporated (Fin (np_uniform sample_tapes 0)) (Fin half) 3333]] /\
    average_fitness_list st = repeat (fl_of_Z 1) 3333 /\
    best_fitness st = Fitness 1.
Proof.
  assert (Hd : shape 1 1 (data_d unit_file)) by (split; [reflexivity|repeat constructor]).
  assert (Hf : shape 1 1 (data_f unit_file)) by (split; [reflexivity|repeat constructor]).
  assert (Hm : 1 <= 3) by lia.
  assert (Hid : int64_matrix (data_d unit_file)) by (repeat constructor; discriminate).
  assert (Hif : int64_matrix (data_f unit_file)) by (repeat constructor; discriminate).
  assert (Hs : 3 * Z.abs (icell (data_d unit_file) 0 0 * icell (data_f unit_file) 0 0)
               <= 2 ^ 53) by discriminate.
  split; [reflexivity|]. split; [exact Hd|]. split; [exact Hf|]. split; [exact Hm|].
  split; [exact Hid|]. split; [exact Hif|]. split; [exact Hs|].
  destruct (single_location_run sample_tapes unit_file 3 (Fin half) rng0
              eq_refl Hd Hf Hm Hid Hif Hs) as (st & Hst & Hp & Ha & Hb & _).
  exists st. split; [exact Hst|]. split; [exact Hp|]. split; [exact Ha|exact Hb].
Defined.

(** * Reading the data *)

Lemma length_take_upto {A} (l : list A) n :
  (length (take_upto l n) <= length l)%nat /\
  (0 <= n -> len (take_upto l n) <= n).
Proof.
  unfold take_upto, len. destruct (Z.ltb_spec n 0); rewrite length_firstn; lia.
Qed.

Lemma length_slice {A} (l : list A) lo hi :
  (length (slice l lo hi) <= hi - lo)%nat /\
  (length (slice l lo hi) <= length l - lo)%nat.
Proof. unfold slice. rewrite length_firstn, length_skipn. lia. Qed.

Lemma firstn_app_exact {A} (l r : list A) k :
  length l = k -> firstn k (l ++ r) = l.
Proof.
  intros <-. rewrite firstn_app, Nat.sub_diag, firstn_all. cbn [firstn].
  apply app_nil_r.
Qed.

Lemma skipn_app_exact {A} (l r : list A) k :
  length l = k -> skipn k (l ++ r) = r.
Proof.
  intros <-. rewrite skipn_app, Nat.sub_diag, skipn_all. reflexivity.
Qed.

Section ReadDataFacts.

Variable parse_line : String.string -> result (list Z).

Lemma read_rows_from lines :
  forall acc rows,
  for_each lines (fun line data => row <- parse_line line ;; Ok (data ++ [row])) acc
  = Ok rows <->
  exists rs, rows = acc ++ rs /\ Forall2 (fun line row => parse_line line = Ok row) lines rs.
Proof.
  induction lines as [|line lines IH]; intros acc rows; cbn [for_each].
  - split.
    + intros [= <-]. exists []. split; [now rewrite app_nil_r|constructor].
    + intros (rs & -> & H). inversion H. now rewrite app_nil_r.
  - destruct (parse_line line) as [row|e] eqn:E; cbn [bind].
    + rewrite IH. split.
      * intros (rs & -> & H). exists (row :: rs). split.
        -- now rewrite <- app_assoc.
        -- constructor; assumption.
      * intros (rs & -> & H). inversion H as [|? r ? rs' Hp Hrest]; subst.
        cbn beta in Hp. rewrite E in Hp. injection Hp as <-.
        exists rs'. split; [now rewrite <- app_assoc|assumption].
    + split; [discriminate|].
      intros (rs & _ & H). inversion H as [|? r ? rs' Hp Hrest]; subst.
      cbn beta in Hp. congruence.
Qed.

Lemma read_rows_spec lines rows :
  read_rows parse_line lines = Ok rows <->
  Forall2 (fun line row => parse_line line = Ok row) lines rows.
Proof.
  unfold read_rows. rewrite read_rows_from. cbn [app]. split.
  - intros (rs & -> & H). exact H.
  - intros H. exists rows. split; [reflexivity|exact H].
Qed.

Lemma read_data_inv lines file :
  read_data parse_line lines = Ok file ->
  exists rows first_rest,
    Forall2 (fun line row => parse_line line = Ok row) lines rows /\
    nth_error rows 0 = Some (data_n file :: first_rest) /\
    data_d file = take_upto (slice rows 2 52) (data_n file) /\
    data_f file = take_upto (slice rows 53 103) (data_n file).
Proof.
  unfold read_data.
  destruct (read_rows parse_line lines) as [rows|] eqn:Hrows; cbn [bind]; [|discriminate].
  destruct (index rows 0) as [first|] eqn:Hfirst; cbn [bind]; [|discriminate].
  destruct (index first 0) as [n|] eqn:Hn; cbn [bind]; [|discriminate].
  intros [= <-]. cbn.
  destruct rows as [|r rows']; [discriminate|].
  cbn in Hfirst. injection Hfirst as ->.
  destruct first as [|n' rest]; [discriminate|].
  cbn in Hn. injection Hn as ->.
  exists (((n :: rest) :: rows')), rest. repeat split.
  now apply read_rows_spec.
Qed.

Lemma read_data_sizes lines file :
  read_data parse_line lines = Ok file ->
  (length (data_d file) <= 50)%nat /\ (length (data_f file) <= 50)%nat /\
  (0 <= data_n file ->
     len (data_d file) <= data_n file /\ len (data_f file) <= data_n file) /\
  (length (data_f file) <= length lines - 53)%nat.
Proof.
  intros Hread.
  destruct (read_data_inv lines file Hread)
    as (rows & rest & Hparse & Hfirst & Hd & Hf).
  pose proof (Forall2_length Hparse) as Hlen.
  split; [|split; [|split]].
  - rewrite Hd.
    pose proof (proj1 (length_take_upto (slice rows 2 52) (data_n file))).
    pose proof (proj1 (length_slice rows 2 52)). lia.
  - rewrite Hf.
    pose proof (proj1 (length_take_upto (slice rows 53 103) (data_n file))).
    pose proof (proj1 (length_slice rows 53 103)). lia.
  - intros Hn. rewrite Hd, Hf. split; now apply length_take_upto.
  - rewrite Hf, Hlen.
    pose proof (proj1 (length_take_upto (slice rows 53 103) (data_n file))).
    pose proof (proj2 (length_slice rows 53 103)). lia.
Qed.

End ReadDataFacts.

(** X16: [read_data] returns only if the file has a first line that
    begins with a number, which becomes [n], and if every line of the
    file parses, the lines after the 103rd included although they are
    never used.  What it returns is cut to the fixed layout: [d] and [f]
    have at most 50 rows each, at most [n] when [n >= 0], and [f] has
    no more rows than the file has lines after the 53rd. *)
Theorem read_data_returns parse_line lines file :
  read_data parse_line lines = Ok file ->
  (exists first others rest,
     lines = first :: others /\ parse_line first = Ok (data_n file :: rest)) /\
  Forall (fun line => exists row, parse_line line = Ok row) lines /\
  (length (data_d file) <= 50)%nat /\ (length (data_f file) <= 50)%nat /\
  (0 <= data_n file ->
     len (data_d file) <= data_n file /\ len (data_f file) <= data_n file) /\
  (length (data_f file) <= length lines - 53)%nat.
Proof.
  intros Hread.
  destruct (read_data_inv parse_line lines file Hread)
    as (rows & rest & Hparse & Hfirst & Hd & Hf).
  split; [|split].
  - destruct Hparse as [|line row lines' rows' Hp Hrest]; [discriminate|].
    cbn in Hfirst. injection Hfirst as ->.
    exists line, lines', rest. split; [reflexivity|exact Hp].
  - clear -Hparse. induction Hparse; constructor; eauto.
  - exact (read_data_sizes parse_line lines file Hread).
Qed.

Lemma read_data_returns_witness :
  read_data sample_parse_line ["2 7"%str; "x"%str] = Err ValueError /\
  read_data sample_parse_line ["2 7"%str]
  = Ok {| data_n := 2; data_d := []; data_f := [] |} /\
  Forall (fun line => exists row, sample_parse_line line = Ok row) ["2 7"%str].
Proof.
  assert (H : read_data sample_parse_line ["2 7"%str]
              = Ok {| data_n := 2; data_d := []; data_f := [] |}) by reflexivity.
  split; [reflexivity|]. split; [exact H|].
  exact (proj1 (proj2 (read_data_returns sample_parse_line _ _ H))).
Defined.

(** X17: [read_data] reads back a file laid out as the code expects:
    a first line beginning with [n], one separator line, 50 rows of
    [d], one separator line, 50 rows of [f], then anything.  It returns
    [n], the first [n] rows of [d] and the first [n] rows of [f]; for
    [n = 50] these are [d] and [f] themselves. *)
Theorem read_data_layout parse_line lines n first_rest sep1 d sep2 f rest :
  Forall2 (fun line row => parse_line line = Ok row) lines
    ((n :: first_rest) :: sep1 :: d ++ sep2 :: f ++ rest) ->
  length d = 50%nat -> length f = 50%nat ->
  read_data parse_line lines
  = Ok {| data_n := n; data_d := take_upto d n; data_f := take_upto f n |} /\
  (n = 50 -> read_data parse_line lines = Ok {| data_n := 50; data_d := d; data_f := f |}).
Proof.
  intros Hparse Hd Hf.
  assert (Hread : read_data parse_line lines
                  = Ok {| data_n := n; data_d := take_upto d n; data_f := take_upto f n |}).
  { unfold read_data.
    rewrite (proj2 (read_rows_spec parse_line lines _) Hparse). cbn [bind].
    change (index ((n :: first_rest) :: sep1 :: d ++ sep2 :: f ++ rest) 0)
      with (Ok (A := list Z) (n :: first_rest)).
    cbn [bind]. change (index (n :: first_rest) 0) with (Ok (A := Z) n). cbn [bind].
    do 2 f_equal.
    - unfold slice. change (skipn 2 ((n :: first_rest) :: sep1 :: d ++ sep2 :: f ++ rest))
        with (d ++ sep2 :: f ++ rest).
      change (52 - 2)%nat with 50%nat. now rewrite firstn_app_exact.
    - unfold slice.
      change (skipn 53 ((n :: first_rest) :: sep1 :: d ++ sep2 :: f ++ rest))
        with (skipn 51 (d ++ [sep2] ++ f ++ rest)).
      rewrite app_assoc.
      rewrite skipn_app_exact by (rewrite length_app; cbn [length]; lia).
      change (103 - 53)%nat with 50%nat. now rewrite firstn_app_exact. }
  split; [exact Hread|].
  intros ->. rewrite Hread. do 2 f_equal; unfold take_upto; cbn [Z.ltb Z.compare].
  - change (Z.to_nat 50) with 50%nat. rewrite <- Hd. apply firstn_all.
  - change (Z.to_nat 50) with 50%nat. rewrite <- Hf. apply firstn_all.
Qed.

Lemma read_data_layout_witness :
  read_data sample_parse_line sample_lines
  = Ok {| data_n := 2; data_d := [[1; 1]; [1; 1]]; data_f := [[1; 1]; [1; 1]] |}.
Proof.
  assert (H : Forall2 (fun line row => sample_parse_line line = Ok row) sample_lines
                ((2 :: []) :: [] :: repeat [1; 1] 50 ++ [] :: repeat [1; 1] 50 ++ [])).
  { unfold sample_lines. repeat first [apply Forall2_cons | apply Forall2_nil];
      reflexivity. }
  exact (proj1 (read_data_layout sample_parse_line sample_lines 2 [] []
                  (repeat [1; 1] 50) [] (repeat [1; 1] 50) [] H eq_refl eq_refl)).
Defined.

(** * What [main] needs of the data *)

Lemma main_ok_needs T file m e g res g' :
  1 <= m <= 10000 ->
  main T file m e g = Ok (res, g') ->
  1 <= data_n file /\
  data_n file <= len (data_d file) /\
  data_n file <= len (data_f file) /\
  (forall i, 0 <= i < data_n file ->
     exists row, index (data_d file) i = Ok row /\ data_n file <= len row).
Proof.
  intros Hm Hmain.
  destruct (main_inv _ _ _ _ _ _ _ Hmain) as (st & Hst & _ & _).
  destruct (main_state_inv _ _ _ _ _ _ Hst)
    as (ph0 & g1 & its & start & g2 & _ & Hits & Hint & Hrun).
  destruct (np_random_randint_spec _ _ _ _ _ Hint) as [Hn Hstart].
  rewrite iterations_of_pos in Hits by lia. injection Hits as <-.
  assert (Hk : 1 <= 10000 / m).
  { apply Z.div_le_lower_bound; lia. }
  unfold run in Hrun.
  assert (Hin0 : In 0 (range 0 (10000 / m))) by (apply in_range; lia).
  destruct (for_each_rounds _ _ _ _ Hrun 0 Hin0) as (s & s' & Hiter).
  destruct (iteration_inv _ _ _ _ _ _ _ _ _ _ Hiter) as (zeros & st1 & _ & Hants & _).
  assert (Hin1 : In 0 (range 0 m)) by (apply in_range; lia).
  destruct (for_each_rounds _ _ _ _ Hants 0 Hin1) as (a & a' & Hant).
  destruct (ant_inv _ _ _ _ _ _ _ _ Hant) as (path & gp & v & delta & Hpath & Hfit & _).
  destruct (generate_path_inv _ _ _ _ _ _ _ Hn Hstart Hpath) as (Hlen & Hnd & Hr & _).
  cbn [fst] in Hlen, Hnd, Hr.
  destruct (get_fitness_ok_inv _ _ _ _ Hfit) as (Hd & Hrows & Hf).
  rewrite Hlen in Hd, Hrows.
  split; [exact Hn|]. split; [exact Hd|]. split; [|exact Hrows].
  assert (Hin : In (data_n file - 1) path).
  { apply (Permutation_in _ (Permutation_sym (NoDup_range_permutation _ _ Hnd Hlen Hr))).
    apply in_range. lia. }
  rewrite Forall_forall in Hf. specialize (Hf _ Hin). lia.
Qed.

(** X18: [main] checks nothing of the data, but with [1 <= m <= 10000]
    (at least one ant is evaluated) it returns only if [n >= 1], [d]
    has at least [n] rows, each of the first [n] at least [n] long, and
    [f] has at least [n] rows; otherwise the first ant raises. *)
Theorem main_needs_square_data T file m e g res g' :
  1 <= m <= 10000 ->
  main T file m e g = Ok (res, g') ->
  1 <= data_n file /\
  data_n file <= len (data_d file) /\
  data_n file <= len (data_f file) /\
  (forall i, 0 <= i < data_n file ->
     exists row, index (data_d file) i = Ok row /\ data_n file <= len row).
Proof. exact (main_ok_needs T file m e g res g'). Qed.

Lemma main_needs_square_data_witness :
  exists res g',
    1 <= 3 <= 10000 /\
    main sample_tapes pair_file 3 (Fin half) rng0 = Ok (res, g') /\
    data_n pair_file <= len (data_d pair_file).
Proof.
  destruct (main_total sample_tapes pair_file 3 (Fin half) rng0 pair_file_well_formed)
    as (res & g' & H).
  assert (Hm : 1 <= 3 <= 10000) by lia.
  exists res, g'. split; [exact Hm|]. split; [exact H|].
  exact (proj1 (proj2 (main_needs_square_data sample_tapes pair_file 3 (Fin half)
                         rng0 res g' Hm H))).
Defined.

(** X19: [read_data] and [main] together: the reader keeps at most 50
    rows of each matrix, and no row of [f] beyond the end of the file,
    so with [1 <= m <= 10000] the run on what [read_data] returned
    raises whenever the file announces [n > 50] or has fewer than
    [53 + n] lines. *)
Theorem read_data_short_file T parse_line lines file m e g :
  read_data parse_line lines = Ok file ->
  1 <= m <= 10000 ->
  50 < data_n file \/ len lines < 53 + data_n file ->
  exists err, main T file m e g = Err err.
Proof.
  intros Hread Hm Hshort.
  destruct (main T file m e g) as [[res g']|err] eqn:Hmain; [exfalso|eauto].
  destruct (main_ok_needs _ _ _ _ _ _ _ Hm Hmain) as (Hn & Hd & Hf & _).
  destruct (read_data_sizes _ _ _ Hread) as (Hd50 & Hf50 & _ & Hflines).
  unfold len in *. lia.
Qed.

Lemma read_data_short_file_witness :
  read_data sample_parse_line ["2 7"%str]
  = Ok {| data_n := 2; data_d := []; data_f := [] |} /\
  exists err,
    main sample_tapes {| data_n := 2; data_d := []; data_f := [] |} 3 (Fin half) rng0
    = Err err.
Proof.
  assert (H : read_data sample_parse_line ["2 7"%str]
              = Ok {| data_n := 2; data_d := []; data_f := [] |}) by reflexivity.
  assert (Hm : 1 <= 3 <= 10000) by lia.
  split; [exact H|].
  refine (read_data_short_file sample_tapes sample_parse_line ["2 7"%str] _ 3
            (Fin half) rng0 H Hm _).
  right. cbn. lia.
Defined.

(** * The command line *)

(** X20: the script reads its arguments all or nothing.  Without
    arguments it uses [output.csv], 100 ants and an evaporation rate of
    1/2; with one argument it raises [IndexError] instead of using a
    default; with two it raises as well ([IndexError], unless the
    second is no integer); with three or more it uses the first three
    and ignores the rest. *)
Theorem command_line_arguments parse_int parse_float argv :
  (len argv <= 1 ->
     command_line parse_int parse_float argv
     = Ok ("output.csv"%str, 100, Fin (Q2Qc (1 # 2)))) /\
  (len argv = 2 -> command_line parse_int parse_float argv = Err IndexError) /\
  (len argv = 3 ->
     exists err, command_line parse_int parse_float argv = Err err /\
       (err = IndexError \/ exists a, In a argv /\ parse_int a = Err err)) /\
  (forall prog a b c more m e,
     argv = prog :: a :: b :: c :: more ->
     parse_int b = Ok m -> parse_float c = Ok e ->
     command_line parse_int parse_float argv = Ok (a, m, e)).
Proof.
  unfold command_line. split; [|split; [|split]].
  - intros H. replace (1 <? len argv) with false by lia. reflexivity.
  - intros H. destruct argv as [|prog [|a [|b rest]]];
      unfold len in H; cbn [length] in H; try lia.
    reflexivity.
  - intros H. destruct argv as [|prog [|a [|b [|c rest]]]];
      unfold len in H; cbn [length] in H; try lia.
    change (1 <? len [prog; a; b]) with true.
    change (index [prog; a; b] 1) with (Ok (A := String.string) a).
    change (index [prog; a; b] 2) with (Ok (A := String.string) b).
    change (index [prog; a; b] 3) with (Err (A := String.string) IndexError).
    cbn [bind]. destruct (parse_int b) as [m|err] eqn:Hb; cbn [bind].
    + exists IndexError. split; [reflexivity|left; reflexivity].
    + exists err. split; [reflexivity|]. right. exists b. cbn. auto.
  - intros prog a b c more m e -> Hb Hc.
    assert (Hlen : 4 <= len (prog :: a :: b :: c :: more)).
    { unfold len. cbn [length]. lia. }
    replace (1 <? len (prog :: a :: b :: c :: more)) with true by lia.
    rewrite (index_nonneg _ 1 prog), (index_nonneg _ 2 prog), (index_nonneg _ 3 prog)
      by lia.
    change (nth (Z.to_nat 1) (prog :: a :: b :: c :: more) prog) with a.
    change (nth (Z.to_nat 2) (prog :: a :: b :: c :: more) prog) with b.
    change (nth (Z.to_nat 3) (prog :: a :: b :: c :: more) prog) with c.
    cbn [bind]. rewrite Hb. cbn [bind]. rewrite Hc. reflexivity.
Qed.

Lemma command_line_arguments_witness :
  len ["main.py"%str; "out.csv"%str] = 2 /\
  command_line sample_parse_int sample_parse_float ["main.py"%str; "out.csv"%str]
  = Err IndexError /\
  command_line sample_parse_int sample_parse_float
    ["main.py"%str; "out.csv"%str; "50"%str; "1"%str; "extra"%str]
  = Ok ("out.csv"%str, 50, fl_of_Z 1).
Proof.
  assert (H : len ["main.py"%str; "out.csv"%str] = 2) by reflexivity.
  split; [exact H|]. split.
  - exact (proj1 (proj2 (command_line_arguments sample_parse_int sample_parse_float _)) H).
  - exact (proj2 (proj2 (proj2 (command_line_arguments sample_parse_int
             sample_parse_float _))) "main.py"%str "out.csv"%str "50"%str "1"%str
             ["extra"%str] 50 (fl_of_Z 1) eq_refl eq_refl eq_refl).
Defined.
